(** * curl_connect.cpp: connections over libcurl and the shared-context registry

    A shallow embedding of [src/curl_connect.cpp] (namespace [conn]):

    - the string utilities [pairs_to_fields_str] and [fields_str_to_map];
    - [CurlConnectionImpl_], the wrapper of one libcurl easy handle;
    - [HTTPConnection], which adds the HTTP method and the protocol-driven
      TLS verification;
    - [SharedHTTPConnection], the front-end value, and the static registry
      [contexts] of reference-counted connections.

    libcurl itself is outside the file: it appears as the interface
    [LibCurl], and a handle is represented by the history of the calls made
    on it.  C++ control flow is kept: a member function is a computation
    over the state it can reach that either returns, throws (carrying the
    state at the throw), fails an [assert], or runs into undefined
    behaviour.  Allocation failures ([new], [curl_easy_init],
    [curl_slist_append]) are not represented.  The static mutex
    [contexts_mtx] only orders registry operations of different threads;
    here every registry operation is one sequential step, so only the
    per-context mutex, which is data of a [Context], is represented. *)

From Stdlib Require Import String Ascii ZArith List Lia Bool DecimalString
  DecimalPos.
From stdpp Require Import gmap strings.
From Equations Require Import Equations.
Import ListNotations.

Set Default Proof Using "Type".

(* ================================================================= *)
(** ** Strings *)

(** [std::string(const char* )]: the characters before the first NUL. *)
Fixpoint c_str (s : string) : string :=
  match s with
  | EmptyString => EmptyString
  | String a s' => if Ascii.eqb a zero then EmptyString else String a (c_str s')
  end.

(** [s.rfind(p, 0) == 0]: [p] occurs in [s] at position 0. *)
Definition starts_with (p s : string) : bool := String.prefix p s.

(** [s.erase(s.end() - 1, s.end())]. *)
Fixpoint erase_last (s : string) : string :=
  match s with
  | EmptyString => EmptyString
  | String a EmptyString => EmptyString
  | String a s' => String a (erase_last s')
  end.

(** [std::find(b, e, c)] and, for a one-character set, [std::find_first_of]:
    the range before the first [c], and the range from that [c] on (empty
    when the iterator returned is [e]). *)
Fixpoint find_char (c : ascii) (s : string) : string * string :=
  match s with
  | EmptyString => (EmptyString, EmptyString)
  | String a s' =>
      if Ascii.eqb a c then (EmptyString, s)
      else let '(p, q) := find_char c s' in (String a p, q)
  end.

Fixpoint contains (c : ascii) (s : string) : bool :=
  match s with
  | EmptyString => false
  | String a s' => Ascii.eqb a c || contains c s'
  end.

(** [std::to_string] of an integer. *)
Definition to_string (z : Z) : string := NilZero.string_of_int (Z.to_int z).

(** The [stringstream] loop of [pairs_to_fields_str]. *)
Fixpoint fields_stream (fields : list (string * string)) : string :=
  match fields with
  | [] => EmptyString
  | f :: rest => fst f +:+ "=" +:+ snd f +:+ "&" +:+ fields_stream rest
  end.

Definition pairs_to_fields_str (fields : list (string * string)) : string :=
  let s := fields_stream fields in
  let s := if decide (s = EmptyString) then s else erase_last s in
  c_str s.

(** The body of the [do] loop of [fields_str_to_map] before the test of
    [e]: the segment [s] adds a pair when it is not empty and holds '='. *)
Definition emplace_segment (s : string) (res : list (string * string))
  : list (string * string) :=
  if decide (s = EmptyString) then res
  else match find_char "=" s with
       | (k, String _ v) => res ++ [(k, v)]
       | (_, EmptyString) => res
       end.

Definition inspect {A} (a : A) : {b | a = b} := exist _ a eq_refl.

(** The [do { ... } while(true)] loop, from the iterator [b] on. *)
Equations? fields_loop (b : string) (res : list (string * string))
  : list (string * string) by wf (String.length b) lt :=
  fields_loop b res with inspect (find_char "&" b) := {
    | exist _ (s, e) Heq with e := {
      | EmptyString := emplace_segment s res
      | String _ b' := fields_loop b' (emplace_segment s res) } }.
Proof.
  assert (Hlen : forall t, String.length (snd (find_char "&" t)) <= String.length t).
  { intros t; induction t as [|x t IH]; simpl; [lia|].
    destruct (Ascii.eqb x "&"); simpl; [lia|].
    destruct (find_char "&" t); simpl in *; lia. }
  specialize (Hlen b). rewrite Heq in Hlen. simpl in Hlen. lia.
Qed.

Definition fields_str_to_map (fstr : string) : list (string * string) :=
  fields_loop fstr [].

(** [header_list_to_map]: each string of the list is cut at its first ':';
    for a string without ':' the iterator [i + 1] is past the end, which
    has no meaning ([None]). *)
Definition header_to_pair (data : string) : option (string * string) :=
  match find_char ":" (c_str data) with
  | (k, String _ v) => Some (k, v)
  | (_, EmptyString) => None
  end.

Fixpoint header_list_to_map (hlist : list string)
  : option (list (string * string)) :=
  match hlist with
  | [] => Some []
  | data :: next =>
      match header_to_pair data, header_list_to_map next with
      | Some p, Some res => Some (p :: res)
      | _, _ => None
      end
  end.

(** [h.find(needle)]: the first position at which [needle] occurs in [h];
    [None] for [npos]. *)
Fixpoint find_str (needle h : string) : option nat :=
  if String.prefix needle h then Some 0
  else match h with
       | EmptyString => None
       | String _ h' =>
           match find_str needle h' with
           | Some pos => Some (S pos)
           | None => None
           end
       end.

(** [string(h.begin() + n, h.end())]. *)
Definition string_from (n : nat) (h : string) : string :=
  String.substring n (String.length h - n) h.

(** [std::stol]: white space, an optional sign, then the longest run of
    decimal digits.  It throws [std::invalid_argument] when there is no
    digit and [std::out_of_range] when the number is not a [long];
    [long_max] is [LONG_MAX] of the platform. *)
Inductive stol_result :=
| stol_value (z : Z)
| stol_invalid_argument
| stol_out_of_range.

Definition isspace (a : ascii) : bool :=
  let n := nat_of_ascii a in
  Nat.eqb n 32 || (Nat.leb 9 n && Nat.leb n 13).

Definition isdigit (a : ascii) : bool :=
  let n := nat_of_ascii a in Nat.leb 48 n && Nat.leb n 57.

Fixpoint skip_spaces (s : string) : string :=
  match s with
  | String a s' => if isspace a then skip_spaces s' else s
  | EmptyString => EmptyString
  end.

(** The value of the longest run of digits a string starts with, read
    from the left with [acc] the value of the digits before; [None] when
    the string and [acc] hold no digit. *)
Fixpoint digits_value (s : string) (acc : option Z) : option Z :=
  match s with
  | String a s' =>
      if isdigit a
      then digits_value s'
             (Some (10 * default 0%Z acc + (Z.of_nat (nat_of_ascii a) - 48))%Z)
      else acc
  | EmptyString => acc
  end.

Definition stol (long_max : Z) (s : string) : stol_result :=
  let s := skip_spaces s in
  let '(negative, s) :=
    match s with
    | String a s' =>
        if Ascii.eqb a "-" then (true, s')
        else if Ascii.eqb a "+" then (false, s')
        else (false, s)
    | EmptyString => (false, s)
    end in
  match digits_value s None with
  | None => stol_invalid_argument
  | Some v =>
      let z := if negative : bool then (- v)%Z else v in
      if decide (- long_max - 1 <= z <= long_max)%Z then stol_value z
      else stol_out_of_range
  end.

(* ----------------------------------------------------------------- *)
(** *** Regular expressions

    The fragment of ECMAScript expressions that [PROTO_RX] uses, matched
    with backtracking from the start of the input ([match_continuous]). *)

Inductive regex :=
| RChar (c : ascii)
| RClass (cs : list ascii)
| ROpt (r : regex)
| RSeq (r1 r2 : regex).

Fixpoint regex_match (r : regex) (s : string) (k : string -> bool) : bool :=
  match r with
  | RChar c =>
      match s with
      | String a s' => if Ascii.eqb a c then k s' else false
      | EmptyString => false
      end
  | RClass cs =>
      match s with
      | String a s' => if existsb (Ascii.eqb a) cs then k s' else false
      | EmptyString => false
      end
  | ROpt r' => regex_match r' s k || k s
  | RSeq r1 r2 => regex_match r1 s (fun s' => regex_match r2 s' k)
  end.

(** [std::regex_search(s, r, match_continuous)]. *)
Definition regex_search_continuous (s : string) (r : regex) : bool :=
  regex_match r s (fun _ => true).

Fixpoint regex_of_chars (cs : list ascii) (r : regex) : regex :=
  match cs with
  | [] => r
  | c :: cs' => RSeq (RChar c) (regex_of_chars cs' r)
  end.

(** ["http[s]?\\://"] *)
Definition PROTO_RX : regex :=
  regex_of_chars ["h"; "t"; "t"; "p"]%char
    (RSeq (ROpt (RClass ["s"%char]))
       (RSeq (RChar ":") (RSeq (RChar "/") (RChar "/")))).

(* ================================================================= *)
(** ** The options of libcurl *)

(** The options that the file sets. *)
Inductive CURLoption :=
| CURLOPT_NOSIGNAL | CURLOPT_ERRORBUFFER
| CURLOPT_WRITEFUNCTION | CURLOPT_WRITEDATA
| CURLOPT_HEADERFUNCTION | CURLOPT_HEADERDATA
| CURLOPT_URL | CURLOPT_SSL_OPTIONS
| CURLOPT_SSL_VERIFYPEER | CURLOPT_SSL_VERIFYHOST
| CURLOPT_CAINFO | CURLOPT_CAPATH
| CURLOPT_ACCEPT_ENCODING | CURLOPT_TCP_KEEPALIVE
| CURLOPT_TIMEOUT_MS | CURLOPT_HTTPHEADER | CURLOPT_COPYPOSTFIELDS
| CURLOPT_HTTPGET | CURLOPT_POST | CURLOPT_CUSTOMREQUEST.

#[global] Instance CURLoption_eq_dec : EqDecision CURLoption.
Proof. solve_decision. Defined.

Definition CURLoption_to_nat (o : CURLoption) : nat :=
  match o with
  | CURLOPT_NOSIGNAL => 0 | CURLOPT_ERRORBUFFER => 1
  | CURLOPT_WRITEFUNCTION => 2 | CURLOPT_WRITEDATA => 3
  | CURLOPT_HEADERFUNCTION => 4 | CURLOPT_HEADERDATA => 5
  | CURLOPT_URL => 6 | CURLOPT_SSL_OPTIONS => 7
  | CURLOPT_SSL_VERIFYPEER => 8 | CURLOPT_SSL_VERIFYHOST => 9
  | CURLOPT_CAINFO => 10 | CURLOPT_CAPATH => 11
  | CURLOPT_ACCEPT_ENCODING => 12 | CURLOPT_TCP_KEEPALIVE => 13
  | CURLOPT_TIMEOUT_MS => 14 | CURLOPT_HTTPHEADER => 15
  | CURLOPT_COPYPOSTFIELDS => 16
  | CURLOPT_HTTPGET => 17 | CURLOPT_POST => 18 | CURLOPT_CUSTOMREQUEST => 19
  end.

Definition CURLoption_of_nat (n : nat) : option CURLoption :=
  match n with
  | 0 => Some CURLOPT_NOSIGNAL | 1 => Some CURLOPT_ERRORBUFFER
  | 2 => Some CURLOPT_WRITEFUNCTION | 3 => Some CURLOPT_WRITEDATA
  | 4 => Some CURLOPT_HEADERFUNCTION | 5 => Some CURLOPT_HEADERDATA
  | 6 => Some CURLOPT_URL | 7 => Some CURLOPT_SSL_OPTIONS
  | 8 => Some CURLOPT_SSL_VERIFYPEER | 9 => Some CURLOPT_SSL_VERIFYHOST
  | 10 => Some CURLOPT_CAINFO | 11 => Some CURLOPT_CAPATH
  | 12 => Some CURLOPT_ACCEPT_ENCODING | 13 => Some CURLOPT_TCP_KEEPALIVE
  | 14 => Some CURLOPT_TIMEOUT_MS | 15 => Some CURLOPT_HTTPHEADER
  | 16 => Some CURLOPT_COPYPOSTFIELDS
  | 17 => Some CURLOPT_HTTPGET | 18 => Some CURLOPT_POST
  | 19 => Some CURLOPT_CUSTOMREQUEST
  | _ => None
  end.

#[global] Instance CURLoption_countable : Countable CURLoption.
Proof.
  refine (inj_countable CURLoption_to_nat CURLoption_of_nat _).
  intros []; reflexivity.
Defined.

(* ================================================================= *)
(** ** Control flow: return, throw, assert *)

(** The exception classes of the file; the last one is
    [std::runtime_error]. *)
Inductive exn :=
| CurlException (what : string)
| CurlOptionException (option : CURLoption) (value : string)
| CurlConnectionError (code : Z) (msg : string)
| runtime_error (what : string).

#[global] Instance exn_eq_dec : EqDecision exn.
Proof. solve_decision. Defined.

(** How a call ends: it returns [a], or an exception leaves it, both in a
    state [s]; or an [assert] fails and the process aborts; or the C++
    standard gives the call no meaning. *)
Inductive outcome (S A : Type) : Type :=
| Ret (a : A) (s : S)
| Throw (e : exn) (s : S)
| AssertFail
| Undefined.
Arguments Ret {S A} a s.
Arguments Throw {S A} e s.
Arguments AssertFail {S A}.
Arguments Undefined {S A}.

#[global] Instance outcome_eq_dec {S A} `{EqDecision S, EqDecision A} :
  EqDecision (outcome S A).
Proof. solve_decision. Defined.

Definition M (S A : Type) : Type := S -> outcome S A.

Definition ret {S A} (a : A) : M S A := fun s => Ret a s.

Definition bind {S A B} (m : M S A) (k : A -> M S B) : M S B :=
  fun s =>
    match m s with
    | Ret a s' => k a s'
    | Throw e s' => Throw e s'
    | AssertFail => AssertFail
    | Undefined => Undefined
    end.

Definition throw {S A} (e : exn) : M S A := fun s => Throw e s.
Definition get {S} : M S S := fun s => Ret s s.
Definition modify {S} (f : S -> S) : M S unit := fun s => Ret tt (f s).
Definition undefined {S A} : M S A := fun _ => Undefined.

(** [assert(b)] with assertions compiled in. *)
Definition assert_ {S} (b : bool) : M S unit :=
  fun s => if b then Ret tt s else AssertFail.

Declare Scope cpp_scope.
Delimit Scope cpp_scope with cpp.
Notation "x <- m ;; k" := (bind m (fun x => k))
  (at level 100, m at next level, k at level 200, right associativity)
  : cpp_scope.
Notation "m ;; k" := (bind m (fun _ => k))
  (at level 100, k at level 200, right associativity) : cpp_scope.
Local Open Scope cpp_scope.

(** A computation on a part [T] of the state [S]; the part may be absent
    (a null pointer, an erased map entry), and using it then is undefined. *)
Definition zoom {S T A} (proj : S -> option T) (upd : T -> S -> S)
  (m : M T A) : M S A :=
  fun s =>
    match proj s with
    | None => Undefined
    | Some t =>
        match m t with
        | Ret a t' => Ret a (upd t' s)
        | Throw e t' => Throw e (upd t' s)
        | AssertFail => AssertFail
        | Undefined => Undefined
        end
    end.

(** [std::lock_guard]: [lock] on entry, [unlock] on every way out of the
    scope. *)
Definition lock_guard {S A} (lock : M S unit) (unlock : S -> S)
  (body : M S A) : M S A :=
  fun s =>
    match lock s with
    | Ret _ s1 =>
        match body s1 with
        | Ret a s2 => Ret a (unlock s2)
        | Throw e s2 => Throw e (unlock s2)
        | AssertFail => AssertFail
        | Undefined => Undefined
        end
    | Throw e s1 => Throw e s1
    | AssertFail => AssertFail
    | Undefined => Undefined
    end.

(** A constructor: the members are initialised to [init], then [body]
    runs; an exception leaves no object behind. *)
Definition constructor {S T} (init : T) (body : M T unit) : M S T :=
  fun s =>
    match body init with
    | Ret _ t => Ret t s
    | Throw e _ => Throw e s
    | AssertFail => AssertFail
    | Undefined => Undefined
    end.

(* ================================================================= *)
(** ** libcurl *)

(** The addresses passed to libcurl: the error buffer, the write callback,
    the two [WriteCallback] objects of [execute], and a header list. *)
Inductive pointer :=
| ptr_error_buffer
| ptr_write
| ptr_cb_data
| ptr_cb_header
| ptr_slist (contents : list string).

#[global] Instance pointer_eq_dec : EqDecision pointer.
Proof. solve_decision. Defined.

(** The parameter of [set_option<T>]. *)
Inductive param :=
| PLong (z : Z)
| PString (s : string)
| PPointer (p : pointer).

#[global] Instance param_eq_dec : EqDecision param.
Proof. solve_decision. Defined.

(** The calls made on an easy handle. *)
Inductive curl_call :=
| call_setopt (option : CURLoption) (p : param)
| call_perform.

#[global] Instance curl_call_eq_dec : EqDecision curl_call.
Proof. solve_decision. Defined.

(** What [curl_easy_perform] leaves behind: its code, the error buffer,
    [CURLINFO_RESPONSE_CODE], what the write callbacks received, and the
    reading of the clock after it. *)
Record perform_result := {
  ccode : Z;
  error_buffer : string;
  response_code : Z;
  written_data : string;
  written_header : string;
  time_point : Z
}.

Definition CURLE_OK : Z := 0.

(** [CURLSSLOPT_NO_REVOKE] of curl.h. *)
Definition CURLSSLOPT_NO_REVOKE : Z := 2.

(** libcurl, as the file uses it.  A handle is the list of the calls made
    on it so far; [curl_easy_setopt] says whether the next option is
    accepted, [curl_easy_perform] what the transfer gives. *)
Class LibCurl := {
  curl_easy_setopt : list curl_call -> CURLoption -> param -> bool;
  curl_easy_perform : list curl_call -> perform_result;
  address_of : pointer -> Z
}.

(* ================================================================= *)
(** ** class CurlConnection::CurlConnectionImpl_ *)

Module CurlConnectionImpl_.

(** [_header] is the [curl_slist] (empty for [nullptr]); [_handle] is
    [None] for [nullptr]; [_options] holds [to<T>::str] of the last
    parameter accepted for each option. *)
Record t := {
  _header : list string;
  _handle : option (list curl_call);
  _options : gmap CURLoption string
}.

#[global] Instance impl_eq_dec : EqDecision t.
Proof. solve_decision. Defined.

Definition with_header (l : list string) (c : t) : t :=
  {| _header := l; _handle := _handle c; _options := _options c |}.
Definition with_handle (h : option (list curl_call)) (c : t) : t :=
  {| _header := _header c; _handle := h; _options := _options c |}.
Definition with_options (o : gmap CURLoption string) (c : t) : t :=
  {| _header := _header c; _handle := _handle c; _options := o |}.

Definition closed_msg : string := "connection/handle has been closed".

Section Impl.
Context {curl : LibCurl}.

(** [to<T>::str]. *)
Definition to_str (p : param) : string :=
  match p with
  | PLong z => to_string z
  | PString s => s
  | PPointer q => to_string (address_of q)
  end.

Definition set_option (option : CURLoption) (p : param) : M t unit :=
  fun c =>
    match _handle c with
    | None => Throw (CurlException closed_msg) c
    | Some h =>
        let c' := with_handle (Some (h ++ [call_setopt option p])) c in
        if curl_easy_setopt h option p
        then Ret tt (with_options (<[option := to_str p]> (_options c')) c')
        else Throw (CurlOptionException option (to_str p)) c'
    end.

(** The members as the delegated constructor [CurlConnectionImpl_()]
    initialises them, before its body runs. *)
Definition fresh : t :=
  {| _header := []; _handle := Some []; _options := ∅ |}.

(** The body of [CurlConnectionImpl_()]. *)
Definition init : M t unit :=
  set_option CURLOPT_NOSIGNAL (PLong 1) ;;
  set_option CURLOPT_ERRORBUFFER (PPointer ptr_error_buffer).

(** [curl_easy_perform(_handle)]. *)
Definition perform : M t perform_result :=
  fun c =>
    match _handle c with
    | None => Undefined
    | Some h => Ret (curl_easy_perform h) (with_handle (Some (h ++ [call_perform])) c)
    end.

Definition execute (return_header_data : bool)
  : M t (Z * string * string * Z) :=
  c <- get ;;
  match _handle c with
  | None => throw (CurlException closed_msg)
  | Some _ =>
      set_option CURLOPT_WRITEFUNCTION (PPointer ptr_write) ;;
      set_option CURLOPT_WRITEDATA (PPointer ptr_cb_data) ;;
      (if return_header_data
       then set_option CURLOPT_HEADERFUNCTION (PPointer ptr_write) ;;
            set_option CURLOPT_HEADERDATA (PPointer ptr_cb_header)
       else ret tt) ;;
      r <- perform ;;
      if decide (ccode r = CURLE_OK)
      then ret (response_code r, written_data r,
                if return_header_data then written_header r else EmptyString,
                time_point r)
      else throw (CurlConnectionError (ccode r) (error_buffer r))
  end.

Definition close : M t unit :=
  modify (fun _ => {| _header := []; _handle := None; _options := ∅ |}).

Definition is_closed (c : t) : bool :=
  match _handle c with None => true | Some _ => false end.

Definition SET_url (url : string) : M t unit :=
  set_option CURLOPT_URL (PString (c_str url)) ;;
  set_option CURLOPT_SSL_OPTIONS (PLong CURLSSLOPT_NO_REVOKE).

Definition GET_url (c : t) : string :=
  match _options c !! CURLOPT_URL with
  | None => EmptyString
  | Some v => v
  end.

Definition SET_ssl_verify (on : bool) : M t unit :=
  set_option CURLOPT_SSL_VERIFYPEER (PLong (if on then 1 else 0)) ;;
  set_option CURLOPT_SSL_VERIFYHOST (PLong (if on then 2 else 0)).

Definition SET_ssl_verify_using_ca_bundle (path : string) : M t unit :=
  SET_ssl_verify true ;;
  set_option CURLOPT_CAINFO (PString (c_str path)).

Definition SET_ssl_verify_using_ca_certs (dir : string) : M t unit :=
  SET_ssl_verify true ;;
  set_option CURLOPT_CAPATH (PString (c_str dir)).

Definition SET_encoding (enc : string) : M t unit :=
  set_option CURLOPT_ACCEPT_ENCODING (PString (c_str enc)).

Definition SET_keepalive (on : bool) : M t unit :=
  set_option CURLOPT_TCP_KEEPALIVE (PLong (if on then 1 else 0)).

Definition SET_timeout (timeout : Z) : M t unit :=
  set_option CURLOPT_TIMEOUT_MS (PLong (if decide (0 < timeout)%Z then timeout else 0)).

(** The string that [curl_slist_append] copies for one header. *)
Definition header_line (h : string * string) : string :=
  c_str (fst h +:+ ": " +:+ snd h).

Definition ADD_headers (headers : list (string * string)) : M t unit :=
  c <- get ;;
  match _handle c with
  | None => throw (CurlException closed_msg)
  | Some _ =>
      match headers with
      | [] => ret tt
      | _ =>
          let l := _header c ++ map header_line headers in
          modify (with_header l) ;;
          set_option CURLOPT_HTTPHEADER (PPointer (ptr_slist l))
      end
  end.

Definition RESET_headers : M t unit :=
  modify (fun c => with_options (delete CURLOPT_HTTPHEADER (_options c))
                     (with_header [] c)).

Definition has_headers (c : t) : bool :=
  match _header c with [] => false | _ => true end.

(** One turn of the loop of [GET_headers]: the string is cut at its first
    ": "; [None] when there is none. *)
Definition header_name_value (data : string) : option (string * string) :=
  let h := c_str data in
  match find_str ": " h with
  | Some pos => Some (String.substring 0 pos h, string_from (pos + 2) h)
  | None => None
  end.

Fixpoint headers_of_list (l : list string) : option (list (string * string)) :=
  match l with
  | [] => Some []
  | data :: next =>
      match header_name_value data, headers_of_list next with
      | Some p, Some res => Some (p :: res)
      | _, _ => None
      end
  end.

Definition GET_headers : M t (list (string * string)) :=
  c <- get ;;
  match headers_of_list (_header c) with
  | Some headers => ret headers
  | None => throw (CurlException "malformed header")
  end.

(** [GET_timeout]; the exceptions of [std::stol] are values of the
    result. *)
Definition GET_timeout (long_max : Z) (c : t) : stol_result :=
  match _options c !! CURLOPT_TIMEOUT_MS with
  | Some v => stol long_max v
  | None => stol_value 0
  end.

(** [SET_fields(const string&)]. *)
Definition SET_fields_str (fields : string) : M t unit :=
  c <- get ;;
  if is_closed c then throw (CurlException closed_msg)
  else if decide (fields = EmptyString) then ret tt
  else set_option CURLOPT_COPYPOSTFIELDS (PString (c_str fields)).

(** [SET_fields(const vector<pair<string, string>>&)]. *)
Definition SET_fields (fields : list (string * string)) : M t unit :=
  SET_fields_str (pairs_to_fields_str fields).

End Impl.
End CurlConnectionImpl_.

(* ================================================================= *)
(** ** class HTTPConnection (with its base CurlConnection) *)

(** The enumeration of the header [curl_connect.h]; the last constructor
    stands for a value of the underlying type that names no enumerator,
    which the [default:] branch of [_set_method] handles. *)
Inductive HttpMethod :=
| http_get
| http_post
| http_delete
| http_put
| http_method_other (v : Z).

#[global] Instance HttpMethod_eq_dec : EqDecision HttpMethod.
Proof. solve_decision. Defined.

Module HTTPConnection.

Inductive Protocol := none | http | https.

#[global] Instance Protocol_eq_dec : EqDecision Protocol.
Proof. solve_decision. Defined.

(** [_pimpl] is the object the pointer of the base class owns. *)
Record t := {
  _pimpl : CurlConnectionImpl_.t;
  _proto : Protocol;
  _meth : HttpMethod
}.

#[global] Instance http_eq_dec : EqDecision t.
Proof. solve_decision. Defined.

Definition with_pimpl (p : CurlConnectionImpl_.t) (c : t) : t :=
  {| _pimpl := p; _proto := _proto c; _meth := _meth c |}.
Definition with_proto (p : Protocol) (c : t) : t :=
  {| _pimpl := _pimpl c; _proto := p; _meth := _meth c |}.
Definition with_meth (m : HttpMethod) (c : t) : t :=
  {| _pimpl := _pimpl c; _proto := _proto c; _meth := m |}.

Definition DEFAULT_ENCODING : string := "gzip".

Section Http.
Context {curl : LibCurl}.

(** A call through [_pimpl]. *)
Definition on_pimpl {A} (m : M CurlConnectionImpl_.t A) : M t A :=
  zoom (fun c => Some (_pimpl c)) with_pimpl m.

(** The members of [CurlConnection] that forward to [_pimpl]. *)
Definition set_option (option : CURLoption) (p : param) : M t unit :=
  on_pimpl (CurlConnectionImpl_.set_option option p).
Definition execute (return_header_data : bool)
  : M t (Z * string * string * Z) :=
  on_pimpl (CurlConnectionImpl_.execute return_header_data).
Definition close : M t unit := on_pimpl CurlConnectionImpl_.close.
Definition is_closed (c : t) : bool :=
  CurlConnectionImpl_.is_closed (_pimpl c).
Definition set_encoding (enc : string) : M t unit :=
  on_pimpl (CurlConnectionImpl_.SET_encoding enc).
Definition set_keepalive (on : bool) : M t unit :=
  on_pimpl (CurlConnectionImpl_.SET_keepalive on).
Definition set_timeout (timeout : Z) : M t unit :=
  on_pimpl (CurlConnectionImpl_.SET_timeout timeout).
Definition add_headers (headers : list (string * string)) : M t unit :=
  on_pimpl (CurlConnectionImpl_.ADD_headers headers).
Definition reset_headers : M t unit :=
  on_pimpl CurlConnectionImpl_.RESET_headers.
Definition set_fields (fields : list (string * string)) : M t unit :=
  on_pimpl (CurlConnectionImpl_.SET_fields fields).

Definition _set_method (meth : HttpMethod) : M t HttpMethod :=
  match meth with
  | http_get => set_option CURLOPT_HTTPGET (PLong 1)
  | http_post => set_option CURLOPT_POST (PLong 1)
  | http_delete => set_option CURLOPT_CUSTOMREQUEST (PString "DELETE")
  | http_put => set_option CURLOPT_CUSTOMREQUEST (PString "PUT")
  | http_method_other _ => throw (runtime_error "invalid HttpMethod")
  end ;;
  ret meth.

(** Modelled from the spec: [HTTPConnection::set_method] is defined in the
    header [curl_connect.h], which is not among the sources; the spec lists
    it as a configuration call of the logical connection, and the
    constructors below set [_meth] from [_set_method] in the same way. *)
Definition set_method (meth : HttpMethod) : M t unit :=
  m <- _set_method meth ;;
  modify (with_meth m).

(** [certificate_bundle_path] is the value of the global of that name at
    the call. *)
Definition set_url (certificate_bundle_path url : string) : M t unit :=
  (if starts_with "https://" url then
     c <- get ;;
     if decide (_proto c = https) then ret tt
     else
       (if decide (certificate_bundle_path = EmptyString)
        then on_pimpl (CurlConnectionImpl_.SET_ssl_verify true)
        else on_pimpl (CurlConnectionImpl_.SET_ssl_verify_using_ca_bundle
                         certificate_bundle_path)) ;;
       modify (with_proto https)
   else if starts_with "http://" url then modify (with_proto http)
   else throw (CurlException ("invalid protocol in url: " +:+ url))) ;;
  on_pimpl (CurlConnectionImpl_.SET_url url).

(** The members before a constructor body runs: the base [CurlConnection()]
    has made a new [CurlConnectionImpl_], [_proto] is [none]. *)
Definition fresh (meth : HttpMethod) : t :=
  {| _pimpl := CurlConnectionImpl_.fresh; _proto := none; _meth := meth |}.

(** [HTTPConnection(const std::string& url, HttpMethod meth)]. *)
Definition new_url {S} (certificate_bundle_path url : string)
  (meth : HttpMethod) : M S t :=
  constructor (fresh meth)
    (on_pimpl CurlConnectionImpl_.init ;;
     m <- _set_method meth ;;
     modify (with_meth m) ;;
     set_encoding DEFAULT_ENCODING ;;
     set_keepalive true ;;
     set_url certificate_bundle_path url).

(** [HTTPConnection(HttpMethod meth)]. *)
Definition new_ {S} (meth : HttpMethod) : M S t :=
  constructor (fresh meth)
    (on_pimpl CurlConnectionImpl_.init ;;
     m <- _set_method meth ;;
     modify (with_meth m) ;;
     set_encoding DEFAULT_ENCODING ;;
     set_keepalive true).

End Http.
End HTTPConnection.

(* ================================================================= *)
(** ** class SharedHTTPConnection *)

Definition INT_MAX : Z := 2147483647.
Definition INT_MIN : Z := -2147483648.

Module SharedHTTPConnection.

(** Modelled from the spec: [struct Context] is declared in the header
    [curl_connect.h], which is not among the sources.  A registry entry owns
    one logical connection ([conn], [None] for a null pointer), a mutex of
    its own ([mtx], [None] for a null pointer, [Some true] while held) and
    the reference count [nref], an [int]. *)
Record Context := {
  conn : option HTTPConnection.t;
  mtx : option bool;
  nref : Z
}.

#[global] Instance Context_eq_dec : EqDecision Context.
Proof. solve_decision. Defined.

Definition with_conn (c : option HTTPConnection.t) (x : Context) : Context :=
  {| conn := c; mtx := mtx x; nref := nref x |}.
Definition with_mtx (m : option bool) (x : Context) : Context :=
  {| conn := conn x; mtx := m; nref := nref x |}.
Definition with_nref (n : Z) (x : Context) : Context :=
  {| conn := conn x; mtx := mtx x; nref := n |}.

(** Modelled from the spec: the constructor [Context(HTTPConnection* )] of
    the header.  The spec has a new entry count one reference once the
    front-end that made it is registered, and the constructor of the
    front-end calls [incr_ref] after it, so the entry starts at zero with a
    mutex that nobody holds. *)
Definition Context_new (c : HTTPConnection.t) : Context :=
  {| conn := Some c; mtx := Some false; nref := 0%Z |}.

(** The process-wide state the class works on: the static map [contexts]
    and the global [certificate_bundle_path]. *)
Record globals := {
  contexts : gmap Z Context;
  certificate_bundle_path : string
}.

#[global] Instance globals_eq_dec : EqDecision globals.
Proof. solve_decision. Defined.

Definition with_contexts (m : gmap Z Context) (g : globals) : globals :=
  {| contexts := m; certificate_bundle_path := certificate_bundle_path g |}.

(** The data members of a front-end. *)
Record t := {
  _is_open : bool;
  _url : string;
  _meth : HttpMethod;
  _headers : list (string * string);
  _fields : list (string * string);
  _timeout : Z;
  _id : Z
}.

#[global] Instance shared_eq_dec : EqDecision t.
Proof. solve_decision. Defined.

Definition with_is_open (b : bool) (x : t) : t :=
  {| _is_open := b; _url := _url x; _meth := _meth x; _headers := _headers x;
     _fields := _fields x; _timeout := _timeout x; _id := _id x |}.
Definition with_url (u : string) (x : t) : t :=
  {| _is_open := _is_open x; _url := u; _meth := _meth x;
     _headers := _headers x; _fields := _fields x; _timeout := _timeout x;
     _id := _id x |}.
Definition with_meth (m : HttpMethod) (x : t) : t :=
  {| _is_open := _is_open x; _url := _url x; _meth := m;
     _headers := _headers x; _fields := _fields x; _timeout := _timeout x;
     _id := _id x |}.
Definition with_headers (h : list (string * string)) (x : t) : t :=
  {| _is_open := _is_open x; _url := _url x; _meth := _meth x;
     _headers := h; _fields := _fields x; _timeout := _timeout x;
     _id := _id x |}.
Definition with_fields (f : list (string * string)) (x : t) : t :=
  {| _is_open := _is_open x; _url := _url x; _meth := _meth x;
     _headers := _headers x; _fields := f; _timeout := _timeout x;
     _id := _id x |}.
Definition with_timeout (n : Z) (x : t) : t :=
  {| _is_open := _is_open x; _url := _url x; _meth := _meth x;
     _headers := _headers x; _fields := _fields x; _timeout := n;
     _id := _id x |}.

(** A member function runs on the object [this] and on the globals. *)
Record frame := {
  this : t;
  statics : globals
}.

#[global] Instance frame_eq_dec : EqDecision frame.
Proof. solve_decision. Defined.

Definition with_this (x : t) (f : frame) : frame :=
  {| this := x; statics := statics f |}.
Definition with_statics (g : globals) (f : frame) : frame :=
  {| this := this f; statics := g |}.

(** A static member, or another access to the globals, from a member
    function. *)
Definition static {A} (m : M globals A) : M frame A :=
  zoom (fun f => Some (statics f)) with_statics m.

Definition modify_this (f : t -> t) : M frame unit :=
  modify (fun fr => with_this (f (this fr)) fr).

(** [lock] and [unlock] of the mutex of the entry [id]; locking a mutex
    that is held, in a program with one thread, never returns. *)
Definition mutex_lock (id : Z) : M globals unit :=
  g <- get ;;
  match contexts g !! id with
  | Some ctx =>
      match mtx ctx with
      | Some false =>
          modify (with_contexts (<[id := with_mtx (Some true) ctx]> (contexts g)))
      | _ => undefined
      end
  | None => undefined
  end.

Definition mutex_unlock (id : Z) (g : globals) : globals :=
  with_contexts (alter (with_mtx (Some false)) id (contexts g)) g.

Section Shared.
Context {curl : LibCurl}.

(** A call through the pointer [conn] of the entry [id]. *)
Definition on_conn {A} (id : Z) (m : M HTTPConnection.t A) : M globals A :=
  zoom (fun g => contexts g !! id ≫= conn)
       (fun c g => with_contexts (alter (with_conn (Some c)) id (contexts g)) g)
       m.

(** [decr_ref]; the caller holds the static mutex. *)
Definition decr_ref (id : Z) : M globals unit :=
  g <- get ;;
  match contexts g !! id with
  | None => assert_ false
  | Some ctx =>
      assert_ (bool_decide (is_Some (conn ctx))) ;;
      (if decide (nref ctx = INT_MIN) then undefined else ret tt) ;;
      let n := (nref ctx - 1)%Z in
      modify (with_contexts (<[id := with_nref n ctx]> (contexts g))) ;;
      assert_ (bool_decide (0 <= n)%Z) ;;
      if decide (n = 0%Z)
      then modify (fun g' => with_contexts (delete id (contexts g')) g')
      else ret tt
  end.

(** [incr_ref]; the caller holds the static mutex. *)
Definition incr_ref (id : Z) : M globals unit :=
  g <- get ;;
  match contexts g !! id with
  | None => assert_ false
  | Some ctx =>
      assert_ (bool_decide (is_Some (conn ctx))) ;;
      (if decide (nref ctx = INT_MAX) then undefined else ret tt) ;;
      modify (with_contexts (<[id := with_nref (nref ctx + 1) ctx]> (contexts g)))
  end.

Definition nconnections (context_id : Z) (g : globals) : Z :=
  match contexts g !! context_id with
  | None => 0%Z
  | Some ctx => nref ctx
  end.

(** [SharedHTTPConnection(url, meth, context_id)].  In
    [contexts[context_id] = Context(...)] the right operand is evaluated
    first, the order C++17 fixes: an exception of [new HTTPConnection]
    leaves the map as it was. *)
Definition new_ (url : string) (meth : HttpMethod) (context_id : Z)
  : M globals t :=
  g <- get ;;
  match contexts g !! context_id with
  | None =>
      c <- (if decide (url = EmptyString)
            then HTTPConnection.new_ meth
            else HTTPConnection.new_url (certificate_bundle_path g) url meth) ;;
      modify (with_contexts (<[context_id := Context_new c]> (contexts g)))
  | Some ctx =>
      assert_ (bool_decide (0 < nref ctx)%Z) ;;
      lock_guard (mutex_lock context_id) (mutex_unlock context_id)
        (on_conn context_id (HTTPConnection.set_method meth) ;;
         if decide (url = EmptyString) then ret tt
         else on_conn context_id
                (HTTPConnection.set_url (certificate_bundle_path g) url))
  end ;;
  incr_ref context_id ;;
  ret {| _is_open := true; _url := url; _meth := meth; _headers := [];
         _fields := []; _timeout := 0%Z; _id := context_id |}.

(** [SharedHTTPConnection(const SharedHTTPConnection& connection)]. *)
Definition copy (connection : t) : M globals t :=
  (if _is_open connection then incr_ref (_id connection) else ret tt) ;;
  ret connection.

(** [operator==]. *)
Definition eq (a connection : t) : bool :=
  bool_decide (_is_open a = _is_open connection)
  && bool_decide (_url a = _url connection)
  && bool_decide (_meth a = _meth connection)
  && bool_decide (_headers a = _headers connection)
  && bool_decide (_fields a = _fields connection)
  && bool_decide (_timeout a = _timeout connection)
  && bool_decide (_id a = _id connection).

(** Modelled from the spec: [operator!=] is defined in the header
    [curl_connect.h], which is not among the sources; the spec describes the
    hand-written inequality as the guard of self-assignment, the negation of
    [operator==]. *)
Definition neq (a connection : t) : bool := negb (eq a connection).

(** Modelled from the spec: [is_closed] is defined in the header
    [curl_connect.h], which is not among the sources; a front-end is closed
    when its open flag is down. *)
Definition is_closed (x : t) : bool := negb (_is_open x).

(** [operator=(const SharedHTTPConnection& connection)]. *)
Definition assign (connection : t) : M frame unit :=
  fr <- get ;;
  let self := this fr in
  if neq self connection then
    static
      (if negb (bool_decide (_is_open self = _is_open connection)) then
         if _is_open connection then incr_ref (_id connection)
         else decr_ref (_id self)
       else if negb (bool_decide (_id self = _id connection)) && _is_open self then
         decr_ref (_id self) ;;
         incr_ref (_id connection)
       else ret tt) ;;
    modify_this (fun _ => connection)
  else ret tt.

(** [_get_context]: the entry that [contexts.find(_id)] gives. *)
Definition _get_context : M frame Context :=
  fr <- get ;;
  match contexts (statics fr) !! _id (this fr) with
  | None => assert_ false ;; undefined
  | Some ctx => ret ctx
  end.

Definition execute (return_header_data : bool)
  : M frame (Z * string * string * Z) :=
  fr <- get ;;
  let self := this fr in
  if is_closed self then throw (CurlException "connection has been closed")
  else
    ctx <- _get_context ;;
    assert_ (bool_decide (is_Some (conn ctx))) ;;
    assert_ (bool_decide (is_Some (mtx ctx))) ;;
    lock_guard (static (mutex_lock (_id self)))
      (fun fr' => with_statics (mutex_unlock (_id self) (statics fr')) fr')
      (static (on_conn (_id self)
                 (HTTPConnection.set_url
                    (certificate_bundle_path (statics fr)) (_url self))) ;;
       static (on_conn (_id self) HTTPConnection.reset_headers) ;;
       (if negb (bool_decide (_headers self = []))
        then static (on_conn (_id self)
                       (HTTPConnection.add_headers (_headers self)))
        else ret tt) ;;
       static (on_conn (_id self) (HTTPConnection.set_method (_meth self))) ;;
       (if negb (bool_decide (_meth self = http_get))
           && negb (bool_decide (_fields self = []))
        then static (on_conn (_id self)
                       (HTTPConnection.set_fields (_fields self)))
        else ret tt) ;;
       modify_this (with_fields []) ;;
       static (on_conn (_id self) (HTTPConnection.set_timeout (_timeout self))) ;;
       static (on_conn (_id self) (HTTPConnection.execute return_header_data))).

Definition close : M frame unit :=
  fr <- get ;;
  if is_closed (this fr) then ret tt
  else
    static (decr_ref (_id (this fr))) ;;
    modify_this (with_is_open false).

Definition set_url (url : string) : M frame unit :=
  if negb (regex_search_continuous url PROTO_RX)
  then throw (CurlException ("invalid protocol in url: " +:+ url))
  else modify_this (with_url url).

(** Modelled from the spec: the destructor is defined in the header
    [curl_connect.h], which is not among the sources; a front-end destroyed
    while open gives up its reference as [close] does. *)
Definition destroy : M frame unit := close.

(** Modelled from the spec: [set_method], [add_headers], [set_fields] and
    [set_timeout] are defined in the header [curl_connect.h], which is not
    among the sources; each changes the pending parameter of the front-end
    and nothing else. *)
Definition set_method (meth : HttpMethod) : M frame unit :=
  modify_this (with_meth meth).
Definition add_headers (headers : list (string * string)) : M frame unit :=
  modify_this (fun x => with_headers (_headers x ++ headers) x).
Definition set_fields (fields : list (string * string)) : M frame unit :=
  modify_this (with_fields fields).
Definition set_timeout (timeout : Z) : M frame unit :=
  modify_this (with_timeout timeout).

End Shared.
End SharedHTTPConnection.

(* ================================================================= *)
(** ** Programs over front-ends *)

(** The front-end objects of a program, by address ([None] once
    destroyed), beside the globals. *)
Record program := {
  objects : list (option SharedHTTPConnection.t);
  process : SharedHTTPConnection.globals
}.

#[global] Instance program_eq_dec : EqDecision program.
Proof. solve_decision. Defined.

Definition with_objects (l : list (option SharedHTTPConnection.t))
  (p : program) : program :=
  {| objects := l; process := process p |}.
Definition with_process (g : SharedHTTPConnection.globals) (p : program)
  : program :=
  {| objects := objects p; process := g |}.

(** What a program does with front-ends: the two constructors, assignment,
    the member functions, and the end of an object's lifetime. *)
Inductive operation :=
| op_new (url : string) (meth : HttpMethod) (context_id : Z)
| op_copy (src : nat)
| op_assign (dst src : nat)
| op_close (a : nat)
| op_destroy (a : nat)
| op_set_url (a : nat) (url : string)
| op_set_method (a : nat) (meth : HttpMethod)
| op_add_headers (a : nat) (headers : list (string * string))
| op_set_fields (a : nat) (fields : list (string * string))
| op_set_timeout (a : nat) (timeout : Z)
| op_execute (a : nat) (return_header_data : bool).

Section Programs.
Context {curl : LibCurl}.

(** A static member or constructor, run on the globals of the program. *)
Definition in_process {A} (m : M SharedHTTPConnection.globals A)
  : M program A :=
  zoom (fun p => Some (process p)) with_process m.

(** The object at address [a]; using an address that holds no object is
    undefined. *)
Definition object_at (a : nat) : M program SharedHTTPConnection.t :=
  fun p =>
    match objects p !! a with
    | Some (Some x) => Ret x p
    | _ => Undefined
    end.

(** A member function called on the object at address [a]. *)
Definition member {A} (a : nat) (m : M SharedHTTPConnection.frame A)
  : M program A :=
  zoom
    (fun p =>
       match objects p !! a with
       | Some (Some x) =>
           Some {| SharedHTTPConnection.this := x;
                   SharedHTTPConnection.statics := process p |}
       | _ => None
       end)
    (fun fr p =>
       {| objects := <[a := Some (SharedHTTPConnection.this fr)]> (objects p);
          process := SharedHTTPConnection.statics fr |})
    m.

Definition step (o : operation) : M program unit :=
  match o with
  | op_new url meth context_id =>
      x <- in_process (SharedHTTPConnection.new_ url meth context_id) ;;
      modify (fun p => with_objects (objects p ++ [Some x]) p)
  | op_copy src =>
      connection <- object_at src ;;
      x <- in_process (SharedHTTPConnection.copy connection) ;;
      modify (fun p => with_objects (objects p ++ [Some x]) p)
  | op_assign dst src =>
      connection <- object_at src ;;
      member dst (SharedHTTPConnection.assign connection)
  | op_close a => member a SharedHTTPConnection.close
  | op_destroy a =>
      member a SharedHTTPConnection.destroy ;;
      modify (fun p => with_objects (<[a := None]> (objects p)) p)
  | op_set_url a url => member a (SharedHTTPConnection.set_url url)
  | op_set_method a meth => member a (SharedHTTPConnection.set_method meth)
  | op_add_headers a headers =>
      member a (SharedHTTPConnection.add_headers headers)
  | op_set_fields a fields =>
      member a (SharedHTTPConnection.set_fields fields)
  | op_set_timeout a timeout =>
      member a (SharedHTTPConnection.set_timeout timeout)
  | op_execute a return_header_data =>
      member a (SharedHTTPConnection.execute return_header_data) ;; ret tt
  end.

(** A run of operations; the program catches what an operation throws and
    goes on.  [None] when an assertion fails or behaviour is undefined. *)
Fixpoint run (ops : list operation) (p : program) : option program :=
  match ops with
  | [] => Some p
  | o :: rest =>
      match step o p with
      | Ret _ p' => run rest p'
      | Throw _ p' => run rest p'
      | AssertFail => None
      | Undefined => None
      end
  end.

End Programs.

(** A program that has not made any front-end yet. *)
Definition start (certificate_bundle_path : string) : program :=
  {| objects := [];
     process := {| SharedHTTPConnection.contexts := ∅;
                   SharedHTTPConnection.certificate_bundle_path :=
                     certificate_bundle_path |} |}.

(** The number of objects that are open and bound to [id]. *)
Definition bound_to (id : Z) (o : option SharedHTTPConnection.t) : bool :=
  match o with
  | Some x =>
      SharedHTTPConnection._is_open x
      && bool_decide (SharedHTTPConnection._id x = id)
  | None => false
  end.

Fixpoint open_count (id : Z) (l : list (option SharedHTTPConnection.t)) : nat :=
  match l with
  | [] => 0
  | o :: rest => (if bound_to id o then 1 else 0) + open_count id rest
  end.

(** Two instances of libcurl to run the definitions on: one accepts every
    option and every transfer answers 200; for the other no transfer
    connects (code 7, [CURLE_COULDNT_CONNECT]). *)
Definition curl_online : LibCurl :=
  {| curl_easy_setopt := fun _ _ _ => true;
     curl_easy_perform := fun h =>
       {| ccode := CURLE_OK; error_buffer := EmptyString;
          response_code := 200; written_data := "{}";
          written_header := "HTTP/1.1 200 OK";
          time_point := Z.of_nat (length h) |};
     address_of := fun _ => 4096%Z |}.

Definition curl_offline : LibCurl :=
  {| curl_easy_setopt := fun _ _ _ => true;
     curl_easy_perform := fun h =>
       {| ccode := 7; error_buffer := "Couldn't connect to server";
          response_code := 0; written_data := EmptyString;
          written_header := EmptyString;
          time_point := Z.of_nat (length h) |};
     address_of := fun _ => 4096%Z |}.

(* ================================================================= *)
(** * Vocabulary of the properties *)

(* ================================================================= *)
(** ** Registries on which [decr_ref] is called out of contract *)

(** An empty registry, and one whose entry 5 counts no reference. *)
Definition no_contexts : SharedHTTPConnection.globals :=
  {| SharedHTTPConnection.contexts := ∅;
     SharedHTTPConnection.certificate_bundle_path := EmptyString |}.

Definition stale_context : SharedHTTPConnection.globals :=
  {| SharedHTTPConnection.contexts :=
       {[ 5%Z := SharedHTTPConnection.Context_new
                   (HTTPConnection.fresh http_get) ]};
     SharedHTTPConnection.certificate_bundle_path := EmptyString |}.

(* ================================================================= *)
(** ** The two halves of [execute] *)

(** The calls that [execute] makes on the shared connection before it
    clears the pending fields, as one computation on that connection. *)
Definition push_parameters `{LibCurl} (bundle : string)
  (self : SharedHTTPConnection.t) : M HTTPConnection.t unit :=
  HTTPConnection.set_url bundle (SharedHTTPConnection._url self) ;;
  HTTPConnection.reset_headers ;;
  (if negb (bool_decide (SharedHTTPConnection._headers self = []))
   then HTTPConnection.add_headers (SharedHTTPConnection._headers self)
   else ret tt) ;;
  HTTPConnection.set_method (SharedHTTPConnection._meth self) ;;
  (if negb (bool_decide (SharedHTTPConnection._meth self = http_get))
      && negb (bool_decide (SharedHTTPConnection._fields self = []))
   then HTTPConnection.set_fields (SharedHTTPConnection._fields self)
   else ret tt).

(** The calls that follow. *)
Definition perform_request `{LibCurl} (return_header_data : bool)
  (self : SharedHTTPConnection.t)
  : M HTTPConnection.t (Z * string * string * Z) :=
  HTTPConnection.set_timeout (SharedHTTPConnection._timeout self) ;;
  HTTPConnection.execute return_header_data.

(** The globals with the entry [id] of the registry set to [x]. *)
Definition entry_with (id : Z) (x : SharedHTTPConnection.Context)
  (g : SharedHTTPConnection.globals) : SharedHTTPConnection.globals :=
  SharedHTTPConnection.with_contexts
    (<[id := x]> (SharedHTTPConnection.contexts g)) g.

(* ================================================================= *)
(** ** Assertions on the options and headers of a connection *)

(** From a state in [P], a call that returns does so with a result and
    state in [Q], and one that throws does so with [E]. *)
Definition triple {S A} (P : S -> Prop) (m : M S A)
  (Q : A -> S -> Prop) (E : exn -> S -> Prop) : Prop :=
  forall s, P s ->
    match m s with
    | Ret a s' => Q a s'
    | Throw e s' => E e s'
    | AssertFail => True
    | Undefined => True
    end.

Definition is_connection_error (e : exn) : Prop :=
  match e with CurlConnectionError _ _ => True | _ => False end.

(** Properties of the options and headers of a connection. *)
Definition inv : Type := gmap CURLoption string -> list string -> Prop.

Definition top : inv := fun _ _ => True.
Definition both (I J : inv) : inv := fun o l => I o l /\ J o l.
Definition opt_is (o : CURLoption) (v : option string) : inv :=
  fun opts _ => opts !! o = v.
Definition header_is (l : list string) : inv := fun _ hdr => hdr = l.

Definition ignores (o : CURLoption) (I : inv) : Prop :=
  forall opts opts' l,
    (forall o', o' <> o -> opts' !! o' = opts !! o') -> I opts l -> I opts' l.
Definition ignores_header (I : inv) : Prop :=
  forall opts l l', I opts l -> I opts l'.

Definition holds (I : inv) (c : CurlConnectionImpl_.t) : Prop :=
  I (CurlConnectionImpl_._options c) (CurlConnectionImpl_._header c).
Definition holds_http (I : inv) (c : HTTPConnection.t) : Prop :=
  holds I (HTTPConnection._pimpl c).

Definition ignores_all (os : list CURLoption) (I : inv) : Prop :=
  forall o, In o os -> ignores o I.

(** A call on a state that holds a connection ([view]): with [F] holding
    throughout and [P] before, it leaves [Q] when it returns, and it throws
    no connection error. *)
Definition spec {S A} (view : S -> CurlConnectionImpl_.t) (F P Q : inv)
  (m : M S A) : Prop :=
  triple (fun s => holds (both F P) (view s)) m
    (fun _ s => holds (both F Q) (view s))
    (fun e s => ~ is_connection_error e /\ holds F (view s)).

(** A call that leaves [F] as it is, however it ends. *)
Definition keeps {S A} (view : S -> CurlConnectionImpl_.t) (F : inv)
  (m : M S A) : Prop :=
  triple (fun s => holds F (view s)) m
    (fun _ s => holds F (view s)) (fun _ s => holds F (view s)).

(** What the connection holds once [push_parameters] has returned for the
    front-end [self]. *)
Definition pushed (self : SharedHTTPConnection.t) : inv :=
  fun opts hdr =>
    opts !! CURLOPT_URL = Some (c_str (SharedHTTPConnection._url self))
    /\ hdr = map CurlConnectionImpl_.header_line
               (SharedHTTPConnection._headers self)
    /\ (SharedHTTPConnection._meth self <> http_get ->
        SharedHTTPConnection._fields self <> [] ->
        pairs_to_fields_str (SharedHTTPConnection._fields self) <> EmptyString ->
        opts !! CURLOPT_COPYPOSTFIELDS
        = Some (c_str (pairs_to_fields_str (SharedHTTPConnection._fields self)))).

Definition timeout_pushed (self : SharedHTTPConnection.t) : inv :=
  opt_is CURLOPT_TIMEOUT_MS
    (Some (to_string (if decide (0 < SharedHTTPConnection._timeout self)%Z
                      then SharedHTTPConnection._timeout self else 0%Z))).

(** The options that each step of a request sets. *)
Definition method_options : list CURLoption :=
  [CURLOPT_HTTPGET; CURLOPT_POST; CURLOPT_CUSTOMREQUEST].
Definition url_options : list CURLoption :=
  [CURLOPT_SSL_VERIFYPEER; CURLOPT_SSL_VERIFYHOST; CURLOPT_CAINFO;
   CURLOPT_URL; CURLOPT_SSL_OPTIONS].
Definition perform_options : list CURLoption :=
  [CURLOPT_WRITEFUNCTION; CURLOPT_WRITEDATA;
   CURLOPT_HEADERFUNCTION; CURLOPT_HEADERDATA].

(* ================================================================= *)
(** ** The recorded body and the order of the calls *)

(** The request body that the connection of entry [id] is set to post:
    the value recorded for [CURLOPT_COPYPOSTFIELDS]. *)
Definition body_option (g : SharedHTTPConnection.globals) (id : Z)
  : option string :=
  match SharedHTTPConnection.contexts g !! id with
  | Some ctx =>
      match SharedHTTPConnection.conn ctx with
      | Some c =>
          CurlConnectionImpl_._options (HTTPConnection._pimpl c)
          !! CURLOPT_COPYPOSTFIELDS
      | None => None
      end
  | None => None
  end.

(** The calls of one [execute] on the shared connection, one after the
    other, each starting from the state the one before returned in. *)
Definition pushed_in_order {curl : LibCurl} (rhd : bool) (bundle : string)
  (self : SharedHTTPConnection.t) (c0 : HTTPConnection.t)
  (r : Z * string * string * Z) (c7 : HTTPConnection.t) : Prop :=
  let headers := SharedHTTPConnection._headers self in
  let meth := SharedHTTPConnection._meth self in
  let fields := SharedHTTPConnection._fields self in
  exists c1 c2 c3 c4 c5 c6,
    HTTPConnection.set_url bundle (SharedHTTPConnection._url self) c0 = Ret tt c1
    /\ HTTPConnection.reset_headers c1 = Ret tt c2
    /\ (if decide (headers = []) then c3 = c2
        else HTTPConnection.add_headers headers c2 = Ret tt c3)
    /\ HTTPConnection.set_method meth c3 = Ret tt c4
    /\ (if decide (meth <> http_get /\ fields <> [])
        then HTTPConnection.set_fields fields c4 = Ret tt c5
        else c5 = c4)
    /\ HTTPConnection.set_timeout (SharedHTTPConnection._timeout self) c5
       = Ret tt c6
    /\ HTTPConnection.execute rhd c6 = Ret r c7.

(* ================================================================= *)
(** ** Calls made on a handle, and a worked example *)

(** How often a handle was given the option [o], and how often it
    performed. *)
Fixpoint count_setopt (o : CURLoption) (h : list curl_call) : nat :=
  match h with
  | [] => 0
  | call_setopt o' _ :: rest =>
      (if decide (o' = o) then 1 else 0) + count_setopt o rest
  | call_perform :: rest => count_setopt o rest
  end.

Fixpoint count_perform (h : list curl_call) : nat :=
  match h with
  | [] => 0
  | call_perform :: rest => S (count_perform rest)
  | call_setopt _ _ :: rest => count_perform rest
  end.

(** The calls made so far on the handle of the connection of entry [id]. *)
Definition calls_of (g : SharedHTTPConnection.globals) (id : Z)
  : list curl_call :=
  match SharedHTTPConnection.contexts g !! id with
  | Some ctx =>
      match SharedHTTPConnection.conn ctx with
      | Some c =>
          match CurlConnectionImpl_._handle (HTTPConnection._pimpl c) with
          | Some h => h
          | None => []
          end
      | None => []
      end
  | None => []
  end.

(** A front-end for a POST with one header and one field, bound to id 1,
    and the registry after its construction. *)
Definition example_post : SharedHTTPConnection.t :=
  {| SharedHTTPConnection._is_open := true;
     SharedHTTPConnection._url := "https://h/o";
     SharedHTTPConnection._meth := http_post;
     SharedHTTPConnection._headers := [("A", "b")]%string;
     SharedHTTPConnection._fields := [("a", "1")]%string;
     SharedHTTPConnection._timeout := 3000;
     SharedHTTPConnection._id := 1 |}.

Definition example_registry (curl : LibCurl) : SharedHTTPConnection.globals :=
  match SharedHTTPConnection.new_ "https://h/o" http_post 1
          no_contexts with
  | Ret _ g => g
  | _ => no_contexts
  end.

Definition example_entry (curl : LibCurl) : SharedHTTPConnection.Context :=
  match SharedHTTPConnection.contexts (example_registry curl) !! 1%Z with
  | Some x => x
  | None => SharedHTTPConnection.Context_new (HTTPConnection.fresh http_get)
  end.

Definition example_conn (curl : LibCurl) : HTTPConnection.t :=
  match SharedHTTPConnection.conn (example_entry curl) with
  | Some c => c
  | None => HTTPConnection.fresh http_get
  end.

Definition example_frame (curl : LibCurl) : SharedHTTPConnection.frame :=
  {| SharedHTTPConnection.this := example_post;
     SharedHTTPConnection.statics := example_registry curl |}.

(** The example after one and after two calls of [execute], and what the
    calls returned. *)
Definition example_after (curl : LibCurl) : SharedHTTPConnection.frame :=
  match SharedHTTPConnection.execute true (example_frame curl) with
  | Ret _ fr => fr
  | Throw _ fr => fr
  | _ => example_frame curl
  end.

Definition example_after2 (curl : LibCurl) : SharedHTTPConnection.frame :=
  match SharedHTTPConnection.execute true (example_after curl) with
  | Ret _ fr => fr
  | Throw _ fr => fr
  | _ => example_after curl
  end.

Definition example_result (curl : LibCurl) (fr : SharedHTTPConnection.frame)
  : Z * string * string * Z :=
  match SharedHTTPConnection.execute true fr with
  | Ret r _ => r
  | _ => (0%Z, EmptyString, EmptyString, 0%Z)
  end.

(* ================================================================= *)
(** ** TLS setups over a sequence of URLs *)

(** The calls made so far on the handle of a connection. *)
Definition calls_on (c : HTTPConnection.t) : list curl_call :=
  match CurlConnectionImpl_._handle (HTTPConnection._pimpl c) with
  | Some h => h
  | None => []
  end.

(** How often TLS verification was set up on a connection: each setup,
    with or without a certificate bundle, sets [CURLOPT_SSL_VERIFYPEER]
    once. *)
Definition ssl_setups (c : HTTPConnection.t) : nat :=
  count_setopt CURLOPT_SSL_VERIFYPEER (calls_on c).

(** How often the certificate bundle was given to a connection: only the
    setup with a bundle sets [CURLOPT_CAINFO]. *)
Definition bundle_setups (c : HTTPConnection.t) : nat :=
  count_setopt CURLOPT_CAINFO (calls_on c).

(** A sequence of calls of [set_url]. *)
Fixpoint set_urls `{LibCurl} (bundle : string) (urls : list string)
  : M HTTPConnection.t unit :=
  match urls with
  | [] => ret tt
  | url :: rest => HTTPConnection.set_url bundle url ;; set_urls bundle rest
  end.

(** How often a sequence of URLs enters https, coming from the protocol
    [p]. *)
Fixpoint https_entries (p : HTTPConnection.Protocol) (urls : list string)
  : nat :=
  match urls with
  | [] => 0
  | url :: rest =>
      if starts_with "https://" url
      then (if decide (p = HTTPConnection.https) then 0 else 1)
           + https_entries HTTPConnection.https rest
      else https_entries HTTPConnection.http rest
  end.

(** A connection as [HTTPConnection(http_get)] makes it, with libcurl
    online, and what two sequences of [set_url] leave of it. *)
Definition example_http : HTTPConnection.t :=
  match HTTPConnection.new_ (curl := curl_online) (S := unit) http_get tt with
  | Ret c _ => c
  | _ => HTTPConnection.fresh http_get
  end.

Definition after_set_urls (urls : list string) : HTTPConnection.t :=
  match set_urls (H := curl_online) EmptyString urls example_http with
  | Ret _ c => c
  | Throw _ c => c
  | _ => example_http
  end.

(* ================================================================= *)
(** ** Reference counts and open front-ends *)

(** A computation in which no assertion fails, whatever the state. *)
Definition no_assert {S A} (m : M S A) : Prop := forall s, m s <> AssertFail.

(** An open front-end value has its entry in the registry. *)
Definition bound (x : SharedHTTPConnection.t)
  (g : SharedHTTPConnection.globals) : Prop :=
  SharedHTTPConnection._is_open x = true ->
  is_Some (SharedHTTPConnection.contexts g
           !! SharedHTTPConnection._id x).

(** The object of a member function is bound. *)
Definition this_bound (fr : SharedHTTPConnection.frame) : Prop :=
  bound (SharedHTTPConnection.this fr) (SharedHTTPConnection.statics fr).

(** Whether the value [x] counts for the id [j]: one when it is open and
    bound to [j]. *)
Definition counts_for (j : Z) (x : SharedHTTPConnection.t) : nat :=
  if bound_to j (Some x) then 1 else 0.

(** Every entry of the registry counts at least one reference, has a
    connection, and its mutex is free. *)
Definition entries_ok (g : SharedHTTPConnection.globals) : Prop :=
  forall id ctx,
    SharedHTTPConnection.contexts g !! id = Some ctx ->
    (0 < SharedHTTPConnection.nref ctx)%Z
    /\ is_Some (SharedHTTPConnection.conn ctx)
    /\ SharedHTTPConnection.mtx ctx = Some false.

(** The registry counts, for every id, the open objects bound to it. *)
Definition registry_ok (p : program) : Prop :=
  entries_ok (process p)
  /\ forall id,
       SharedHTTPConnection.nconnections id (process p)
       = Z.of_nat (open_count id (objects p)).

(** A member function whose effect on the counts is the change of what
    its object counts for, and in which no assertion fails, when called in
    a state in [P]. *)
Definition accounted {A} (P : SharedHTTPConnection.frame -> Prop)
  (m : M SharedHTTPConnection.frame A) : Prop :=
  forall fr,
    entries_ok (SharedHTTPConnection.statics fr) -> P fr ->
    match m fr with
    | Ret _ fr' | Throw _ fr' =>
        entries_ok (SharedHTTPConnection.statics fr')
        /\ forall j,
             (SharedHTTPConnection.nconnections j (SharedHTTPConnection.statics fr')
              + Z.of_nat (counts_for j (SharedHTTPConnection.this fr))
              = SharedHTTPConnection.nconnections j (SharedHTTPConnection.statics fr)
                + Z.of_nat (counts_for j (SharedHTTPConnection.this fr')))%Z
    | AssertFail => False
    | Undefined => True
    end.

(** A computation on the globals that changes the connection of the
    entry [id] and nothing else, and in which no assertion fails. *)
Definition conn_only {A} (id : Z) (body : M SharedHTTPConnection.globals A)
  : Prop :=
  forall X cs bundle c,
    SharedHTTPConnection.conn X = Some c ->
    match body {| SharedHTTPConnection.contexts := <[id := X]> cs;
                  SharedHTTPConnection.certificate_bundle_path := bundle |}
    with
    | Ret _ g' | Throw _ g' =>
        exists c',
          g' = {| SharedHTTPConnection.contexts :=
                    <[id := SharedHTTPConnection.with_conn (Some c') X]> cs;
                  SharedHTTPConnection.certificate_bundle_path := bundle |}
    | AssertFail => False
    | Undefined => True
    end.

(** Three front-ends on two ids: the third is assigned from the first, the
    first is closed. *)
Definition example_ops : list operation :=
  [op_new "https://h/o" http_get 1; op_copy 0; op_new "http://g" http_post 2;
   op_assign 2 0; op_close 0].

Definition example_program : program :=
  match run (curl := curl_online) example_ops (start EmptyString) with
  | Some p => p
  | None => start EmptyString
  end.

(* ================================================================= *)
(** ** Open and closed front-ends *)

(** Whether the address [a] holds an open front-end. *)
Definition is_open_at (a : nat) (p : program) : bool :=
  match objects p !! a with
  | Some (Some x) => SharedHTTPConnection._is_open x
  | _ => false
  end.

(** A member function that leaves a closed front-end closed. *)
Definition stays_closed {A} (m : M SharedHTTPConnection.frame A) : Prop :=
  forall fr,
    SharedHTTPConnection._is_open (SharedHTTPConnection.this fr) = false ->
    match m fr with
    | Ret _ fr' | Throw _ fr' =>
        SharedHTTPConnection._is_open (SharedHTTPConnection.this fr') = false
    | _ => True
    end.

(** [close] called [n] times in a row. *)
Fixpoint close_times (n : nat) : M SharedHTTPConnection.frame unit :=
  match n with
  | 0 => ret tt
  | S k => SharedHTTPConnection.close ;; close_times k
  end.

(** The second front-end of the example, open on id 1 with two references,
    and the program after the closed first one is assigned from it. *)
Definition example_open : SharedHTTPConnection.t :=
  match objects example_program !! 1 with
  | Some (Some x) => x
  | _ => example_post
  end.

Definition example_reopened : program :=
  match step (curl := curl_online) (op_assign 0 1) example_program with
  | Ret _ p => p
  | _ => example_program
  end.

(* ================================================================= *)
(** ** Keys and values that a fields string carries unchanged *)

(** A value without '&' and without NUL; a key has no '=' either. *)
Definition plain_value (v : string) : bool :=
  negb (contains "&" v) && negb (contains zero v).

Definition plain_key (k : string) : bool :=
  plain_value k && negb (contains "=" k).

Definition plain_field (f : string * string) : bool :=
  plain_key (fst f) && plain_value (snd f).

(* ================================================================= *)
(** ** Headers that the list of libcurl carries unchanged *)

(** A header without NUL whose name does not hold ": ". *)
Definition plain_header (h : string * string) : bool :=
  negb (contains zero (fst h)) && negb (contains zero (snd h))
  && bool_decide (find_str ": " (fst h) = None).

(** A header as [header_list_to_map] gives it back: the value with the
    space that follows the colon. *)
Definition with_space (h : string * string) : string * string :=
  (fst h, String " " (snd h)).

(* ================================================================= *)
(** ** Further vocabulary: examples, constructors, methods and defined behaviour *)

(** A connection as the constructor leaves it, on a libcurl that accepts
    every option. *)
Definition example_impl : CurlConnectionImpl_.t :=
  match CurlConnectionImpl_.init (curl := curl_online) CurlConnectionImpl_.fresh with
  | Ret _ c => c
  | _ => CurlConnectionImpl_.fresh
  end.

Definition example_headers : list (string * string) :=
  [("Accept", "application/json"); ("Authorization", "Bearer a:b: c")]%string.

Definition example_with_headers : CurlConnectionImpl_.t :=
  match CurlConnectionImpl_.ADD_headers (curl := curl_online) example_headers
          example_impl with
  | Ret _ c => c
  | _ => example_impl
  end.

Definition example_cut_header : list (string * string) :=
  [(String "X" (String zero "-Id"), "7")]%string.

Definition example_with_cut_header : CurlConnectionImpl_.t :=
  match CurlConnectionImpl_.ADD_headers (curl := curl_online) example_cut_header
          example_impl with
  | Ret _ c => c
  | _ => example_impl
  end.

Definition example_with_timeout (timeout : Z) : CurlConnectionImpl_.t :=
  match CurlConnectionImpl_.SET_timeout (curl := curl_online) timeout
          example_impl with
  | Ret _ c => c
  | _ => example_impl
  end.

(** The example connection, closed. *)
Definition example_closed : HTTPConnection.t :=
  match HTTPConnection.close example_http with
  | Ret _ c => c
  | _ => example_http
  end.

(** A computation on the globals that is the computation [body] on the
    connection of the entry [id], whatever the rest of the entry is. *)
Definition lifts {A} (id : Z) (gbody : M SharedHTTPConnection.globals A)
  (body : M HTTPConnection.t A) : Prop :=
  forall X cs bundle c,
    SharedHTTPConnection.conn X = Some c ->
    let entry c' :=
      {| SharedHTTPConnection.contexts :=
           <[id := SharedHTTPConnection.with_conn (Some c') X]> cs;
         SharedHTTPConnection.certificate_bundle_path := bundle |} in
    gbody {| SharedHTTPConnection.contexts := <[id := X]> cs;
             SharedHTTPConnection.certificate_bundle_path := bundle |}
    = match body c with
      | Ret a c' => Ret a (entry c')
      | Throw e c' => Throw e (entry c')
      | AssertFail => AssertFail
      | Undefined => Undefined
      end.

(** What the constructor does to the shared connection of an id in use. *)
Definition reconfigure {curl : LibCurl} (bundle url : string)
  (meth : HttpMethod) : M HTTPConnection.t unit :=
  bind (HTTPConnection.set_method meth)
    (fun _ => if decide (url = EmptyString) then ret tt
              else HTTPConnection.set_url bundle url).

(** The front-end that the constructor makes. *)
Definition front_end (url : string) (meth : HttpMethod) (id : Z)
  : SharedHTTPConnection.t :=
  {| SharedHTTPConnection._is_open := true;
     SharedHTTPConnection._url := url;
     SharedHTTPConnection._meth := meth;
     SharedHTTPConnection._headers := [];
     SharedHTTPConnection._fields := [];
     SharedHTTPConnection._timeout := 0;
     SharedHTTPConnection._id := id |}.

(** A second front-end for the id of the example, with a URL that is
    refused: what the shared connection is left as. *)
Definition example_refused_conn : HTTPConnection.t :=
  match reconfigure (curl := curl_online) EmptyString "ftp://x" http_delete
          (example_conn curl_online) with
  | Ret _ c | Throw _ c => c
  | _ => example_conn curl_online
  end.

(** The connection that the first front-end of an id makes. *)
Definition example_made_conn : HTTPConnection.t :=
  match HTTPConnection.new_url (curl := curl_online) (S := unit)
          EmptyString "https://h/o" http_put tt with
  | Ret c _ => c
  | _ => HTTPConnection.fresh http_put
  end.

(** The option that [_set_method] sets for a method, and its value as
    recorded. *)
Definition method_option (meth : HttpMethod) : option (CURLoption * string) :=
  match meth with
  | http_get => Some (CURLOPT_HTTPGET, "1"%string)
  | http_post => Some (CURLOPT_POST, "1"%string)
  | http_delete => Some (CURLOPT_CUSTOMREQUEST, "DELETE"%string)
  | http_put => Some (CURLOPT_CUSTOMREQUEST, "PUT"%string)
  | http_method_other _ => None
  end.

(** The custom request that a sequence of methods leaves: the one of its
    last DELETE or PUT, or the one there was. *)
Fixpoint last_custom (ms : list HttpMethod) (before : option string)
  : option string :=
  match ms with
  | [] => before
  | http_delete :: rest => last_custom rest (Some "DELETE"%string)
  | http_put :: rest => last_custom rest (Some "PUT"%string)
  | _ :: rest => last_custom rest before
  end.

(** A sequence of calls of [_set_method]. *)
Fixpoint set_methods {curl : LibCurl} (ms : list HttpMethod)
  : M HTTPConnection.t unit :=
  match ms with
  | [] => ret tt
  | meth :: rest => bind (HTTPConnection._set_method meth)
                      (fun _ => set_methods rest)
  end.

(** The example connection after DELETE and then GET. *)
Definition example_after_methods : HTTPConnection.t :=
  match set_methods (curl := curl_online) [http_delete; http_get]
          example_http with
  | Ret _ c => c
  | _ => example_http
  end.

(** The call of libcurl that [_set_method] makes for a method. *)
Definition method_call (meth : HttpMethod) : option curl_call :=
  match meth with
  | http_get => Some (call_setopt CURLOPT_HTTPGET (PLong 1))
  | http_post => Some (call_setopt CURLOPT_POST (PLong 1))
  | http_delete => Some (call_setopt CURLOPT_CUSTOMREQUEST (PString "DELETE"))
  | http_put => Some (call_setopt CURLOPT_CUSTOMREQUEST (PString "PUT"))
  | http_method_other _ => None
  end.

(** The calls on a new handle up to the URL. *)
Definition constructor_calls (mc : curl_call) : list curl_call :=
  [call_setopt CURLOPT_NOSIGNAL (PLong 1);
   call_setopt CURLOPT_ERRORBUFFER (PPointer ptr_error_buffer);
   mc;
   call_setopt CURLOPT_ACCEPT_ENCODING (PString "gzip");
   call_setopt CURLOPT_TCP_KEEPALIVE (PLong 1)].

(** The calls of [set_url] on a connection that is not on https. *)
Definition url_calls (bundle url : string) : list curl_call :=
  (if starts_with "https://" url
   then [call_setopt CURLOPT_SSL_VERIFYPEER (PLong 1);
         call_setopt CURLOPT_SSL_VERIFYHOST (PLong 2)]
        ++ (if decide (bundle = EmptyString) then []
            else [call_setopt CURLOPT_CAINFO (PString (c_str bundle))])
   else [])
  ++ [call_setopt CURLOPT_URL (PString (c_str url));
      call_setopt CURLOPT_SSL_OPTIONS (PLong CURLSSLOPT_NO_REVOKE)].

(** A call that keeps a connection open and that ends by returning or by
    throwing. *)
Definition keeps_open {S A} (closed : S -> bool) (m : M S A) : Prop :=
  forall s, closed s = false ->
    match m s with
    | Ret _ s' | Throw _ s' => closed s' = false
    | _ => False
    end.

(** The connections of the registry are open. *)
Definition handles_open (g : SharedHTTPConnection.globals) : Prop :=
  forall id ctx c,
    SharedHTTPConnection.contexts g !! id = Some ctx ->
    SharedHTTPConnection.conn ctx = Some c ->
    HTTPConnection.is_closed c = false.

(** The registry [g'] holds no connection that [g] does not hold under the
    same id. *)
Definition conns_within (g' g : SharedHTTPConnection.globals) : Prop :=
  forall id ctx',
    SharedHTTPConnection.contexts g' !! id = Some ctx' ->
    exists ctx, SharedHTTPConnection.contexts g !! id = Some ctx
                /\ SharedHTTPConnection.conn ctx' = SharedHTTPConnection.conn ctx.

(** The address [a] holds an object. *)
Definition holds_object (a : nat) (p : program) : Prop :=
  exists x, objects p !! a = Some (Some x).

(** The addresses that an operation uses hold objects. *)
Definition well_addressed (o : operation) (p : program) : Prop :=
  match o with
  | op_new _ _ _ => True
  | op_copy src => holds_object src p
  | op_assign dst src => holds_object dst p /\ holds_object src p
  | op_close a | op_destroy a | op_set_url a _ | op_set_method a _
  | op_add_headers a _ | op_set_fields a _ | op_set_timeout a _
  | op_execute a _ => holds_object a p
  end.

(** A member function that, on a registry with open connections, ends by
    returning, by throwing or on an assertion, and leaves the connections
    open. *)
Definition defined_member {A} (P : SharedHTTPConnection.frame -> Prop)
  (m : M SharedHTTPConnection.frame A) : Prop :=
  forall fr,
    entries_ok (SharedHTTPConnection.statics fr) ->
    handles_open (SharedHTTPConnection.statics fr) -> P fr ->
    match m fr with
    | Ret _ fr' | Throw _ fr' => handles_open (SharedHTTPConnection.statics fr')
    | AssertFail => True
    | Undefined => False
    end.

(* ================================================================= *)
(** * Properties *)

(* ================================================================= *)
(** ** Form fields: [pairs_to_fields_str] and [fields_str_to_map] *)

Section Fields.

Lemma append_cons x (a b : string) : String x a +:+ b = String x (a +:+ b).
Proof. reflexivity. Qed.

Lemma append_empty_l (b : string) : EmptyString +:+ b = b.
Proof. reflexivity. Qed.

Ltac str_simpl := rewrite ?append_cons, ?append_empty_l; simpl.

Lemma append_assoc (a b c : string) : (a +:+ b) +:+ c = a +:+ (b +:+ c).
Proof.
  induction a as [|x a IH]; str_simpl; [reflexivity|].
  rewrite IH. reflexivity.
Qed.

Lemma find_char_absent c s :
  contains c s = false -> find_char c s = (s, EmptyString).
Proof.
  induction s as [|a s IH]; simpl; [reflexivity|].
  intros H. apply orb_false_iff in H as [Ha Hs].
  rewrite Ha, (IH Hs). reflexivity.
Qed.

Lemma find_char_first c s1 s2 :
  contains c s1 = false ->
  find_char c (s1 +:+ String c s2) = (s1, String c s2).
Proof.
  induction s1 as [|a s1 IH]; str_simpl.
  - intros _. rewrite Ascii.eqb_refl. reflexivity.
  - intros H. apply orb_false_iff in H as [Ha Hs].
    rewrite Ha, (IH Hs). reflexivity.
Qed.

(** What [find_char] returns is a split of the string at the first [c]. *)
Lemma find_char_split c s :
  contains c (fst (find_char c s)) = false /\
  (snd (find_char c s) = EmptyString /\ s = fst (find_char c s) \/
   exists q', snd (find_char c s) = String c q' /\
              s = fst (find_char c s) +:+ String c q').
Proof.
  induction s as [|a s IH]; simpl.
  - split; [reflexivity|]. left. split; reflexivity.
  - destruct (Ascii.eqb a c) eqn:Hac.
    + apply Ascii.eqb_eq in Hac. subst a. simpl. split; [reflexivity|].
      right. exists s. split; reflexivity.
    + destruct (find_char c s) as [p q]. simpl in *. destruct IH as [Hp Hq].
      rewrite Hac, Hp. split; [reflexivity|].
      destruct Hq as [[-> ->]|(q' & -> & ->)].
      * left. split; reflexivity.
      * right. exists q'. split; reflexivity.
Qed.

(** One turn of the loop. *)
Lemma fields_loop_turn b res :
  fields_loop b res =
  match find_char "&" b with
  | (s, EmptyString) => emplace_segment s res
  | (s, String _ b') => fields_loop b' (emplace_segment s res)
  end.
Proof. funelim (fields_loop b res); rewrite Heq; reflexivity. Qed.

Lemma emplace_segment_app s res0 res :
  emplace_segment s (res0 ++ res) = res0 ++ emplace_segment s res.
Proof.
  unfold emplace_segment. destruct (decide (s = EmptyString)); [reflexivity|].
  destruct (find_char "=" s) as [k [|x v]]; [reflexivity|].
  rewrite app_assoc. reflexivity.
Qed.

(** The pairs found so far are a prefix of the result. *)
Lemma fields_loop_app b res :
  forall res0, fields_loop b (res0 ++ res) = res0 ++ fields_loop b res.
Proof.
  funelim (fields_loop b res); intros res0;
    rewrite (fields_loop_turn b (res0 ++ res)), Heq, emplace_segment_app.
  - reflexivity.
  - apply H.
Qed.

Lemma fields_loop_acc b res : fields_loop b res = res ++ fields_str_to_map b.
Proof.
  unfold fields_str_to_map. rewrite <- fields_loop_app, app_nil_r. reflexivity.
Qed.

(** A string without '&' is one segment. *)
Lemma fields_loop_last seg res :
  contains "&" seg = false -> fields_loop seg res = emplace_segment seg res.
Proof.
  intros H. rewrite fields_loop_turn, (find_char_absent _ _ H). reflexivity.
Qed.

(** The first segment, up to the first '&'. *)
Lemma fields_loop_segment seg rest res :
  contains "&" seg = false ->
  fields_loop (seg +:+ String "&" rest) res
  = fields_loop rest (emplace_segment seg res).
Proof.
  intros H. rewrite fields_loop_turn, (find_char_first _ _ _ H). reflexivity.
Qed.

(** The loop goes through what is before an '&', then through what is
    after it. *)
Lemma fields_loop_amp a res :
  forall b, fields_loop (a +:+ String "&" b) res
            = fields_loop b (fields_loop a res).
Proof.
  funelim (fields_loop a res); intros c;
    destruct (find_char_split "&" b) as [Hfree Hsplit];
    rewrite Heq in Hfree, Hsplit; simpl in Hfree, Hsplit.
  - destruct Hsplit as [[_ ->]|(q & Hq & _)]; [|discriminate].
    apply fields_loop_segment, Hfree.
  - destruct Hsplit as [[Hq _]|(q & Hq & ->)]; [discriminate|].
    injection Hq as -> ->.
    rewrite append_assoc, append_cons, fields_loop_segment by exact Hfree.
    apply H.
Qed.

Lemma fields_str_to_map_amp a b :
  fields_str_to_map (a +:+ String "&" b)
  = fields_str_to_map a ++ fields_str_to_map b.
Proof.
  unfold fields_str_to_map at 1. rewrite fields_loop_amp, fields_loop_acc.
  reflexivity.
Qed.

Lemma emplace_segment_no_eq seg res :
  contains "=" seg = false -> emplace_segment seg res = res.
Proof.
  intros H. unfold emplace_segment.
  destruct (decide (seg = EmptyString)); [reflexivity|].
  rewrite (find_char_absent _ _ H). reflexivity.
Qed.

Lemma emplace_segment_pair k v res :
  contains "=" k = false ->
  emplace_segment (k +:+ String "=" v) res = res ++ [(k, v)].
Proof.
  intros H. unfold emplace_segment.
  destruct (decide (k +:+ String "=" v = EmptyString)) as [E|_].
  - destruct k; discriminate E.
  - rewrite (find_char_first _ _ _ H). reflexivity.
Qed.

(** C9. Writing the pairs a=1, b=2 as a fields string and reading the
    string back gives the same pairs.  Reading a fields string goes
    segment by segment: what is left and right of an '&' is read
    independently and the results are concatenated; the empty segment
    between two consecutive '&' adds nothing; a segment without '=' adds
    nothing, within a string and on its own; a segment [k=v] adds the pair
    [(k, v)], split at its first '='. *)
Theorem fields_round_trip_and_segments :
  fields_str_to_map (pairs_to_fields_str [("a", "1"); ("b", "2")]%string)
  = [("a", "1"); ("b", "2")]%string
  /\ (forall s1 s2,
        fields_str_to_map (s1 +:+ "&" +:+ s2)
        = fields_str_to_map s1 ++ fields_str_to_map s2)
  /\ (forall s1 s2,
        fields_str_to_map (s1 +:+ "&&" +:+ s2)
        = fields_str_to_map (s1 +:+ "&" +:+ s2))
  /\ (forall s1 seg s2,
        contains "&" seg = false -> contains "=" seg = false ->
        fields_str_to_map (s1 +:+ "&" +:+ seg +:+ "&" +:+ s2)
        = fields_str_to_map (s1 +:+ "&" +:+ s2))
  /\ (forall seg,
        contains "&" seg = false -> contains "=" seg = false ->
        fields_str_to_map seg = [])
  /\ (forall k v,
        contains "&" k = false -> contains "=" k = false ->
        contains "&" v = false ->
        fields_str_to_map (k +:+ "=" +:+ v) = [(k, v)]).
Proof.
  assert (Hseg : forall seg, contains "&" seg = false ->
                 contains "=" seg = false -> fields_str_to_map seg = []).
  { intros seg Hamp Heq. unfold fields_str_to_map.
    rewrite fields_loop_last, emplace_segment_no_eq by assumption.
    reflexivity. }
  split; [reflexivity|].
  split; [intros s1 s2; apply fields_str_to_map_amp|].
  split; [|split; [|split; [exact Hseg|]]].
  - intros s1 s2.
    change (s1 +:+ "&&" +:+ s2)
      with (s1 +:+ String "&" (EmptyString +:+ String "&" s2)).
    change (s1 +:+ "&" +:+ s2) with (s1 +:+ String "&" s2).
    rewrite !fields_str_to_map_amp. reflexivity.
  - intros s1 seg s2 Hamp Heq.
    change (s1 +:+ "&" +:+ seg +:+ "&" +:+ s2)
      with (s1 +:+ String "&" (seg +:+ String "&" s2)).
    change (s1 +:+ "&" +:+ s2) with (s1 +:+ String "&" s2).
    rewrite !fields_str_to_map_amp, (Hseg seg Hamp Heq). reflexivity.
  - intros k v Hk Hkeq Hv. unfold fields_str_to_map.
    rewrite fields_loop_last.
    + apply (emplace_segment_pair k v [] Hkeq).
    + clear Hkeq. induction k as [|x k IH]; simpl in *.
      * exact Hv.
      * rewrite append_cons. simpl. apply orb_false_iff in Hk as [-> Hk].
        apply IH, Hk.
Qed.

(** The segment "junk" of "x=1&junk&y=2" is dropped. *)
Lemma fields_round_trip_and_segments_witness :
  contains "&" "junk" = false /\ contains "=" "junk" = false /\
  fields_str_to_map "x=1&junk&y=2" = fields_str_to_map "x=1&y=2".
Proof.
  split; [reflexivity|]. split; [reflexivity|].
  exact (proj1 (proj2 (proj2 (proj2 fields_round_trip_and_segments)))
           "x=1"%string "junk"%string "y=2"%string eq_refl eq_refl).
Defined.

End Fields.

(* ================================================================= *)
(** ** The scheme of a URL *)

Section Scheme.
Context {curl : LibCurl}.

Lemma prefix_cons a p b s :
  String.prefix (String a p) (String b s) = Ascii.eqb b a && String.prefix p s.
Proof.
  simpl. destruct (ascii_dec a b) as [->|Hne].
  - rewrite Ascii.eqb_refl. reflexivity.
  - destruct (Ascii.eqb_spec b a); [congruence|reflexivity].
Qed.

Lemma prefix_empty_r a p : String.prefix (String a p) EmptyString = false.
Proof. reflexivity. Qed.

Lemma prefix_empty_l s : String.prefix EmptyString s = true.
Proof. destruct s; reflexivity. Qed.

(** [PROTO_RX], searched at the start of a string, finds exactly the two
    prefixes. *)
Lemma PROTO_RX_prefix url :
  regex_search_continuous url PROTO_RX
  = starts_with "http://" url || starts_with "https://" url.
Proof.
  unfold regex_search_continuous, starts_with, PROTO_RX.
  destruct url as [|a1 [|a2 [|a3 [|a4 [|a5 [|a6 [|a7 [|a8 rest]]]]]]]];
    rewrite ?prefix_cons, ?prefix_empty_r, ?prefix_empty_l;
    cbn [regex_match regex_of_chars existsb]; try reflexivity;
    repeat match goal with
      | |- context [Ascii.eqb ?a ?c] =>
          destruct (Ascii.eqb a c); cbn [andb orb]; try reflexivity
      end.
Qed.

(** The prefixes are compared character by character: another case of a
    letter is another character. *)
Lemma scheme_case_sensitive :
  regex_search_continuous "HTTP://host" PROTO_RX = false
  /\ regex_search_continuous "Https://host" PROTO_RX = false
  /\ regex_search_continuous "http://host" PROTO_RX = true
  /\ regex_search_continuous "https://host" PROTO_RX = true.
Proof. repeat split; reflexivity. Qed.

(** C5. [SharedHTTPConnection::set_url] throws the invalid-protocol
    [CurlException] exactly when the URL starts with neither "http://" nor
    "https://", leaving the front-end and the globals as they were;
    otherwise it returns with the URL stored in the front-end and the
    globals, the registry among them, untouched.  [HTTPConnection::set_url]
    throws the same exception for such a URL before it does anything;
    "ftp://host" is refused by both, and so is a prefix in another case of
    letters. *)
Theorem set_url_checks_scheme (url : string)
  (fr : SharedHTTPConnection.frame) (bundle : string) (c : HTTPConnection.t) :
  SharedHTTPConnection.set_url url fr
  = (if starts_with "http://" url || starts_with "https://" url
     then Ret tt {| SharedHTTPConnection.this :=
                      SharedHTTPConnection.with_url url
                        (SharedHTTPConnection.this fr);
                    SharedHTTPConnection.statics :=
                      SharedHTTPConnection.statics fr |}
     else Throw (CurlException ("invalid protocol in url: " +:+ url)) fr)
  /\ (starts_with "http://" url || starts_with "https://" url = true
      \/ HTTPConnection.set_url bundle url c
         = Throw (CurlException ("invalid protocol in url: " +:+ url)) c)
  /\ SharedHTTPConnection.set_url "ftp://host" fr
     = Throw (CurlException "invalid protocol in url: ftp://host") fr
  /\ HTTPConnection.set_url bundle "ftp://host" c
     = Throw (CurlException "invalid protocol in url: ftp://host") c
  /\ SharedHTTPConnection.set_url "HTTP://host" fr
     = Throw (CurlException "invalid protocol in url: HTTP://host") fr.
Proof.
  split; [|split; [|split; [reflexivity|split; reflexivity]]].
  - unfold SharedHTTPConnection.set_url. rewrite PROTO_RX_prefix.
    destruct (starts_with "http://" url || starts_with "https://" url);
      reflexivity.
  - destruct (starts_with "http://" url) eqn:E1; [left; reflexivity|].
    destruct (starts_with "https://" url) eqn:E2; [left; reflexivity|].
    right. unfold HTTPConnection.set_url, bind. rewrite E1, E2. reflexivity.
Qed.

End Scheme.

(* ================================================================= *)
(** ** The registry: [incr_ref], [decr_ref], [nconnections] *)

Ltac unfold_cpp :=
  unfold bind, get, modify, ret, throw, undefined, assert_, zoom,
    lock_guard, constructor in *.

Section Registry.
Context {curl : LibCurl}.

Import SharedHTTPConnection.

Lemma incr_ref_returns id g ctx :
  contexts g !! id = Some ctx -> is_Some (conn ctx) -> nref ctx <> INT_MAX ->
  incr_ref id g
  = Ret tt (with_contexts (<[id := with_nref (nref ctx + 1) ctx]> (contexts g)) g).
Proof.
  intros Hctx Hconn Hmax. unfold incr_ref. unfold_cpp. rewrite Hctx.
  rewrite bool_decide_eq_true_2 by exact Hconn.
  destruct (decide (nref ctx = INT_MAX)); [contradiction|reflexivity].
Qed.

Lemma decr_ref_returns id g ctx :
  contexts g !! id = Some ctx -> is_Some (conn ctx) -> (1 <= nref ctx)%Z ->
  decr_ref id g
  = Ret tt (with_contexts
              (if decide (nref ctx = 1%Z) then delete id (contexts g)
               else <[id := with_nref (nref ctx - 1) ctx]> (contexts g)) g).
Proof.
  intros Hctx Hconn Hpos. unfold decr_ref. unfold_cpp. rewrite Hctx.
  rewrite bool_decide_eq_true_2 by exact Hconn.
  destruct (decide (nref ctx = INT_MIN)) as [E|_];
    [unfold INT_MIN in E; lia|].
  rewrite bool_decide_eq_true_2 by lia.
  destruct (decide (nref ctx - 1 = 0)%Z), (decide (nref ctx = 1%Z)); try lia.
  - simpl. rewrite delete_insert_eq. reflexivity.
  - reflexivity.
Qed.

(** What a call of [incr_ref] that comes back has done; it throws
    nothing. *)
Lemma incr_ref_inv id g :
  match incr_ref id g with
  | Ret _ g' =>
      exists ctx, contexts g !! id = Some ctx /\ is_Some (conn ctx) /\
        g' = with_contexts (<[id := with_nref (nref ctx + 1) ctx]> (contexts g)) g
  | Throw _ _ => False
  | _ => True
  end.
Proof.
  unfold incr_ref. unfold_cpp. destruct (contexts g !! id) as [ctx|]; [|exact I].
  case_bool_decide; [|exact I].
  destruct (decide (nref ctx = INT_MAX)); [exact I|].
  exists ctx. auto.
Qed.

Lemma decr_ref_inv id g :
  match decr_ref id g with
  | Ret _ g' =>
      exists ctx, contexts g !! id = Some ctx /\ is_Some (conn ctx) /\
        (1 <= nref ctx)%Z /\
        g' = with_contexts
               (if decide (nref ctx = 1%Z) then delete id (contexts g)
                else <[id := with_nref (nref ctx - 1) ctx]> (contexts g)) g
  | Throw _ _ => False
  | _ => True
  end.
Proof.
  destruct (decr_ref id g) as [[] g'|e g'| |] eqn:E; try exact I;
    pose proof E as E0; unfold decr_ref in E; unfold_cpp;
    destruct (contexts g !! id) as [ctx|] eqn:Hctx; try discriminate;
    case_bool_decide; try discriminate;
    destruct (decide (nref ctx = INT_MIN)); try discriminate;
    case_bool_decide; try discriminate.
  - exists ctx. split; [reflexivity|]. split; [assumption|].
    split; [lia|].
    rewrite (decr_ref_returns id g ctx) in E0; [|assumption..|lia].
    injection E0 as <-. reflexivity.
  - destruct (decide (nref ctx - 1 = 0)%Z); discriminate.
Qed.

(** C6. [decr_ref] for an id that has no entry in [contexts], or whose
    entry has no reference left to give up, fails an assertion: it neither
    returns nor throws. *)
Theorem decr_ref_contract (id : Z) (g : globals) :
  (contexts g !! id = None
   \/ exists ctx, contexts g !! id = Some ctx /\
                  (INT_MIN < nref ctx <= 0)%Z) ->
  decr_ref id g = AssertFail.
Proof.
  intros [Hnone|(ctx & Hctx & Hlo & Hhi)]; unfold decr_ref; unfold_cpp.
  - rewrite Hnone. reflexivity.
  - rewrite Hctx. case_bool_decide; [|reflexivity].
    destruct (decide (nref ctx = INT_MIN)); [lia|].
    rewrite bool_decide_eq_false_2 by lia. reflexivity.
Qed.

End Registry.

(** [decr_ref(5)] on the empty registry, and on an entry at zero. *)
Lemma decr_ref_contract_witness :
  SharedHTTPConnection.contexts no_contexts !! 5%Z = None
  /\ SharedHTTPConnection.decr_ref 5 no_contexts = AssertFail
  /\ SharedHTTPConnection.decr_ref 5 stale_context = AssertFail.
Proof.
  split; [reflexivity|]. split.
  - apply decr_ref_contract. left. reflexivity.
  - apply decr_ref_contract. right.
    exists (SharedHTTPConnection.Context_new (HTTPConnection.fresh http_get)).
    split; [reflexivity|]. unfold INT_MIN. simpl. lia.
Defined.

(* ================================================================= *)
(** ** Copy assignment and [close] *)

Section Assignment.
Context {curl : LibCurl}.

Import SharedHTTPConnection.

(** [operator==] compares all the members. *)
Lemma eq_true_iff (a b : t) : eq a b = true <-> a = b.
Proof.
  unfold eq. destruct a, b; simpl.
  rewrite !andb_true_iff, !bool_decide_eq_true. split.
  - intros [[[[[[-> ->] ->] ->] ->] ->] ->]. reflexivity.
  - intros H. injection H as -> -> -> -> -> -> ->. repeat split.
Qed.

Lemma assign_equal (self connection : t) (g : globals) :
  eq self connection = true ->
  assign connection {| this := self; statics := g |}
  = Ret tt {| this := self; statics := g |}.
Proof.
  intros E. unfold assign, neq. unfold_cpp. simpl. rewrite E. reflexivity.
Qed.

Lemma assign_opens (self connection : t) (g : globals) (ctx : Context) :
  eq self connection = false ->
  _is_open self = false -> _is_open connection = true ->
  contexts g !! _id connection = Some ctx -> is_Some (conn ctx) ->
  nref ctx <> INT_MAX ->
  assign connection {| this := self; statics := g |}
  = Ret tt {| this := connection;
              statics := with_contexts
                (<[_id connection := with_nref (nref ctx + 1) ctx]> (contexts g)) g |}.
Proof.
  intros E Hs Hc Hctx Hconn Hmax. unfold assign, neq, static, modify_this.
  unfold_cpp. simpl. rewrite E, Hs, Hc. simpl.
  rewrite (incr_ref_returns _ _ _ Hctx Hconn Hmax). reflexivity.
Qed.

Lemma assign_closes (self connection : t) (g : globals) (ctx : Context) :
  eq self connection = false ->
  _is_open self = true -> _is_open connection = false ->
  contexts g !! _id self = Some ctx -> is_Some (conn ctx) ->
  (1 <= nref ctx)%Z ->
  assign connection {| this := self; statics := g |}
  = Ret tt {| this := connection;
              statics := with_contexts
                (if decide (nref ctx = 1%Z) then delete (_id self) (contexts g)
                 else <[_id self := with_nref (nref ctx - 1) ctx]> (contexts g))
                g |}.
Proof.
  intros E Hs Hc Hctx Hconn Hpos. unfold assign, neq, static, modify_this.
  unfold_cpp. simpl. rewrite E, Hs, Hc. simpl.
  rewrite (decr_ref_returns _ _ _ Hctx Hconn Hpos). reflexivity.
Qed.

Lemma assign_same_id (self connection : t) (g : globals) :
  eq self connection = false ->
  _is_open self = true -> _is_open connection = true ->
  _id self = _id connection ->
  assign connection {| this := self; statics := g |}
  = Ret tt {| this := connection; statics := g |}.
Proof.
  intros E Hs Hc Hid. unfold assign, neq, static, modify_this.
  unfold_cpp. simpl. rewrite E, Hs, Hc, Hid. simpl.
  rewrite bool_decide_eq_true_2 by reflexivity. simpl.
  destruct g; reflexivity.
Qed.

Lemma assign_both_closed (self connection : t) (g : globals) :
  eq self connection = false ->
  _is_open self = false -> _is_open connection = false ->
  assign connection {| this := self; statics := g |}
  = Ret tt {| this := connection; statics := g |}.
Proof.
  intros E Hs Hc. unfold assign, neq, static, modify_this.
  unfold_cpp. simpl. rewrite E, Hs, Hc. simpl.
  rewrite andb_false_r. destruct g; reflexivity.
Qed.

(** C10. Copy assignment [self = connection].  When the two values differ
    in some member: a closed target assigned from an open source adds one
    reference to the source's id; an open target assigned from a closed
    source gives up one reference of the target's id, and the entry is
    erased when that was the last; two open values of the same id leave
    the registry alone; in each case the target ends with the members of
    the source.  When the two values are equal in every member the
    assignment changes neither the target nor the registry. *)
Theorem assign_cases (self connection : t) (g : globals) :
  (forall ctx,
     eq self connection = false ->
     _is_open self = false -> _is_open connection = true ->
     contexts g !! _id connection = Some ctx -> is_Some (conn ctx) ->
     nref ctx <> INT_MAX ->
     assign connection {| this := self; statics := g |}
     = Ret tt {| this := connection;
                 statics := with_contexts
                   (<[_id connection := with_nref (nref ctx + 1) ctx]>
                      (contexts g)) g |})
  /\ (forall ctx,
        eq self connection = false ->
        _is_open self = true -> _is_open connection = false ->
        contexts g !! _id self = Some ctx -> is_Some (conn ctx) ->
        (1 <= nref ctx)%Z ->
        assign connection {| this := self; statics := g |}
        = Ret tt {| this := connection;
                    statics := with_contexts
                      (if decide (nref ctx = 1%Z)
                       then delete (_id self) (contexts g)
                       else <[_id self := with_nref (nref ctx - 1) ctx]>
                              (contexts g)) g |})
  /\ (eq self connection = false ->
      _is_open self = true -> _is_open connection = true ->
      _id self = _id connection ->
      assign connection {| this := self; statics := g |}
      = Ret tt {| this := connection; statics := g |})
  /\ (eq self connection = true ->
      assign connection {| this := self; statics := g |}
      = Ret tt {| this := self; statics := g |})
  /\ (eq self connection = true <-> self = connection).
Proof.
  split; [intros ctx; apply assign_opens|].
  split; [intros ctx; apply assign_closes|].
  split; [apply assign_same_id|].
  split; [apply assign_equal|apply eq_true_iff].
Qed.

End Assignment.

(* ================================================================= *)
(** ** What [execute] does to the shared connection *)

Section Execute.
Context {curl : LibCurl}.

Import SharedHTTPConnection.

(** A call through [conn] changes the connection of the entry and nothing
    else. *)
Lemma static_on_conn {A} id (m : M HTTPConnection.t A) x cs bundle X c :
  conn X = Some c ->
  static (on_conn id m)
    {| this := x;
       statics := {| contexts := <[id := X]> cs;
                     certificate_bundle_path := bundle |} |}
  = match m c with
    | Ret a c' =>
        Ret a {| this := x;
                 statics := {| contexts := <[id := with_conn (Some c') X]> cs;
                               certificate_bundle_path := bundle |} |}
    | Throw e c' =>
        Throw e {| this := x;
                   statics := {| contexts := <[id := with_conn (Some c') X]> cs;
                                 certificate_bundle_path := bundle |} |}
    | AssertFail => AssertFail
    | Undefined => Undefined
    end.
Proof.
  intros Hc. unfold static, on_conn. unfold_cpp. simpl.
  rewrite lookup_insert_eq. simpl. rewrite Hc.
  destruct (m c); try reflexivity; unfold with_contexts, with_statics; simpl;
    rewrite alter_insert_eq; reflexivity.
Qed.

Ltac exec_step Hfin Htwice Hc0 :=
  match goal with
  | |- context [SharedHTTPConnection.static (SharedHTTPConnection.on_conn _ ?m)
                  {| SharedHTTPConnection.this := _;
                     SharedHTTPConnection.statics := _ |}] =>
      erewrite (static_on_conn _ m) by first [exact Hc0 | reflexivity];
      match goal with
      | |- context [m ?c] => destruct (m c) as [? ?|? ?| |]
      end;
      cbv beta iota; rewrite ?Htwice;
      [|cbn [SharedHTTPConnection.statics]; rewrite Hfin; reflexivity
       |reflexivity..]
  end.

(** [execute] on an open front-end whose entry is in the registry, with a
    connection and a free mutex: the mutex is taken, the parameters are
    pushed and the request performed on the connection of the entry, and
    the mutex is released on the way out, whether the calls return or
    throw.  The pending fields are cleared once the parameters are
    pushed. *)
Lemma execute_open rhd self g ctx c0 :
  _is_open self = true ->
  contexts g !! _id self = Some ctx -> conn ctx = Some c0 ->
  mtx ctx = Some false ->
  execute rhd {| this := self; statics := g |}
  = match push_parameters (certificate_bundle_path g) self c0 with
    | Ret _ c1 =>
        match perform_request rhd self c1 with
        | Ret r c2 =>
            Ret r {| this := with_fields [] self;
                     statics := entry_with (_id self) (with_conn (Some c2) ctx) g |}
        | Throw e c2 =>
            Throw e {| this := with_fields [] self;
                       statics := entry_with (_id self) (with_conn (Some c2) ctx) g |}
        | AssertFail => AssertFail
        | Undefined => Undefined
        end
    | Throw e c1 =>
        Throw e {| this := self;
                   statics := entry_with (_id self) (with_conn (Some c1) ctx) g |}
    | AssertFail => AssertFail
    | Undefined => Undefined
    end.
Proof.
  intros Hopen Hctx Hconn Hmtx.
  unfold execute, is_closed, _get_context.
  unfold bind at 1. unfold get at 1. cbn [this statics]. rewrite Hopen. cbn [negb].
  unfold bind at 1. unfold bind at 1. unfold get at 1. cbn [this statics].
  rewrite Hctx. unfold ret at 1.
  unfold bind at 1. unfold assert_ at 1. rewrite Hconn.
  rewrite bool_decide_eq_true_2 by eauto.
  unfold bind at 1. unfold assert_ at 1. rewrite Hmtx.
  rewrite bool_decide_eq_true_2 by eauto.
  unfold lock_guard.
  assert (Hlock :
    static (mutex_lock (_id self)) {| this := self; statics := g |}
    = Ret tt {| this := self;
                statics := {| contexts := <[_id self := with_mtx (Some true) ctx]>
                                            (contexts g);
                              certificate_bundle_path := certificate_bundle_path g |} |}).
  { unfold static, mutex_lock. unfold_cpp. simpl. rewrite Hctx, Hmtx. reflexivity. }
  rewrite Hlock. clear Hlock.
  unfold push_parameters, perform_request.
  assert (Hfin : forall x c,
    with_statics
      (mutex_unlock (_id self)
         {| contexts := <[_id self := with_conn (Some c) (with_mtx (Some true) ctx)]>
                          (contexts g);
            certificate_bundle_path := certificate_bundle_path g |})
      {| this := x;
         statics := {| contexts := <[_id self := with_conn (Some c) (with_mtx (Some true) ctx)]>
                                     (contexts g);
                       certificate_bundle_path := certificate_bundle_path g |} |}
    = {| this := x; statics := entry_with (_id self) (with_conn (Some c) ctx) g |}).
  { intros x c. unfold with_statics, mutex_unlock, entry_with, with_contexts.
    cbn [this statics contexts certificate_bundle_path].
    rewrite alter_insert_eq. unfold with_mtx, with_conn. cbn [conn mtx nref].
    rewrite Hmtx. reflexivity. }
  assert (Htwice : forall a b x, with_conn a (with_conn b x) = with_conn a x)
    by reflexivity.
  assert (Hc0 : conn (with_mtx (Some true) ctx) = Some c0) by exact Hconn.
  unfold bind.
  exec_step Hfin Htwice Hc0.
  exec_step Hfin Htwice Hc0.
  destruct (negb (bool_decide (_headers self = [])));
    [exec_step Hfin Htwice Hc0|cbv beta iota delta [ret]];
    (exec_step Hfin Htwice Hc0;
     destruct (negb (bool_decide (_meth self = http_get))
               && negb (bool_decide (_fields self = [])));
     [exec_step Hfin Htwice Hc0|cbv beta iota delta [ret]];
     cbv beta iota delta [modify_this modify with_this]; cbn [this statics];
     exec_step Hfin Htwice Hc0;
     erewrite static_on_conn by reflexivity;
     match goal with
     | |- context [HTTPConnection.execute rhd ?c] =>
         destruct (HTTPConnection.execute rhd c) as [? ?|? ?| |]
     end;
     cbv beta iota; rewrite ?Htwice; try reflexivity;
     cbn [statics]; rewrite Hfin; reflexivity).
Qed.

(** A closed front-end is refused before anything is looked up. *)
Lemma execute_closed rhd fr :
  _is_open (this fr) = false ->
  execute rhd fr = Throw (CurlException "connection has been closed") fr.
Proof.
  intros Hc. unfold execute, is_closed. unfold_cpp. rewrite Hc. reflexivity.
Qed.

(** While another holder has the mutex of the entry the call does not
    come back. *)
Lemma execute_blocked rhd self g ctx :
  _is_open self = true ->
  contexts g !! _id self = Some ctx -> is_Some (conn ctx) ->
  mtx ctx = Some true ->
  execute rhd {| this := self; statics := g |} = Undefined.
Proof.
  intros Hopen Hctx Hconn Hmtx.
  unfold execute, is_closed, _get_context, static, mutex_lock. unfold_cpp.
  cbn [this statics]. rewrite Hopen. cbn [negb this statics].
  rewrite Hctx. rewrite bool_decide_eq_true_2 by exact Hconn.
  rewrite Hmtx. rewrite bool_decide_eq_true_2 by eauto.
  cbn [this statics]. rewrite ?Hctx, ?Hmtx. reflexivity.
Qed.

End Execute.

(* ================================================================= *)
(** ** A small program logic for calls *)

Section Logic.
Context {curl : LibCurl}.

Lemma triple_bind {S A B} (P : S -> Prop) (m : M S A) (k : A -> M S B)
  (Q : A -> S -> Prop) (R : B -> S -> Prop) (E : exn -> S -> Prop) :
  triple P m Q E -> (forall a, triple (Q a) (k a) R E) ->
  triple P (bind m k) R E.
Proof.
  intros Hm Hk s Hs. unfold bind. specialize (Hm s Hs).
  destruct (m s) as [a s'|e s'| |]; try exact Hm.
  apply (Hk a s' Hm).
Qed.

Lemma triple_weaken {S A} (P P' : S -> Prop) (m : M S A)
  (Q Q' : A -> S -> Prop) (E E' : exn -> S -> Prop) :
  triple P m Q E -> (forall s, P' s -> P s) ->
  (forall a s, Q a s -> Q' a s) -> (forall e s, E e s -> E' e s) ->
  triple P' m Q' E'.
Proof.
  intros Hm HP HQ HE s Hs. specialize (Hm s (HP s Hs)).
  destruct (m s); auto.
Qed.

Section View.
Context {S : Type} (view : S -> CurlConnectionImpl_.t).

Lemma spec_bind {A B} F P Q R (m : M S A) (k : A -> M S B) :
  spec view F P Q m -> (forall a, spec view F Q R (k a)) ->
  spec view F P R (bind m k).
Proof. intros Hm Hk. eapply triple_bind; [exact Hm|exact Hk]. Qed.

Lemma spec_ret {A} F P (a : A) : spec view F P P (ret a).
Proof. intros c Hc. exact Hc. Qed.

Lemma spec_get {A} F P Q (k : S -> M S A) :
  (forall s, spec view F P Q (k s)) -> spec view F P Q (bind get k).
Proof. intros Hk s Hs. exact (Hk s s Hs). Qed.

Lemma spec_throw {A} F P Q e :
  ~ is_connection_error e -> spec view F P Q (throw (A := A) e).
Proof. intros He s [HF _]. split; assumption. Qed.

Lemma spec_weaken {A} F P P' Q Q' (m : M S A) :
  spec view F P Q m -> (forall o l, P' o l -> P o l) ->
  (forall o l, Q o l -> Q' o l) -> spec view F P' Q' m.
Proof.
  intros Hm HP HQ. eapply triple_weaken; [exact Hm|..].
  - intros c [HF Hp]. split; [exact HF|apply HP, Hp].
  - intros _ c [HF Hq]. split; [exact HF|apply HQ, Hq].
  - auto.
Qed.

(** What holds before can be carried along in the frame. *)
Lemma spec_frame {A} F G P Q (m : M S A) :
  spec view (both F G) P Q m -> spec view F (both G P) (both G Q) m.
Proof.
  intros Hm c [HF [HG HP]]. specialize (Hm c (conj (conj HF HG) HP)).
  destruct (m c) as [a c'|e c'| |]; try exact I.
  - destruct Hm as [[HF' HG'] HQ]. repeat split; assumption.
  - destruct Hm as [He [HF' _]]. split; assumption.
Qed.

Lemma spec_keeps {A} F P Q (m : M S A) :
  spec view F P Q m -> (forall o l, F o l -> P o l) -> keeps view F m.
Proof.
  intros Hm HP c Hc. specialize (Hm c (conj Hc (HP _ _ Hc))).
  destruct (m c) as [a c'|e c'| |]; try exact I; apply Hm.
Qed.

Lemma keeps_bind {A B} F (m : M S A) (k : A -> M S B) :
  keeps view F m -> (forall a, keeps view F (k a)) -> keeps view F (bind m k).
Proof. intros Hm Hk. eapply triple_bind; [exact Hm|exact Hk]. Qed.

Lemma keeps_ret {A} F (a : A) : keeps view F (ret a).
Proof. intros c Hc. exact Hc. Qed.

Lemma keeps_throw {A} F e : keeps view F (throw (A := A) e).
Proof. intros c Hc. exact Hc. Qed.

End View.

Lemma ignores_both o I J : ignores o I -> ignores o J -> ignores o (both I J).
Proof. intros HI HJ opts opts' l H [Hi Hj]. split; eauto. Qed.

Lemma ignores_opt_is o o' v : o' <> o -> ignores o (opt_is o' v).
Proof. intros Hne opts opts' l H Hv. unfold opt_is in *. rewrite H; auto. Qed.

Lemma ignores_header_is o l : ignores o (header_is l).
Proof. intros opts opts' l' _ H. exact H. Qed.

Lemma ignores_top o : ignores o top.
Proof. intros opts opts' l _ _. exact I. Qed.

Lemma ignores_header_both I J :
  ignores_header I -> ignores_header J -> ignores_header (both I J).
Proof. intros HI HJ opts l l' [Hi Hj]. split; eauto. Qed.

Lemma ignores_header_opt_is o v : ignores_header (opt_is o v).
Proof. intros opts l l' H. exact H. Qed.

Lemma ignores_header_top : ignores_header top.
Proof. intros opts l l' _. exact I. Qed.

Lemma ignores_all_both os I J :
  ignores_all os I -> ignores_all os J -> ignores_all os (both I J).
Proof. intros HI HJ o Ho. apply ignores_both; auto. Qed.

Lemma ignores_all_cons o os I :
  ignores_all (o :: os) I <-> ignores o I /\ ignores_all os I.
Proof.
  split.
  - intros H. split; [apply H; left; reflexivity|].
    intros o' Ho'. apply H. right. exact Ho'.
  - intros [Ho Hos] o' [<-|Ho']; auto.
Qed.

Lemma ignores_all_nil I : ignores_all [] I.
Proof. intros o []. Qed.

Lemma set_option_spec F P o p :
  ignores o F -> ignores o P ->
  spec id F P (both P (opt_is o (Some (CurlConnectionImpl_.to_str p))))
    (CurlConnectionImpl_.set_option o p).
Proof.
  intros HF HP c [Hf Hp]. unfold CurlConnectionImpl_.set_option.
  destruct (CurlConnectionImpl_._handle c) as [h|] eqn:Hh.
  - destruct (curl_easy_setopt h o p).
    + unfold holds, both, id in *. simpl.
      assert (Hother : forall o', o' <> o ->
                <[o:=CurlConnectionImpl_.to_str p]> (CurlConnectionImpl_._options c) !! o'
                = CurlConnectionImpl_._options c !! o').
      { intros o' Hne. apply lookup_insert_ne. congruence. }
      repeat split; eauto.
      unfold opt_is. apply lookup_insert_eq.
    + split; [intros []|exact Hf].
  - split; [intros []|exact Hf].
Qed.

(** The same, when what the option was set to is of no interest. *)
Lemma set_option_spec_ F P o p :
  ignores o F -> ignores o P ->
  spec id F P P (CurlConnectionImpl_.set_option o p).
Proof.
  intros HF HP. eapply spec_weaken; [apply (set_option_spec F P o p HF HP)|..].
  - auto.
  - intros opts l [Hp _]. exact Hp.
Qed.

End Logic.

Ltac ign :=
  repeat first
    [ assumption
    | apply ignores_both
    | apply ignores_header_is
    | apply ignores_top
    | apply ignores_opt_is; discriminate
    | apply ignores_header_both
    | apply ignores_header_opt_is
    | apply ignores_header_top
    | match goal with
      | H : ignores_all ?os ?I |- ignores ?o ?I => apply H; simpl; tauto
      end ].

Ltac ign_all :=
  let o := fresh "o" in
  let Ho := fresh "Ho" in
  intros o Ho; simpl in Ho;
  repeat (destruct Ho as [<-|Ho]; [ign|]); try contradiction.

Section ImplSpecs.
Context {curl : LibCurl}.
Import CurlConnectionImpl_.

Lemma SET_url_spec F P url :
  ignores_all [CURLOPT_URL; CURLOPT_SSL_OPTIONS] F ->
  ignores_all [CURLOPT_URL; CURLOPT_SSL_OPTIONS] P ->
  spec id F P (both P (opt_is CURLOPT_URL (Some (c_str url)))) (SET_url url).
Proof.
  intros HF HP. unfold SET_url.
  eapply spec_bind; [apply set_option_spec; ign|]. intros _.
  apply set_option_spec_; ign.
Qed.

Lemma SET_ssl_verify_spec F P on :
  ignores_all [CURLOPT_SSL_VERIFYPEER; CURLOPT_SSL_VERIFYHOST] F ->
  ignores_all [CURLOPT_SSL_VERIFYPEER; CURLOPT_SSL_VERIFYHOST] P ->
  spec id F P P (SET_ssl_verify on).
Proof.
  intros HF HP. unfold SET_ssl_verify.
  eapply spec_bind; [apply set_option_spec_; ign|]. intros _.
  apply set_option_spec_; ign.
Qed.

Lemma SET_ssl_verify_using_ca_bundle_spec F P path :
  ignores_all [CURLOPT_SSL_VERIFYPEER; CURLOPT_SSL_VERIFYHOST; CURLOPT_CAINFO] F ->
  ignores_all [CURLOPT_SSL_VERIFYPEER; CURLOPT_SSL_VERIFYHOST; CURLOPT_CAINFO] P ->
  spec id F P P (SET_ssl_verify_using_ca_bundle path).
Proof.
  intros HF HP. unfold SET_ssl_verify_using_ca_bundle.
  eapply spec_bind.
  - apply SET_ssl_verify_spec; intros o Ho; [apply HF|apply HP]; simpl in *; tauto.
  - intros _. apply set_option_spec_; ign.
Qed.

Lemma SET_timeout_spec F P timeout :
  ignores CURLOPT_TIMEOUT_MS F -> ignores CURLOPT_TIMEOUT_MS P ->
  spec id F P
    (both P (opt_is CURLOPT_TIMEOUT_MS
               (Some (to_string (if decide (0 < timeout)%Z then timeout else 0%Z)))))
    (SET_timeout timeout).
Proof. intros HF HP. apply (set_option_spec F P _ (PLong _)); assumption. Qed.

Lemma RESET_headers_spec F P :
  ignores CURLOPT_HTTPHEADER F -> ignores_header F ->
  ignores CURLOPT_HTTPHEADER P -> ignores_header P ->
  spec id F P (both P (header_is [])) RESET_headers.
Proof.
  intros HF HFh HP HPh c [Hf Hp]. unfold RESET_headers, modify.
  unfold holds, both, id in *. simpl.
  assert (Hother : forall o', o' <> CURLOPT_HTTPHEADER ->
            delete CURLOPT_HTTPHEADER (_options c) !! o' = _options c !! o').
  { intros o' Hne. apply lookup_delete_ne. congruence. }
  split; [|split; [|reflexivity]].
  - apply (HF (_options c)); [exact Hother|]. apply (HFh _ (_header c)), Hf.
  - apply (HP (_options c)); [exact Hother|]. apply (HPh _ (_header c)), Hp.
Qed.

Lemma ADD_headers_spec F P l headers :
  ignores CURLOPT_HTTPHEADER F -> ignores_header F ->
  ignores CURLOPT_HTTPHEADER P -> ignores_header P ->
  spec id F (both P (header_is l))
    (both P (header_is (l ++ map header_line headers))) (ADD_headers headers).
Proof.
  intros HF HFh HP HPh c [Hf [Hp Hl]]. unfold ADD_headers, bind, get.
  destruct (_handle c) eqn:Hh; [|split; [intros []|exact Hf]].
  destruct headers as [|h headers].
  - simpl. rewrite app_nil_r. exact (conj Hf (conj Hp Hl)).
  - unfold modify.
    set (l' := _header c ++ map header_line (h :: headers)).
    pose proof (set_option_spec F (both P (header_is l')) CURLOPT_HTTPHEADER
                  (PPointer (ptr_slist l'))) as Hs.
    specialize (Hs ltac:(ign) ltac:(ign) (with_header l' c)).
    unfold holds, both, id, header_is in *. simpl in *.
    assert (Hpre : (F (_options c) l' /\ P (_options c) l' /\ l' = l')).
    { repeat split; eauto. }
    specialize (Hs Hpre).
    destruct (set_option CURLOPT_HTTPHEADER (PPointer (ptr_slist l')) (with_header l' c))
      as [a c2|e c2| |]; try exact I.
    + destruct Hs as (HF2 & (HP2 & Hl2) & _).
      split; [exact HF2|]. split; [exact HP2|].
      rewrite Hl2. subst l'. rewrite Hl. reflexivity.
    + exact Hs.
Qed.

Lemma SET_fields_spec F P fields :
  ignores CURLOPT_COPYPOSTFIELDS F -> ignores CURLOPT_COPYPOSTFIELDS P ->
  spec id F P
    (both P (fun opts _ =>
               pairs_to_fields_str fields <> EmptyString ->
               opts !! CURLOPT_COPYPOSTFIELDS
               = Some (c_str (pairs_to_fields_str fields))))
    (SET_fields fields).
Proof.
  intros HF HP. unfold SET_fields, SET_fields_str. apply spec_get. intros c.
  destruct (is_closed c); [apply spec_throw; intros H; exact H|].
  destruct (decide (pairs_to_fields_str fields = EmptyString)) as [E|E].
  - eapply spec_weaken; [apply spec_ret|intros o l H; exact H|].
    intros opts l Hp. unfold both. split; [exact Hp|]. intros Hne. contradiction.
  - eapply spec_weaken;
      [apply (set_option_spec F P); assumption|intros o l H; exact H|].
    intros opts l [Hp Hv]. unfold both. split; [exact Hp|]. intros _. exact Hv.
Qed.

(** [execute] may end in a connection error; what it does not set stays
    as it is in every case. *)
Lemma execute_keeps F rhd :
  ignores_all [CURLOPT_WRITEFUNCTION; CURLOPT_WRITEDATA;
               CURLOPT_HEADERFUNCTION; CURLOPT_HEADERDATA] F ->
  keeps id F (execute rhd).
Proof.
  intros HF. unfold execute.
  assert (Hset : forall o p, In o [CURLOPT_WRITEFUNCTION; CURLOPT_WRITEDATA;
               CURLOPT_HEADERFUNCTION; CURLOPT_HEADERDATA] ->
               keeps id F (set_option o p)).
  { intros o p Ho. eapply spec_keeps.
    - apply (set_option_spec_ F top o p); [apply HF, Ho|apply ignores_top].
    - intros; exact I. }
  assert (Hperform : keeps id F perform).
  { intros c Hc. unfold perform. destruct (_handle c); [exact Hc|exact I]. }
  intros c Hc. unfold bind at 1. unfold get at 1.
  destruct (_handle c) eqn:Hh; [|exact Hc].
  revert c Hc Hh. intros c Hc _. revert c Hc.
  apply keeps_bind; [apply Hset; simpl; tauto|intros _].
  apply keeps_bind; [apply Hset; simpl; tauto|intros _].
  apply keeps_bind.
  { destruct rhd; [|apply keeps_ret].
    apply keeps_bind; [apply Hset; simpl; tauto|intros _].
    apply Hset; simpl; tauto. }
  intros _. apply keeps_bind; [exact Hperform|intros r].
  destruct (decide (ccode r = CURLE_OK)); [apply keeps_ret|apply keeps_throw].
Qed.

End ImplSpecs.

Section HttpSpecs.
Context {curl : LibCurl}.
Import HTTPConnection.

Lemma on_pimpl_spec {A} F P Q (m : M CurlConnectionImpl_.t A) :
  spec id F P Q m -> spec _pimpl F P Q (on_pimpl m).
Proof.
  intros Hm c Hc. unfold on_pimpl, zoom. specialize (Hm (_pimpl c) Hc).
  destruct (m (_pimpl c)); exact Hm.
Qed.

Lemma on_pimpl_keeps {A} F (m : M CurlConnectionImpl_.t A) :
  keeps id F m -> keeps _pimpl F (on_pimpl m).
Proof.
  intros Hm c Hc. unfold on_pimpl, zoom. specialize (Hm (_pimpl c) Hc).
  destruct (m (_pimpl c)); exact Hm.
Qed.

Lemma modify_spec F P (f : t -> t) :
  (forall c, _pimpl (f c) = _pimpl c) -> spec _pimpl F P P (modify f).
Proof. intros Hf c Hc. unfold modify. rewrite Hf. exact Hc. Qed.

Lemma _set_method_spec F P meth :
  ignores_all method_options F -> ignores_all method_options P ->
  spec _pimpl F P P (_set_method meth).
Proof.
  intros HF HP. unfold _set_method, method_options in *.
  eapply spec_bind; [|intros _; apply spec_ret].
  destruct meth; try (apply on_pimpl_spec, set_option_spec_; ign).
  apply spec_throw. intros H; exact H.
Qed.

Lemma set_method_spec F P meth :
  ignores_all method_options F -> ignores_all method_options P ->
  spec _pimpl F P P (set_method meth).
Proof.
  intros HF HP. unfold set_method.
  eapply spec_bind; [apply _set_method_spec; assumption|].
  intros m. apply modify_spec. reflexivity.
Qed.

Lemma set_url_spec F P bundle url :
  ignores_all url_options F -> ignores_all url_options P ->
  spec _pimpl F P (both P (opt_is CURLOPT_URL (Some (c_str url))))
    (set_url bundle url).
Proof.
  intros HF HP. unfold set_url, url_options in *.
  eapply spec_bind with (Q := P).
  - destruct (starts_with "https://" url).
    + apply spec_get. intros c.
      destruct (decide (_proto c = https)); [apply spec_ret|].
      eapply spec_bind; [|intros _; apply modify_spec; reflexivity].
      destruct (decide (bundle = EmptyString)); apply on_pimpl_spec.
      * apply SET_ssl_verify_spec; intros o Ho; [apply HF|apply HP]; simpl in *; tauto.
      * apply SET_ssl_verify_using_ca_bundle_spec;
          intros o Ho; [apply HF|apply HP]; simpl in *; tauto.
    + destruct (starts_with "http://" url).
      * apply modify_spec. reflexivity.
      * apply spec_throw. intros H; exact H.
  - intros _. apply on_pimpl_spec, SET_url_spec;
      intros o Ho; [apply HF|apply HP]; simpl in *; tauto.
Qed.

Lemma reset_headers_spec F P :
  ignores CURLOPT_HTTPHEADER F -> ignores_header F ->
  ignores CURLOPT_HTTPHEADER P -> ignores_header P ->
  spec _pimpl F P (both P (header_is [])) reset_headers.
Proof. intros. apply on_pimpl_spec, RESET_headers_spec; assumption. Qed.

Lemma add_headers_spec F P l headers :
  ignores CURLOPT_HTTPHEADER F -> ignores_header F ->
  ignores CURLOPT_HTTPHEADER P -> ignores_header P ->
  spec _pimpl F (both P (header_is l))
    (both P (header_is (l ++ map CurlConnectionImpl_.header_line headers)))
    (add_headers headers).
Proof. intros. apply on_pimpl_spec, ADD_headers_spec; assumption. Qed.

Lemma ignores_pushed o self :
  o <> CURLOPT_URL -> o <> CURLOPT_COPYPOSTFIELDS -> ignores o (pushed self).
Proof.
  intros Hu Hf opts opts' l H (Hurl & Hhdr & Hfields). unfold pushed.
  rewrite !H by congruence. auto.
Qed.

Lemma push_parameters_spec bundle self :
  spec _pimpl top top (pushed self) (push_parameters bundle self).
Proof.
  unfold push_parameters.
  set (U := opt_is CURLOPT_URL (Some (c_str (SharedHTTPConnection._url self)))).
  set (H := header_is (map CurlConnectionImpl_.header_line
                         (SharedHTTPConnection._headers self))).
  eapply spec_bind; [apply (set_url_spec top top); ign_all|intros _].
  eapply spec_bind;
    [apply (reset_headers_spec top (both top U)); subst U; ign|intros _].
  eapply spec_bind with (Q := both (both top U) H).
  { destruct (decide (SharedHTTPConnection._headers self = [])) as [E|E].
    - rewrite bool_decide_eq_true_2 by exact E. simpl.
      subst H. rewrite E. apply spec_ret.
    - rewrite bool_decide_eq_false_2 by exact E. simpl.
      apply (add_headers_spec top (both top U) []); subst U; ign. }
  intros _.
  eapply spec_bind;
    [apply (set_method_spec top (both (both top U) H)); subst U H; ign_all|intros _].
  destruct (decide (SharedHTTPConnection._meth self = http_get)) as [Em|Em];
    [rewrite (bool_decide_eq_true_2 _ Em)|rewrite (bool_decide_eq_false_2 _ Em)];
    (destruct (decide (SharedHTTPConnection._fields self = [])) as [Ef|Ef];
     [rewrite (bool_decide_eq_true_2 _ Ef)|rewrite (bool_decide_eq_false_2 _ Ef)]);
    simpl.
  1-3: eapply spec_weaken; [apply spec_ret|intros o l Hx; exact Hx|];
       intros o l [[_ Hu] Hh]; repeat split; try assumption; intros; contradiction.
  eapply spec_weaken;
    [apply on_pimpl_spec,
       (SET_fields_spec top (both (both top U) H)); subst U H; ign
    |intros o l Hx; exact Hx|].
  intros o l [[[_ Hu] Hh] Hf]. repeat split; try assumption.
  intros _ _. exact Hf.
Qed.

Lemma add_headers_keeps F headers :
  ignores CURLOPT_HTTPHEADER F -> ignores_header F ->
  keeps _pimpl F (add_headers headers).
Proof.
  intros HF HFh c Hc.
  pose proof (add_headers_spec F top (CurlConnectionImpl_._header (_pimpl c))
                headers HF HFh (ignores_top _) ignores_header_top c) as Hs.
  assert (Hpre : holds (both F (both top (header_is
                   (CurlConnectionImpl_._header (_pimpl c))))) (_pimpl c)).
  { split; [exact Hc|]. split; [exact I|reflexivity]. }
  specialize (Hs Hpre).
  destruct (add_headers headers c); try exact I; apply Hs.
Qed.

Lemma top_of (F : inv) o l : F o l -> top o l.
Proof. intros _. exact I. Qed.

(** With no fields to push, or for a GET, the parameters are pushed
    without a word about the body. *)
Lemma push_parameters_keeps_fields bundle self v :
  SharedHTTPConnection._meth self = http_get
  \/ SharedHTTPConnection._fields self = [] ->
  keeps _pimpl (opt_is CURLOPT_COPYPOSTFIELDS v) (push_parameters bundle self).
Proof.
  intros Hno. unfold push_parameters.
  set (F := opt_is CURLOPT_COPYPOSTFIELDS v).
  apply keeps_bind;
    [eapply spec_keeps; [apply (set_url_spec F top); subst F; ign_all|apply top_of]
    |intros _].
  apply keeps_bind;
    [eapply spec_keeps; [apply (reset_headers_spec F top); subst F; ign|apply top_of]
    |intros _].
  apply keeps_bind.
  { destruct (negb (bool_decide (SharedHTTPConnection._headers self = [])));
      [|apply keeps_ret].
    apply add_headers_keeps; subst F; ign. }
  intros _.
  apply keeps_bind;
    [eapply spec_keeps; [apply (set_method_spec F top); subst F; ign_all|apply top_of]
    |intros _].
  assert (Hcond : negb (bool_decide (SharedHTTPConnection._meth self = http_get))
                  && negb (bool_decide (SharedHTTPConnection._fields self = []))
                  = false).
  { destruct Hno as [E|E]; rewrite (bool_decide_eq_true_2 _ E); simpl;
      [reflexivity|apply andb_false_r]. }
  rewrite Hcond. apply keeps_ret.
Qed.

Lemma perform_request_keeps F rhd self :
  ignores CURLOPT_TIMEOUT_MS F -> ignores_all perform_options F ->
  keeps _pimpl F (perform_request rhd self).
Proof.
  intros Ht Hp. unfold perform_request.
  apply keeps_bind.
  - eapply spec_keeps; [|apply top_of].
    apply on_pimpl_spec, (SET_timeout_spec F top); ign.
  - intros _. apply on_pimpl_keeps, execute_keeps. exact Hp.
Qed.

(** A request that fails leaves what was pushed; when the failure is a
    connection error, the timeout had been pushed as well. *)
Lemma perform_request_pushed rhd self :
  triple (holds_http (pushed self)) (perform_request rhd self)
    (fun _ c => holds_http (both (pushed self) (timeout_pushed self)) c)
    (fun e c => holds_http (pushed self) c
                /\ (is_connection_error e -> holds_http (timeout_pushed self) c)).
Proof.
  unfold perform_request. intros c Hc. unfold bind.
  pose proof (on_pimpl_spec _ _ _ _
                (SET_timeout_spec (pushed self) top
                   (SharedHTTPConnection._timeout self)
                   ltac:(apply ignores_pushed; discriminate) (ignores_top _))
                c (conj Hc I)) as Hs.
  fold (set_timeout (SharedHTTPConnection._timeout self)) in Hs.
  destruct (set_timeout (SharedHTTPConnection._timeout self) c)
    as [[] c1|e c1| |]; try exact I.
  - destruct Hs as [Hp [_ Ht]].
    assert (Hk : keeps _pimpl (both (pushed self) (timeout_pushed self))
                   (execute rhd)).
    { apply on_pimpl_keeps, execute_keeps. intros o Ho. apply ignores_both.
      - apply ignores_pushed; intros ->; simpl in Ho;
          repeat (destruct Ho as [Ho|Ho]; [discriminate|]); contradiction.
      - apply ignores_opt_is. intros <-. simpl in Ho.
        repeat (destruct Ho as [Ho|Ho]; [discriminate|]); contradiction. }
    specialize (Hk c1 (conj Hp Ht)).
    destruct (execute rhd c1) as [r c2|e c2| |]; try exact I.
    + exact Hk.
    + destruct Hk as [Hp2 Ht2]. split; [exact Hp2|intros _; exact Ht2].
  - destruct Hs as [He Hp]. split; [exact Hp|]. intros Hc'. contradiction.
Qed.

End HttpSpecs.

(* ================================================================= *)
(** ** [execute]: the order of the pushes, the body, failures *)

Section ExecuteProperties.
Context {curl : LibCurl}.

Import SharedHTTPConnection.

Lemma c_str_idempotent s : c_str (c_str s) = c_str s.
Proof.
  induction s as [|a s IH]; simpl; [reflexivity|].
  destruct (Ascii.eqb a zero) eqn:E; simpl; [reflexivity|].
  rewrite E, IH. reflexivity.
Qed.

Lemma pairs_to_fields_str_c_str fields :
  c_str (pairs_to_fields_str fields) = pairs_to_fields_str fields.
Proof. unfold pairs_to_fields_str. apply c_str_idempotent. Qed.

Lemma set_option_returns o p c a c' :
  CurlConnectionImpl_.set_option o p c = Ret a c' ->
  exists h, CurlConnectionImpl_._handle c = Some h
            /\ CurlConnectionImpl_._handle c' = Some (h ++ [call_setopt o p]).
Proof.
  unfold CurlConnectionImpl_.set_option.
  destruct (CurlConnectionImpl_._handle c) as [h|]; [|discriminate].
  destruct (curl_easy_setopt h o p); [|discriminate].
  intros H. injection H as <- <-. exists h. split; reflexivity.
Qed.

(** What [CurlConnectionImpl_::execute] returns is what the transfer
    gave. *)
Lemma impl_execute_returns rhd c r c' :
  CurlConnectionImpl_.execute rhd c = Ret r c' ->
  exists h,
    CurlConnectionImpl_._handle c' = Some (h ++ [call_perform])
    /\ ccode (curl_easy_perform h) = CURLE_OK
    /\ r = (response_code (curl_easy_perform h),
            written_data (curl_easy_perform h),
            if rhd then written_header (curl_easy_perform h) else EmptyString,
            time_point (curl_easy_perform h)).
Proof.
  unfold CurlConnectionImpl_.execute. unfold bind at 1. unfold get.
  destruct (CurlConnectionImpl_._handle c); [|discriminate].
  unfold bind at 1.
  destruct (CurlConnectionImpl_.set_option CURLOPT_WRITEFUNCTION _ c)
    as [[] c1|? ?| |]; try discriminate.
  unfold bind at 1.
  destruct (CurlConnectionImpl_.set_option CURLOPT_WRITEDATA _ c1)
    as [[] c2|? ?| |] eqn:E2; try discriminate.
  assert (Hlast : forall c3,
    (exists h, CurlConnectionImpl_._handle c3 = Some h) ->
    (r0 <- CurlConnectionImpl_.perform ;;
     if decide (ccode r0 = CURLE_OK)
     then ret (response_code r0, written_data r0,
               if rhd then written_header r0 else EmptyString, time_point r0)
     else throw (CurlConnectionError (ccode r0) (error_buffer r0))) c3
    = Ret r c' ->
    exists h,
      CurlConnectionImpl_._handle c' = Some (h ++ [call_perform])
      /\ ccode (curl_easy_perform h) = CURLE_OK
      /\ r = (response_code (curl_easy_perform h),
              written_data (curl_easy_perform h),
              if rhd then written_header (curl_easy_perform h) else EmptyString,
              time_point (curl_easy_perform h))).
  { intros c3 [h Hh]. unfold bind, CurlConnectionImpl_.perform. rewrite Hh.
    destruct (decide (ccode (curl_easy_perform h) = CURLE_OK)) as [Hok|];
      [|discriminate].
    unfold ret. intros H. injection H as <- <-. exists h.
    split; [reflexivity|]. split; [exact Hok|reflexivity]. }
  unfold bind at 1. destruct rhd.
  - unfold bind at 1.
    destruct (CurlConnectionImpl_.set_option CURLOPT_HEADERFUNCTION _ c2)
      as [[] c3|? ?| |]; try discriminate.
    destruct (CurlConnectionImpl_.set_option CURLOPT_HEADERDATA _ c3)
      as [[] c4|? ?| |] eqn:E4; try discriminate.
    apply Hlast. destruct (set_option_returns _ _ _ _ _ E4) as (h & _ & Hh).
    eauto.
  - unfold ret at 1. apply Hlast.
    destruct (set_option_returns _ _ _ _ _ E2) as (h & _ & Hh). eauto.
Qed.

Lemma push_parameters_returns bundle self c0 c5 :
  push_parameters bundle self c0 = Ret tt c5 <->
  exists c1 c2 c3 c4,
    HTTPConnection.set_url bundle (_url self) c0 = Ret tt c1
    /\ HTTPConnection.reset_headers c1 = Ret tt c2
    /\ (if decide (_headers self = []) then c3 = c2
        else HTTPConnection.add_headers (_headers self) c2 = Ret tt c3)
    /\ HTTPConnection.set_method (_meth self) c3 = Ret tt c4
    /\ (if decide (_meth self <> http_get /\ _fields self <> [])
        then HTTPConnection.set_fields (_fields self) c4 = Ret tt c5
        else c5 = c4).
Proof.
  unfold push_parameters.
  assert (Hh : negb (bool_decide (_headers self = []))
               = if decide (_headers self = []) then false else true).
  { destruct (decide (_headers self = [])) as [E|E];
      [rewrite (bool_decide_eq_true_2 _ E)|rewrite (bool_decide_eq_false_2 _ E)];
      reflexivity. }
  assert (Hf : negb (bool_decide (_meth self = http_get))
               && negb (bool_decide (_fields self = []))
               = if decide (_meth self <> http_get /\ _fields self <> [])
                 then true else false).
  { destruct (decide (_meth self = http_get)) as [E|E];
      [rewrite (bool_decide_eq_true_2 _ E)|rewrite (bool_decide_eq_false_2 _ E)];
      (destruct (decide (_fields self = [])) as [E'|E'];
       [rewrite (bool_decide_eq_true_2 _ E')|rewrite (bool_decide_eq_false_2 _ E')]);
      simpl; destruct (decide (_meth self <> http_get /\ _fields self <> []));
      tauto. }
  rewrite Hh, Hf. clear Hh Hf. unfold bind. split.
  - intros H.
    destruct (HTTPConnection.set_url _ _ c0) as [[] c1|? ?| |] eqn:E1;
      try discriminate.
    destruct (HTTPConnection.reset_headers c1) as [[] c2|? ?| |] eqn:E2;
      try discriminate.
    exists c1, c2.
    destruct (decide (_headers self = [])).
    + unfold ret at 1 in H.
      destruct (HTTPConnection.set_method _ c2) as [[] c4|? ?| |] eqn:E4;
        try discriminate.
      exists c2, c4.
      repeat (split; [first [reflexivity|assumption]|]).
      destruct (decide (_meth self <> http_get /\ _fields self <> []));
        simpl in H; [exact H|]. injection H as <-. reflexivity.
    + destruct (HTTPConnection.add_headers _ c2) as [[] c3|? ?| |] eqn:E3;
        try discriminate.
      destruct (HTTPConnection.set_method _ c3) as [[] c4|? ?| |] eqn:E4;
        try discriminate.
      exists c3, c4.
      repeat (split; [first [reflexivity|assumption]|]).
      destruct (decide (_meth self <> http_get /\ _fields self <> []));
        simpl in H; [exact H|]. injection H as <-. reflexivity.
  - intros (c1 & c2 & c3 & c4 & H1 & H2 & H3 & H4 & H5).
    rewrite H1, H2.
    destruct (decide (_headers self = []));
      [subst c3; unfold ret at 1|rewrite H3]; rewrite H4;
      (destruct (decide (_meth self <> http_get /\ _fields self <> []));
       [exact H5|subst c5; reflexivity]).
Qed.

Lemma perform_request_returns rhd self c5 r c7 :
  perform_request rhd self c5 = Ret r c7 <->
  exists c6, HTTPConnection.set_timeout (_timeout self) c5 = Ret tt c6
             /\ HTTPConnection.execute rhd c6 = Ret r c7.
Proof.
  unfold perform_request, bind. split.
  - destruct (HTTPConnection.set_timeout _ c5) as [[] c6|? ?| |] eqn:E;
      try discriminate.
    intros H. exists c6. split; [reflexivity|exact H].
  - intros (c6 & -> & H). exact H.
Qed.


Lemma keeps_returns {S A} (view : S -> CurlConnectionImpl_.t) F
  (m : M S A) s a s' :
  keeps view F m -> holds F (view s) -> m s = Ret a s' -> holds F (view s').
Proof. intros Hk Hs E. specialize (Hk s Hs). rewrite E in Hk. exact Hk. Qed.

Lemma keeps_throws {S A} (view : S -> CurlConnectionImpl_.t) F
  (m : M S A) s e s' :
  keeps view F m -> holds F (view s) -> m s = Throw e s' -> holds F (view s').
Proof. intros Hk Hs E. specialize (Hk s Hs). rewrite E in Hk. exact Hk. Qed.

Lemma body_option_entry id x c g :
  conn x = Some c ->
  body_option (entry_with id x g) id
  = CurlConnectionImpl_._options (HTTPConnection._pimpl c)
    !! CURLOPT_COPYPOSTFIELDS.
Proof.
  intros Hc. unfold body_option, entry_with. simpl.
  rewrite lookup_insert_eq, Hc. reflexivity.
Qed.


(** C8. An [execute] on an open front-end that ends in an exception
    leaves the front-end open, with its pending parameters (the fields
    apart, which are cleared once the parameters are pushed), and leaves
    the entry in the registry with its count and a free mutex.  The shared
    connection is left in the state in which the failing call left it:
    nothing is undone.  So a URL whose push returned is still set; and
    when the call that failed is among those after the pushes, the URL,
    the headers and the body are those of this front-end, and so is the
    timeout when the failure is a connection error. *)
Theorem failed_execute_leaves_pushed rhd self g ctx c0 e fr' :
  _is_open self = true ->
  contexts g !! _id self = Some ctx -> conn ctx = Some c0 ->
  mtx ctx = Some false ->
  execute rhd {| this := self; statics := g |} = Throw e fr' ->
  _is_open (this fr') = true
  /\ (this fr' = self \/ this fr' = with_fields [] self)
  /\ exists c',
       statics fr' = entry_with (_id self) (with_conn (Some c') ctx) g
       /\ (push_parameters (certificate_bundle_path g) self c0 = Throw e c'
           /\ this fr' = self /\ ~ is_connection_error e
           \/ exists c5,
                push_parameters (certificate_bundle_path g) self c0 = Ret tt c5
                /\ perform_request rhd self c5 = Throw e c'
                /\ this fr' = with_fields [] self
                /\ holds_http (pushed self) c'
                /\ (is_connection_error e ->
                    holds_http (timeout_pushed self) c'))
       /\ (forall c1,
             HTTPConnection.set_url (certificate_bundle_path g) (_url self) c0
             = Ret tt c1 ->
             CurlConnectionImpl_._options (HTTPConnection._pimpl c')
             !! CURLOPT_URL = Some (c_str (_url self))).
Proof.
  intros Hopen Hctx Hconn Hmtx H.
  rewrite (execute_open rhd self g ctx c0) in H by assumption.
  pose proof (push_parameters_spec (certificate_bundle_path g) self c0
                (conj I I)) as Hs.
  destruct (push_parameters _ self c0) as [[] c5|e1 c1| |] eqn:E1;
    try discriminate.
  - pose proof (perform_request_pushed rhd self c5 (proj2 Hs)) as Hp.
    destruct (perform_request rhd self c5) as [r' c7|e2 c7| |] eqn:E2;
      try discriminate.
    injection H as -> <-. cbn [this statics].
    split; [exact Hopen|]. split; [right; reflexivity|].
    exists c7. split; [reflexivity|]. split.
    + right. exists c5. destruct Hp as [Hp Ht].
      repeat (split; [first [reflexivity|assumption]|]). exact Ht.
    + intros _ _. apply (proj1 Hp).
  - injection H as -> <-. cbn [this statics].
    split; [exact Hopen|]. split; [left; reflexivity|].
    exists c1. split; [reflexivity|]. split.
    + left. repeat split. exact (proj1 Hs).
    + intros c1' Hurl. unfold push_parameters in E1. unfold bind at 1 in E1.
      rewrite Hurl in E1.
      pose proof (set_url_spec top top (certificate_bundle_path g) (_url self)
                    ltac:(ign_all) ltac:(ign_all) c0 (conj I I)) as Hu.
      rewrite Hurl in Hu. destruct Hu as [_ [_ Hu]].
      set (U := opt_is CURLOPT_URL (Some (c_str (_url self)))) in *.
      refine (keeps_throws HTTPConnection._pimpl U _ _ _ _ _ Hu E1).
      apply keeps_bind;
        [eapply spec_keeps;
           [apply (reset_headers_spec U top); subst U; ign|apply top_of]
        |intros _].
      apply keeps_bind.
      { destruct (negb (bool_decide (_headers self = [])));
          [|apply keeps_ret].
        apply add_headers_keeps; subst U; ign. }
      intros _.
      apply keeps_bind;
        [eapply spec_keeps;
           [apply (set_method_spec U top); subst U; ign_all|apply top_of]
        |intros _].
      destruct (negb (bool_decide (_meth self = http_get))
                && negb (bool_decide (_fields self = [])));
        [|apply keeps_ret].
      eapply spec_keeps; [|apply top_of].
      apply on_pimpl_spec, (SET_fields_spec U top); subst U; ign.
Qed.

End ExecuteProperties.

(* ================================================================= *)
(** ** Examples *)




(** With libcurl offline, [execute] on the example fails with a connection
    error and leaves the front-end open, the parameters pushed. *)
Lemma failed_execute_leaves_pushed_witness :
  SharedHTTPConnection.execute (curl := curl_offline) true
    (example_frame curl_offline)
  = Throw (CurlConnectionError 7 "Couldn't connect to server")
      (example_after curl_offline)
  /\ SharedHTTPConnection._is_open
       (SharedHTTPConnection.this (example_after curl_offline)) = true
  /\ exists c',
       SharedHTTPConnection.statics (example_after curl_offline)
       = entry_with 1 (SharedHTTPConnection.with_conn (Some c')
                         (example_entry curl_offline))
           (example_registry curl_offline)
       /\ holds_http (pushed example_post) c'
       /\ holds_http (timeout_pushed example_post) c'.
Proof.
  assert (E : SharedHTTPConnection.execute (curl := curl_offline) true
                (example_frame curl_offline)
              = Throw (CurlConnectionError 7 "Couldn't connect to server")
                  (example_after curl_offline)) by compute_done.
  assert (H1 : SharedHTTPConnection.contexts (example_registry curl_offline)
               !! SharedHTTPConnection._id example_post
               = Some (example_entry curl_offline)) by compute_done.
  assert (H2 : SharedHTTPConnection.conn (example_entry curl_offline)
               = Some (example_conn curl_offline)) by compute_done.
  assert (H3 : SharedHTTPConnection.mtx (example_entry curl_offline) = Some false)
    by compute_done.
  destruct (failed_execute_leaves_pushed (curl := curl_offline) true
              example_post (example_registry curl_offline)
              (example_entry curl_offline) (example_conn curl_offline)
              _ _ eq_refl H1 H2 H3 E)
    as (Hopen & _ & c' & Hst & Hcases & _).
  split; [exact E|]. split; [exact Hopen|]. exists c'. split; [exact Hst|].
  destruct Hcases as [(_ & _ & Hno)|(c5 & _ & _ & _ & Hp & Ht)].
  - destruct (Hno I).
  - split; [exact Hp|exact (Ht I)].
Defined.

(** A closed value assigned from the example, open with id 1: the entry
    counts one more. *)
Lemma assign_cases_witness :
  SharedHTTPConnection.assign example_post
    {| SharedHTTPConnection.this :=
         SharedHTTPConnection.with_is_open false example_post;
       SharedHTTPConnection.statics := example_registry curl_online |}
  = Ret tt
      {| SharedHTTPConnection.this := example_post;
         SharedHTTPConnection.statics :=
           SharedHTTPConnection.with_contexts
             (<[1%Z := SharedHTTPConnection.with_nref
                         (SharedHTTPConnection.nref (example_entry curl_online) + 1)
                         (example_entry curl_online)]>
                (SharedHTTPConnection.contexts (example_registry curl_online)))
             (example_registry curl_online) |}
  /\ SharedHTTPConnection.nref (example_entry curl_online) = 1%Z.
Proof.
  assert (H1 : SharedHTTPConnection.contexts (example_registry curl_online)
               !! SharedHTTPConnection._id example_post
               = Some (example_entry curl_online)) by compute_done.
  assert (H2 : is_Some (SharedHTTPConnection.conn (example_entry curl_online))).
  { exists (example_conn curl_online). compute_done. }
  assert (H3 : SharedHTTPConnection.nref (example_entry curl_online) = 1%Z)
    by compute_done.
  split; [|exact H3].
  apply (proj1 (assign_cases
                  (SharedHTTPConnection.with_is_open false example_post)
                  example_post (example_registry curl_online))
           (example_entry curl_online) eq_refl eq_refl eq_refl H1 H2).
  rewrite H3. discriminate.
Defined.

(* ================================================================= *)
(** ** TLS verification and the scheme of the URL *)

Section Tls.
Context {curl : LibCurl}.

Lemma count_setopt_app o h1 h2 :
  count_setopt o (h1 ++ h2) = count_setopt o h1 + count_setopt o h2.
Proof.
  induction h1 as [|[o' p|] h1 IH]; simpl; [reflexivity| |exact IH].
  rewrite IH. lia.
Qed.

Lemma bind_returns {S A B} (m : M S A) (k : A -> M S B) s b s'' :
  bind m k s = Ret b s'' -> exists a s', m s = Ret a s' /\ k a s' = Ret b s''.
Proof.
  unfold bind. destruct (m s) as [a s'| | |]; try discriminate.
  intros H. exists a, s'. split; [reflexivity|exact H].
Qed.

Lemma on_pimpl_returns {A} (m : M CurlConnectionImpl_.t A) c a c' :
  HTTPConnection.on_pimpl m c = Ret a c' ->
  exists p', m (HTTPConnection._pimpl c) = Ret a p'
             /\ c' = HTTPConnection.with_pimpl p' c.
Proof.
  unfold HTTPConnection.on_pimpl, zoom.
  destruct (m (HTTPConnection._pimpl c)) as [a' p'| | |]; try discriminate.
  intros H. injection H as <- <-. exists p'. split; reflexivity.
Qed.

Lemma SET_ssl_verify_returns on c a c' :
  CurlConnectionImpl_.SET_ssl_verify on c = Ret a c' ->
  exists h,
    CurlConnectionImpl_._handle c = Some h
    /\ CurlConnectionImpl_._handle c'
       = Some (h ++ [call_setopt CURLOPT_SSL_VERIFYPEER
                       (PLong (if on then 1 else 0));
                     call_setopt CURLOPT_SSL_VERIFYHOST
                       (PLong (if on then 2 else 0))]).
Proof.
  intros H. apply bind_returns in H as (a1 & c1 & H1 & H2).
  apply set_option_returns in H1 as (h & Hh & Hh1).
  apply set_option_returns in H2 as (h1 & Hh1' & Hh2).
  rewrite Hh1 in Hh1'. injection Hh1' as <-.
  exists h. split; [exact Hh|]. rewrite Hh2, <- app_assoc. reflexivity.
Qed.

Lemma SET_ssl_verify_using_ca_bundle_returns path c a c' :
  CurlConnectionImpl_.SET_ssl_verify_using_ca_bundle path c = Ret a c' ->
  exists h,
    CurlConnectionImpl_._handle c = Some h
    /\ CurlConnectionImpl_._handle c'
       = Some (h ++ [call_setopt CURLOPT_SSL_VERIFYPEER (PLong 1);
                     call_setopt CURLOPT_SSL_VERIFYHOST (PLong 2);
                     call_setopt CURLOPT_CAINFO (PString (c_str path))]).
Proof.
  intros H. apply bind_returns in H as (a1 & c1 & H1 & H2).
  apply SET_ssl_verify_returns in H1 as (h & Hh & Hh1).
  apply set_option_returns in H2 as (h1 & Hh1' & Hh2).
  rewrite Hh1 in Hh1'. injection Hh1' as <-.
  exists h. split; [exact Hh|]. rewrite Hh2, <- app_assoc. reflexivity.
Qed.

Lemma SET_url_returns url c a c' :
  CurlConnectionImpl_.SET_url url c = Ret a c' ->
  exists h,
    CurlConnectionImpl_._handle c = Some h
    /\ CurlConnectionImpl_._handle c'
       = Some (h ++ [call_setopt CURLOPT_URL (PString (c_str url));
                     call_setopt CURLOPT_SSL_OPTIONS (PLong CURLSSLOPT_NO_REVOKE)]).
Proof.
  intros H. apply bind_returns in H as (a1 & c1 & H1 & H2).
  apply set_option_returns in H1 as (h & Hh & Hh1).
  apply set_option_returns in H2 as (h1 & Hh1' & Hh2).
  rewrite Hh1 in Hh1'. injection Hh1' as <-.
  exists h. split; [exact Hh|]. rewrite Hh2, <- app_assoc. reflexivity.
Qed.

(** One call of [set_url] that returns: the calls it made on the handle,
    and the protocol it leaves. *)
Lemma set_url_returns bundle url c c' :
  HTTPConnection.set_url bundle url c = Ret tt c' ->
  calls_on c'
  = calls_on c
    ++ (if starts_with "https://" url
        then if decide (HTTPConnection._proto c = HTTPConnection.https) then []
             else [call_setopt CURLOPT_SSL_VERIFYPEER (PLong 1);
                   call_setopt CURLOPT_SSL_VERIFYHOST (PLong 2)]
                  ++ (if decide (bundle = EmptyString) then []
                      else [call_setopt CURLOPT_CAINFO (PString (c_str bundle))])
        else [])
    ++ [call_setopt CURLOPT_URL (PString (c_str url));
        call_setopt CURLOPT_SSL_OPTIONS (PLong CURLSSLOPT_NO_REVOKE)]
  /\ HTTPConnection._proto c'
     = (if starts_with "https://" url then HTTPConnection.https
        else HTTPConnection.http).
Proof.
  unfold HTTPConnection.set_url. intros H.
  apply bind_returns in H as ([] & c1 & H1 & H2).
  apply on_pimpl_returns in H2 as (p' & H2 & ->).
  apply SET_url_returns in H2 as (h1 & Hh1 & Hp').
  assert (Hlast : forall l,
            calls_on c1 = calls_on c ++ l ->
            calls_on (HTTPConnection.with_pimpl p' c1)
            = calls_on c ++ l
              ++ [call_setopt CURLOPT_URL (PString (c_str url));
                  call_setopt CURLOPT_SSL_OPTIONS (PLong CURLSSLOPT_NO_REVOKE)]).
  { intros l Hl. unfold calls_on in *. simpl. rewrite Hp'. rewrite Hh1 in Hl.
    rewrite Hl, <- app_assoc. reflexivity. }
  destruct (starts_with "https://" url).
  - unfold bind at 1, get in H1.
    destruct (decide (HTTPConnection._proto c = HTTPConnection.https)) as [E|E].
    + injection H1 as <-. split; [|exact E].
      apply Hlast. rewrite app_nil_r. reflexivity.
    + apply bind_returns in H1 as ([] & c0 & H0 & H1).
      injection H1 as <-. split; [|reflexivity].
      change (calls_on (HTTPConnection.with_pimpl p'
                          (HTTPConnection.with_proto HTTPConnection.https c0)))
        with (calls_on (HTTPConnection.with_pimpl p' c0)).
      destruct (decide (bundle = EmptyString));
        apply on_pimpl_returns in H0 as (q & H0 & ->).
      * apply SET_ssl_verify_returns in H0 as (h & Hh & Hq).
        unfold calls_on in *. simpl in *. rewrite Hp'. rewrite Hq in Hh1.
        injection Hh1 as <-. rewrite Hh, <- ?app_assoc. reflexivity.
      * apply SET_ssl_verify_using_ca_bundle_returns in H0 as (h & Hh & Hq).
        unfold calls_on in *. simpl in *. rewrite Hp'. rewrite Hq in Hh1.
        injection Hh1 as <-. rewrite Hh, <- ?app_assoc. reflexivity.
  - destruct (starts_with "http://" url); [|discriminate H1].
    injection H1 as <-. split; [|reflexivity].
    apply (Hlast []). rewrite app_nil_r. reflexivity.
Qed.

Lemma ssl_setups_set_url bundle url c c' :
  HTTPConnection.set_url bundle url c = Ret tt c' ->
  ssl_setups c'
  = ssl_setups c
    + (if starts_with "https://" url
       then if decide (HTTPConnection._proto c = HTTPConnection.https)
            then 0 else 1
       else 0).
Proof.
  intros H. destruct (set_url_returns _ _ _ _ H) as [Hcalls _].
  unfold ssl_setups. rewrite Hcalls, !count_setopt_app.
  destruct (starts_with "https://" url); [|simpl; lia].
  destruct (decide (HTTPConnection._proto c = HTTPConnection.https));
    [simpl; lia|].
  destruct (decide (bundle = EmptyString)); simpl; lia.
Qed.

Lemma bundle_setups_set_url bundle url c c' :
  HTTPConnection.set_url bundle url c = Ret tt c' ->
  bundle_setups c'
  = bundle_setups c
    + (if decide (bundle = EmptyString) then 0
       else if starts_with "https://" url
            then if decide (HTTPConnection._proto c = HTTPConnection.https)
                 then 0 else 1
            else 0).
Proof.
  intros H. destruct (set_url_returns _ _ _ _ H) as [Hcalls _].
  unfold bundle_setups. rewrite Hcalls, !count_setopt_app.
  destruct (starts_with "https://" url);
    [|destruct (decide (bundle = EmptyString)); simpl; lia].
  destruct (decide (HTTPConnection._proto c = HTTPConnection.https));
    [destruct (decide (bundle = EmptyString)); simpl; lia|].
  destruct (decide (bundle = EmptyString)); simpl; lia.
Qed.

(** C3, as the code has it.  A call of [set_url] that returns sets up TLS
    verification exactly when the URL is https and the protocol of the
    instance at the call is not https; so, over a sequence of calls that
    return, the setup is made once for each time the scheme enters https
    from [none] or http, the first time and after every http URL in
    between, and each of these setups gives the certificate bundle exactly
    when the bundle path is not empty.  Consecutive https URLs trigger it
    once. *)
Theorem tls_setup_on_entering_https bundle urls c c' :
  set_urls bundle urls c = Ret tt c' ->
  ssl_setups c' = ssl_setups c + https_entries (HTTPConnection._proto c) urls
  /\ bundle_setups c'
     = bundle_setups c
       + (if decide (bundle = EmptyString) then 0
          else https_entries (HTTPConnection._proto c) urls)
  /\ (forall p url1 url2,
        starts_with "https://" url1 = true ->
        starts_with "https://" url2 = true ->
        https_entries p [url1; url2]
        = if decide (p = HTTPConnection.https) then 0 else 1).
Proof.
  intros H. split; [|split].
  - revert c H. induction urls as [|url urls IH]; intros c H.
    + injection H as <-. simpl. lia.
    + simpl in H. apply bind_returns in H as ([] & c1 & H1 & H2).
      rewrite (IH c1 H2), (ssl_setups_set_url _ _ _ _ H1).
      destruct (set_url_returns _ _ _ _ H1) as [_ Hproto]. rewrite Hproto.
      simpl. destruct (starts_with "https://" url); lia.
  - revert c H. induction urls as [|url urls IH]; intros c H.
    + injection H as <-. simpl. destruct (decide (bundle = EmptyString)); lia.
    + simpl in H. apply bind_returns in H as ([] & c1 & H1 & H2).
      rewrite (IH c1 H2), (bundle_setups_set_url _ _ _ _ H1).
      destruct (set_url_returns _ _ _ _ H1) as [_ Hproto]. rewrite Hproto.
      simpl. destruct (decide (bundle = EmptyString)); [lia|].
      destruct (starts_with "https://" url); lia.
  - intros p url1 url2 H1 H2. simpl. rewrite H1, H2.
    destruct (decide (p = HTTPConnection.https)); simpl; [reflexivity|].
    destruct (decide (HTTPConnection.https = HTTPConnection.https));
      [reflexivity|contradiction].
Qed.

End Tls.

(** Two https URLs in a row on a new connection: one setup. *)
Lemma tls_setup_on_entering_https_witness :
  set_urls (H := curl_online) EmptyString ["https://a"; "https://b"]%string
    example_http
  = Ret tt (after_set_urls ["https://a"; "https://b"]%string)
  /\ ssl_setups example_http = 0
  /\ ssl_setups (after_set_urls ["https://a"; "https://b"]%string) = 1.
Proof.
  assert (E : set_urls (H := curl_online) EmptyString
                ["https://a"; "https://b"]%string example_http
              = Ret tt (after_set_urls ["https://a"; "https://b"]%string))
    by compute_done.
  assert (H0 : ssl_setups example_http = 0) by compute_done.
  split; [exact E|]. split; [exact H0|].
  rewrite (proj1 (tls_setup_on_entering_https _ _ _ _ E)), H0.
  compute_done.
Defined.

(** https, then http, then https again, on a new connection: the scheme
    enters https for the first time once, and the setup is made twice. *)
Lemma tls_setup_repeated_after_http :
  set_urls (H := curl_online) EmptyString
    ["https://a"; "http://b"; "https://c"]%string example_http
  = Ret tt (after_set_urls ["https://a"; "http://b"; "https://c"]%string)
  /\ ssl_setups example_http = 0
  /\ ssl_setups (after_set_urls ["https://a"; "http://b"; "https://c"]%string)
     = 2.
Proof. split; [compute_done|]. split; compute_done. Qed.

(* ================================================================= *)
(** ** No assertion in the connection classes *)

Section NoAssert.
Context {curl : LibCurl}.

Lemma no_assert_ret {S A} (a : A) : no_assert (ret (S := S) a).
Proof. intros s. discriminate. Qed.

Lemma no_assert_throw {S A} e : no_assert (throw (S := S) (A := A) e).
Proof. intros s. discriminate. Qed.

Lemma no_assert_get {S} : no_assert (get (S := S)).
Proof. intros s. discriminate. Qed.

Lemma no_assert_modify {S} (f : S -> S) : no_assert (modify f).
Proof. intros s. discriminate. Qed.

Lemma no_assert_bind {S A B} (m : M S A) (k : A -> M S B) :
  no_assert m -> (forall a, no_assert (k a)) -> no_assert (bind m k).
Proof.
  intros Hm Hk s. unfold bind. specialize (Hm s).
  destruct (m s) as [a s'|e s'| |]; try discriminate; [apply Hk|contradiction].
Qed.

Lemma no_assert_zoom {S T A} (proj : S -> option T) upd (m : M T A) :
  no_assert m -> no_assert (zoom proj upd m).
Proof.
  intros Hm s. unfold zoom. destruct (proj s) as [t|]; [|discriminate].
  specialize (Hm t). destruct (m t); try discriminate. contradiction.
Qed.

Lemma no_assert_lock_guard {S A} lock unlock (body : M S A) :
  no_assert lock -> no_assert body -> no_assert (lock_guard lock unlock body).
Proof.
  intros Hl Hb s. unfold lock_guard. specialize (Hl s).
  destruct (lock s) as [[] s1|e s1| |]; try discriminate; [|contradiction].
  specialize (Hb s1). destruct (body s1); try discriminate. contradiction.
Qed.

Lemma no_assert_constructor {S T} (init : T) (body : M T unit) :
  no_assert body -> no_assert (constructor (S := S) init body).
Proof.
  intros Hb s. unfold constructor. specialize (Hb init).
  destruct (body init); try discriminate. contradiction.
Qed.

Lemma no_assert_set_option o p : no_assert (CurlConnectionImpl_.set_option o p).
Proof.
  intros c. unfold CurlConnectionImpl_.set_option.
  destruct (CurlConnectionImpl_._handle c) as [h|]; [|discriminate].
  destruct (curl_easy_setopt h o p); discriminate.
Qed.

Lemma no_assert_perform : no_assert CurlConnectionImpl_.perform.
Proof.
  intros c. unfold CurlConnectionImpl_.perform.
  destruct (CurlConnectionImpl_._handle c); discriminate.
Qed.

End NoAssert.

(** Goals [no_assert m] for a computation built from the calls above. *)
Ltac no_assert_step :=
  first
    [ apply no_assert_ret | apply no_assert_throw | apply no_assert_get
    | apply no_assert_modify | apply no_assert_set_option
    | apply no_assert_perform | apply no_assert_zoom
    | apply no_assert_constructor
    | apply no_assert_bind; [|intros ?]
    | match goal with
      | |- no_assert (if ?b then _ else _) => destruct b
      | |- no_assert (match ?x with _ => _ end) => destruct x
      end ].

Ltac no_assert_all := repeat no_assert_step.

Section NoAssertConnections.
Context {curl : LibCurl}.

Lemma no_assert_impl_execute rhd : no_assert (CurlConnectionImpl_.execute rhd).
Proof. unfold CurlConnectionImpl_.execute. no_assert_all. Qed.

Lemma no_assert_set_method meth : no_assert (HTTPConnection.set_method meth).
Proof.
  unfold HTTPConnection.set_method, HTTPConnection._set_method,
    HTTPConnection.set_option, HTTPConnection.on_pimpl.
  no_assert_all.
Qed.

Lemma no_assert_set_url bundle url : no_assert (HTTPConnection.set_url bundle url).
Proof.
  unfold HTTPConnection.set_url, HTTPConnection.on_pimpl,
    CurlConnectionImpl_.SET_ssl_verify_using_ca_bundle,
    CurlConnectionImpl_.SET_ssl_verify, CurlConnectionImpl_.SET_url.
  no_assert_all.
Qed.

Lemma no_assert_reset_headers : no_assert HTTPConnection.reset_headers.
Proof.
  unfold HTTPConnection.reset_headers, HTTPConnection.on_pimpl,
    CurlConnectionImpl_.RESET_headers.
  no_assert_all.
Qed.

Lemma no_assert_add_headers hs : no_assert (HTTPConnection.add_headers hs).
Proof.
  unfold HTTPConnection.add_headers, HTTPConnection.on_pimpl,
    CurlConnectionImpl_.ADD_headers.
  no_assert_all.
Qed.

Lemma no_assert_set_fields fs : no_assert (HTTPConnection.set_fields fs).
Proof.
  unfold HTTPConnection.set_fields, HTTPConnection.on_pimpl,
    CurlConnectionImpl_.SET_fields, CurlConnectionImpl_.SET_fields_str.
  no_assert_all.
Qed.

Lemma no_assert_set_timeout timeout :
  no_assert (HTTPConnection.set_timeout timeout).
Proof.
  unfold HTTPConnection.set_timeout, HTTPConnection.on_pimpl,
    CurlConnectionImpl_.SET_timeout.
  no_assert_all.
Qed.

Lemma no_assert_execute rhd : no_assert (HTTPConnection.execute rhd).
Proof.
  unfold HTTPConnection.execute, HTTPConnection.on_pimpl.
  apply no_assert_zoom, no_assert_impl_execute.
Qed.

Lemma no_assert_new {S} meth : no_assert (HTTPConnection.new_ (S := S) meth).
Proof.
  unfold HTTPConnection.new_, HTTPConnection._set_method,
    HTTPConnection.set_encoding, HTTPConnection.set_keepalive,
    HTTPConnection.set_option, HTTPConnection.on_pimpl,
    CurlConnectionImpl_.init, CurlConnectionImpl_.SET_encoding,
    CurlConnectionImpl_.SET_keepalive.
  no_assert_all.
Qed.

Lemma no_assert_new_url {S} bundle url meth :
  no_assert (HTTPConnection.new_url (S := S) bundle url meth).
Proof.
  unfold HTTPConnection.new_url. apply no_assert_constructor.
  repeat (apply no_assert_bind; [|intros ?]);
    try apply no_assert_set_url;
    unfold HTTPConnection._set_method, HTTPConnection.set_encoding,
      HTTPConnection.set_keepalive, HTTPConnection.set_option,
      HTTPConnection.on_pimpl, CurlConnectionImpl_.init,
      CurlConnectionImpl_.SET_encoding, CurlConnectionImpl_.SET_keepalive;
    no_assert_all.
Qed.

Lemma no_assert_push_parameters bundle self :
  no_assert (push_parameters bundle self).
Proof.
  unfold push_parameters.
  apply no_assert_bind; [apply no_assert_set_url|intros _].
  apply no_assert_bind; [apply no_assert_reset_headers|intros _].
  apply no_assert_bind;
    [destruct (negb _); [apply no_assert_add_headers|apply no_assert_ret]
    |intros _].
  apply no_assert_bind; [apply no_assert_set_method|intros _].
  destruct (_ && _); [apply no_assert_set_fields|apply no_assert_ret].
Qed.

Lemma no_assert_perform_request rhd self :
  no_assert (perform_request rhd self).
Proof.
  unfold perform_request. apply no_assert_bind;
    [apply no_assert_set_timeout|intros _; apply no_assert_execute].
Qed.

End NoAssertConnections.

(* ================================================================= *)
(** ** The reference counts of the registry *)

Section Counts.
Context {curl : LibCurl}.

Import SharedHTTPConnection.

Lemma open_count_app id l o :
  open_count id (l ++ [o]) = open_count id l + (if bound_to id o then 1 else 0).
Proof. induction l as [|x l IH]; simpl; [lia|]. rewrite IH. lia. Qed.

Lemma open_count_insert id (l : list (option t)) a o o' :
  l !! a = Some o ->
  open_count id (<[a := o']> l) + (if bound_to id o then 1 else 0)
  = open_count id l + (if bound_to id o' then 1 else 0).
Proof.
  revert a. induction l as [|x l IH]; intros [|a] H; try discriminate; simpl in *.
  - injection H as ->. lia.
  - specialize (IH a H). lia.
Qed.

Lemma nconnections_insert j id x g :
  nconnections j (with_contexts (<[id := x]> (contexts g)) g)
  = if decide (j = id) then nref x else nconnections j g.
Proof.
  unfold nconnections. simpl. destruct (decide (j = id)) as [->|Hne].
  - rewrite lookup_insert_eq. reflexivity.
  - rewrite lookup_insert_ne by congruence. reflexivity.
Qed.

Lemma nconnections_delete j id g :
  nconnections j (with_contexts (delete id (contexts g)) g)
  = if decide (j = id) then 0%Z else nconnections j g.
Proof.
  unfold nconnections. simpl. destruct (decide (j = id)) as [->|Hne].
  - rewrite lookup_delete_eq. reflexivity.
  - rewrite lookup_delete_ne by congruence. reflexivity.
Qed.

Lemma entries_ok_insert id x g :
  entries_ok g -> (0 < nref x)%Z -> is_Some (conn x) -> mtx x = Some false ->
  entries_ok (with_contexts (<[id := x]> (contexts g)) g).
Proof.
  intros Hg Hn Hc Hm j ctx. simpl. destruct (decide (j = id)) as [->|Hne].
  - rewrite lookup_insert_eq. intros [= <-]. auto.
  - rewrite lookup_insert_ne by congruence. apply Hg.
Qed.

Lemma entries_ok_delete id g :
  entries_ok g -> entries_ok (with_contexts (delete id (contexts g)) g).
Proof.
  intros Hg j ctx. simpl. destruct (decide (j = id)) as [->|Hne].
  - rewrite lookup_delete_eq. discriminate.
  - rewrite lookup_delete_ne by congruence. apply Hg.
Qed.

(** [incr_ref] and [decr_ref] move the count of their id by one. *)
Lemma incr_ref_counts id g :
  entries_ok g ->
  match incr_ref id g with
  | Ret _ g' =>
      entries_ok g'
      /\ forall j, nconnections j g'
                   = (nconnections j g + if decide (j = id) then 1 else 0)%Z
  | Throw _ _ => False
  | _ => True
  end.
Proof.
  intros Hg. pose proof (incr_ref_inv id g) as H.
  destruct (incr_ref id g) as [[] g'| | |]; try exact H.
  destruct H as (ctx & Hctx & Hconn & ->).
  destruct (Hg id ctx Hctx) as (Hn & _ & Hm). split.
  - apply entries_ok_insert; simpl; auto. lia.
  - intros j. rewrite nconnections_insert. unfold nconnections.
    destruct (decide (j = id)) as [->|]; [rewrite Hctx; reflexivity|lia].
Qed.

Lemma decr_ref_counts id g :
  entries_ok g ->
  match decr_ref id g with
  | Ret _ g' =>
      entries_ok g'
      /\ forall j, nconnections j g'
                   = (nconnections j g - if decide (j = id) then 1 else 0)%Z
  | Throw _ _ => False
  | _ => True
  end.
Proof.
  intros Hg. pose proof (decr_ref_inv id g) as H.
  destruct (decr_ref id g) as [[] g'| | |]; try exact H.
  destruct H as (ctx & Hctx & Hconn & Hpos & ->).
  destruct (Hg id ctx Hctx) as (Hn & _ & Hm).
  destruct (decide (nref ctx = 1%Z)) as [E|E]; split.
  - apply entries_ok_delete, Hg.
  - intros j. rewrite nconnections_delete. unfold nconnections.
    destruct (decide (j = id)) as [->|]; [rewrite Hctx; lia|lia].
  - apply entries_ok_insert; simpl; auto. lia.
  - intros j. rewrite nconnections_insert. unfold nconnections.
    destruct (decide (j = id)) as [->|]; [rewrite Hctx; reflexivity|lia].
Qed.

Lemma incr_ref_asserts id g :
  entries_ok g -> is_Some (contexts g !! id) -> incr_ref id g <> AssertFail.
Proof.
  intros Hg [ctx Hctx]. destruct (Hg id ctx Hctx) as (_ & Hc & _).
  unfold incr_ref. unfold_cpp. rewrite Hctx.
  rewrite bool_decide_eq_true_2 by exact Hc.
  destruct (decide (nref ctx = INT_MAX)); discriminate.
Qed.

Lemma decr_ref_asserts id g :
  entries_ok g -> is_Some (contexts g !! id) -> decr_ref id g <> AssertFail.
Proof.
  intros Hg [ctx Hctx]. destruct (Hg id ctx Hctx) as (Hn & Hc & _).
  rewrite (decr_ref_returns id g ctx Hctx Hc) by lia. discriminate.
Qed.

(** With every entry counting a reference, the ids of the registry are
    those that [nconnections] is positive for. *)
Lemma entry_counted id g :
  entries_ok g -> is_Some (contexts g !! id) <-> (0 < nconnections id g)%Z.
Proof.
  intros Hg. unfold nconnections. split.
  - intros [ctx Hctx]. rewrite Hctx. apply (Hg id ctx Hctx).
  - destruct (contexts g !! id); [eauto|lia].
Qed.

Lemma counts_for_open j x :
  _is_open x = true ->
  Z.of_nat (counts_for j x) = (if decide (j = _id x) then 1 else 0)%Z.
Proof.
  intros H. unfold counts_for, bound_to. rewrite H. simpl.
  destruct (decide (j = _id x)) as [->|Hne].
  - rewrite bool_decide_eq_true_2 by reflexivity. reflexivity.
  - rewrite bool_decide_eq_false_2 by congruence. reflexivity.
Qed.

Lemma counts_for_closed j x : _is_open x = false -> counts_for j x = 0.
Proof. intros H. unfold counts_for, bound_to. rewrite H. reflexivity. Qed.

Lemma counts_for_same j x x' :
  _is_open x' = _is_open x -> _id x' = _id x ->
  counts_for j x' = counts_for j x.
Proof. intros Ho Hi. unfold counts_for, bound_to. rewrite Ho, Hi. reflexivity. Qed.

Lemma static_outcome {A} (m : M globals A) fr :
  static m fr
  = match m (statics fr) with
    | Ret a g' => Ret a (with_statics g' fr)
    | Throw e g' => Throw e (with_statics g' fr)
    | AssertFail => AssertFail
    | Undefined => Undefined
    end.
Proof. reflexivity. Qed.

Lemma accounted_modify_this P (f : t -> t) :
  (forall x, _is_open (f x) = _is_open x /\ _id (f x) = _id x) ->
  accounted P (modify_this f).
Proof.
  intros Hf fr Hg _. unfold modify_this, modify. simpl. split; [exact Hg|].
  intros j. destruct (Hf (this fr)) as [Ho Hi].
  rewrite (counts_for_same j _ _ Ho Hi). reflexivity.
Qed.

Lemma accounted_set_url P url : accounted P (set_url url).
Proof.
  intros fr Hg HP. unfold set_url.
  destruct (negb (regex_search_continuous url PROTO_RX)).
  - split; [exact Hg|reflexivity].
  - apply (accounted_modify_this P (with_url url)); [|exact Hg|exact HP].
    intros x. split; reflexivity.
Qed.

Lemma accounted_close : accounted this_bound close.
Proof.
  intros fr Hg Hb. unfold close, is_closed. unfold bind at 1. unfold get.
  destruct (_is_open (this fr)) eqn:Hopen; simpl.
  - unfold bind. rewrite static_outcome.
    pose proof (decr_ref_counts (_id (this fr)) (statics fr) Hg) as Hd.
    pose proof (decr_ref_asserts (_id (this fr)) (statics fr) Hg (Hb Hopen))
      as Ha.
    destruct (decr_ref (_id (this fr)) (statics fr)) as [[] g'|e g'| |];
      [|destruct Hd|exact (Ha eq_refl)|exact I].
    destruct Hd as [Hg' Hn]. unfold modify_this, modify. simpl.
    split; [exact Hg'|]. intros j.
    rewrite Hn, (counts_for_open j _ Hopen), counts_for_closed by reflexivity.
    lia.
  - split; [exact Hg|reflexivity].
Qed.

Lemma accounted_assign connection :
  accounted (fun fr => this_bound fr /\ bound connection (statics fr))
    (assign connection).
Proof.
  intros fr Hg [Hb Hbc]. unfold assign. unfold bind at 1. unfold get.
  destruct (neq (this fr) connection); [|split; [exact Hg|reflexivity]].
  unfold bind at 1. rewrite static_outcome.
  assert (Hend : forall g',
    entries_ok g' ->
    (forall j, (nconnections j g' + Z.of_nat (counts_for j (this fr))
                = nconnections j (statics fr)
                  + Z.of_nat (counts_for j connection))%Z) ->
    match modify_this (fun _ : t => connection) (with_statics g' fr) with
    | Ret _ fr' | Throw _ fr' =>
        entries_ok (statics fr')
        /\ forall j,
             (nconnections j (statics fr') + Z.of_nat (counts_for j (this fr))
              = nconnections j (statics fr) + Z.of_nat (counts_for j (this fr')))%Z
    | AssertFail => False
    | Undefined => True
    end).
  { intros g' Hg' Hn. unfold modify_this, modify. simpl. split; assumption. }
  destruct (_is_open (this fr)) eqn:Hs, (_is_open connection) eqn:Hc; simpl.
  - (* both open *)
    destruct (bool_decide (_id (this fr) = _id connection)) eqn:Hid; simpl.
    + apply bool_decide_eq_true_1 in Hid. apply Hend; [exact Hg|].
      intros j. rewrite !counts_for_open, Hid by assumption. reflexivity.
    + apply bool_decide_eq_false_1 in Hid. unfold bind at 1.
      pose proof (decr_ref_counts (_id (this fr)) (statics fr) Hg) as Hd.
      pose proof (decr_ref_asserts (_id (this fr)) (statics fr) Hg
                    (Hb Hs)) as Ha.
      destruct (decr_ref (_id (this fr)) (statics fr)) as [[] g1|e g1| |];
        [|destruct Hd|exact (Ha eq_refl)|exact I].
      destruct Hd as [Hg1 Hn1].
      pose proof (incr_ref_counts (_id connection) g1 Hg1) as Hi.
      assert (Hex : is_Some (contexts g1 !! _id connection)).
      { apply (entry_counted _ _ Hg1). rewrite Hn1.
        pose proof (proj1 (entry_counted _ _ Hg) (Hbc Hc)) as Hpos.
        destruct (decide (_id connection = _id (this fr))); [congruence|lia]. }
      pose proof (incr_ref_asserts (_id connection) g1 Hg1 Hex) as Ha1.
      destruct (incr_ref (_id connection) g1) as [[] g2|e g2| |];
        [|destruct Hi|exact (Ha1 eq_refl)|exact I].
      destruct Hi as [Hg2 Hn2]. apply Hend; [exact Hg2|].
      intros j. rewrite Hn2, Hn1, !counts_for_open by assumption. lia.
  - (* open target, closed source *)
    pose proof (decr_ref_counts (_id (this fr)) (statics fr) Hg) as Hd.
    pose proof (decr_ref_asserts (_id (this fr)) (statics fr) Hg
                  (Hb Hs)) as Ha.
    destruct (decr_ref (_id (this fr)) (statics fr)) as [[] g1|e g1| |];
      [|destruct Hd|exact (Ha eq_refl)|exact I].
    destruct Hd as [Hg1 Hn1]. apply Hend; [exact Hg1|].
    intros j.
    rewrite Hn1, (counts_for_open j (this fr) Hs),
      (counts_for_closed j connection Hc).
    lia.
  - (* closed target, open source *)
    pose proof (incr_ref_counts (_id connection) (statics fr) Hg) as Hi.
    pose proof (incr_ref_asserts (_id connection) (statics fr) Hg
                  (Hbc Hc)) as Ha.
    destruct (incr_ref (_id connection) (statics fr)) as [[] g1|e g1| |];
      [|destruct Hi|exact (Ha eq_refl)|exact I].
    destruct Hi as [Hg1 Hn1]. apply Hend; [exact Hg1|].
    intros j.
    rewrite Hn1, (counts_for_open j connection Hc),
      (counts_for_closed j (this fr) Hs).
    lia.
  - (* both closed *)
    rewrite andb_false_r. apply Hend; [exact Hg|].
    intros j. rewrite !counts_for_closed by assumption. reflexivity.
Qed.

Lemma entry_with_conn_ok id ctx c g :
  entries_ok g -> contexts g !! id = Some ctx ->
  entries_ok (entry_with id (with_conn (Some c) ctx) g)
  /\ forall j, nconnections j (entry_with id (with_conn (Some c) ctx) g)
               = nconnections j g.
Proof.
  intros Hg Hctx. destruct (Hg id ctx Hctx) as (Hn & Hc & Hm). split.
  - apply entries_ok_insert; simpl; eauto.
  - intros j. unfold entry_with. rewrite nconnections_insert.
    destruct (decide (j = id)) as [->|]; [|reflexivity].
    unfold nconnections. rewrite Hctx. reflexivity.
Qed.

Lemma accounted_execute rhd : accounted this_bound (execute rhd).
Proof.
  intros [self g] Hg Hb. unfold this_bound in Hb. cbn [this statics] in *.
  destruct (_is_open self) eqn:Hopen.
  - destruct (Hb Hopen) as [ctx Hctx].
    destruct (Hg _ _ Hctx) as (Hn & [c0 Hc0] & Hm).
    rewrite (execute_open rhd self g ctx c0) by assumption.
    pose proof (no_assert_push_parameters (certificate_bundle_path g) self c0)
      as Ha.
    destruct (push_parameters _ self c0) as [[] c5|e c5| |];
      [| |exact (Ha eq_refl)|exact I].
    + pose proof (no_assert_perform_request rhd self c5) as Ha5.
      destruct (perform_request rhd self c5) as [r c7|e c7| |];
        [| |exact (Ha5 eq_refl)|exact I];
        cbn [this statics];
        destruct (entry_with_conn_ok (_id self) ctx c7 g Hg Hctx) as [Hok Hsame];
        (split; [exact Hok|]); intros j; rewrite Hsame;
        rewrite (counts_for_same j self (with_fields [] self)) by reflexivity;
        reflexivity.
    + cbn [this statics].
      destruct (entry_with_conn_ok (_id self) ctx c5 g Hg Hctx) as [Hok Hsame].
      split; [exact Hok|]. intros j. rewrite Hsame. reflexivity.
  - rewrite execute_closed by exact Hopen. split; [exact Hg|reflexivity].
Qed.

Lemma conn_only_on_conn {A} id (m : M HTTPConnection.t A) :
  no_assert m -> conn_only id (on_conn id m).
Proof.
  intros Hm X cs bundle c Hc. unfold on_conn, zoom. simpl.
  rewrite lookup_insert_eq. simpl. rewrite Hc. specialize (Hm c).
  destruct (m c) as [a c'|e c'| |]; [| |exact (Hm eq_refl)|exact I];
    exists c'; unfold with_contexts; simpl; rewrite alter_insert_eq;
    reflexivity.
Qed.

Lemma conn_only_ret {A} id (a : A) : conn_only id (ret a).
Proof.
  intros X cs bundle c Hc. exists c. unfold ret.
  destruct X as [cn mx nr]. simpl in Hc. subst cn. reflexivity.
Qed.

Lemma conn_only_bind {A B} id (m : M globals A) (k : A -> M globals B) :
  conn_only id m -> (forall a, conn_only id (k a)) -> conn_only id (bind m k).
Proof.
  intros Hm Hk X cs bundle c Hc. unfold bind. specialize (Hm X cs bundle c Hc).
  destruct (m _) as [a g1|e g1| |]; try exact Hm.
  destruct Hm as (c1 & ->).
  specialize (Hk a (with_conn (Some c1) X) cs bundle c1 eq_refl).
  destruct (k a _) as [b g2|e g2| |]; try exact Hk;
    destruct Hk as (c2 & ->); exists c2; reflexivity.
Qed.

(** Under the guard of the mutex of the entry, such a computation leaves
    the entry with its count and with the mutex free again. *)
Lemma lock_guard_conn_only {A} id (body : M globals A) g ctx :
  conn_only id body ->
  contexts g !! id = Some ctx -> is_Some (conn ctx) -> mtx ctx = Some false ->
  match lock_guard (mutex_lock id) (mutex_unlock id) body g with
  | Ret _ g' | Throw _ g' =>
      exists c', g' = entry_with id (with_conn (Some c') ctx) g
  | AssertFail => False
  | Undefined => True
  end.
Proof.
  intros Hbody Hctx [c Hc] Hm. unfold lock_guard, mutex_lock. unfold_cpp.
  rewrite Hctx, Hm.
  specialize (Hbody (with_mtx (Some true) ctx) (contexts g)
                (certificate_bundle_path g) c Hc).
  unfold with_contexts at 1.
  destruct (body _) as [a g1|e g1| |]; try exact Hbody;
    destruct Hbody as (c' & ->); exists c';
    unfold mutex_unlock, entry_with, with_contexts; simpl;
    rewrite alter_insert_eq; unfold with_mtx, with_conn; simpl;
    rewrite Hm; reflexivity.
Qed.

Lemma constructor_state {S T} (init : T) (body : M T unit) (s : S) :
  match constructor init body s with
  | Ret _ s' | Throw _ s' => s' = s
  | _ => True
  end.
Proof. unfold constructor. destruct (body init); auto. Qed.

(** The constructor adds one reference to its id when it returns, and
    none when it throws; no assertion fails in it. *)
Lemma new_counts url meth id g :
  entries_ok g ->
  match new_ url meth id g with
  | Ret x g' =>
      entries_ok g' /\ _is_open x = true /\ _id x = id
      /\ forall j, nconnections j g'
                   = (nconnections j g + if decide (j = id) then 1 else 0)%Z
  | Throw _ g' =>
      entries_ok g' /\ forall j, nconnections j g' = nconnections j g
  | AssertFail => False
  | Undefined => True
  end.
Proof.
  intros Hg. unfold new_. unfold bind at 1. unfold get.
  destruct (contexts g !! id) as [ctx|] eqn:Hctx.
  - destruct (Hg id ctx Hctx) as (Hn & Hc & Hm).
    unfold bind at 1. unfold bind at 1. unfold assert_.
    rewrite bool_decide_eq_true_2 by exact Hn.
    pose proof (lock_guard_conn_only id
      (on_conn id (HTTPConnection.set_method meth) ;;
       if decide (url = EmptyString) then ret tt
       else on_conn id (HTTPConnection.set_url (certificate_bundle_path g) url))
      g ctx) as Hl.
    specialize (Hl ltac:(apply conn_only_bind;
                         [apply conn_only_on_conn, no_assert_set_method
                         |intros _; destruct (decide (url = EmptyString));
                          [apply conn_only_ret
                          |apply conn_only_on_conn, no_assert_set_url]])
                  Hctx Hc Hm).
    destruct (lock_guard _ _ _ g) as [a g1|e g1| |]; try exact Hl;
      destruct Hl as (c' & ->);
      destruct (entry_with_conn_ok id ctx c' g Hg Hctx) as [Hok Hsame].
    + unfold bind at 1.
      pose proof (incr_ref_counts id _ Hok) as Hi.
      assert (Hex : is_Some (contexts (entry_with id (with_conn (Some c') ctx) g)
                             !! id)).
      { unfold entry_with. simpl. rewrite lookup_insert_eq. eauto. }
      pose proof (incr_ref_asserts id _ Hok Hex) as Ha.
      destruct (incr_ref id _) as [[] g2|e g2| |];
        [|destruct Hi|exact (Ha eq_refl)|exact I].
      destruct Hi as [Hg2 Hn2]. unfold ret. simpl.
      split; [exact Hg2|]. split; [reflexivity|]. split; [reflexivity|].
      intros j. rewrite Hn2, Hsame. reflexivity.
    + split; [exact Hok|exact Hsame].
  - unfold bind at 1. unfold bind at 1.
    assert (Hnew : forall (mk : M globals HTTPConnection.t),
      no_assert mk ->
      (forall g0, match mk g0 with
                  | Ret _ g1 | Throw _ g1 => g1 = g0
                  | _ => True
                  end) ->
      match
        match
          match mk g with
          | Ret a s' =>
              modify (with_contexts (<[id:=Context_new a]> (contexts g))) s'
          | Throw e s' => Throw e s'
          | AssertFail => AssertFail
          | Undefined => Undefined
          end
        with
        | Ret a s' =>
            (incr_ref id;;
             ret {| _is_open := true; _url := url; _meth := meth;
                    _headers := []; _fields := []; _timeout := 0;
                    _id := id |}) s'
        | Throw e s' => Throw e s'
        | AssertFail => AssertFail
        | Undefined => Undefined
        end
      with
      | Ret x g' =>
          entries_ok g' /\ _is_open x = true /\ _id x = id
          /\ forall j, nconnections j g'
                       = (nconnections j g + if decide (j = id) then 1 else 0)%Z
      | Throw _ g' =>
          entries_ok g' /\ forall j, nconnections j g' = nconnections j g
      | AssertFail => False
      | Undefined => True
      end).
    { intros mk Ha Hmk. specialize (Hmk g). specialize (Ha g).
      destruct (mk g) as [c g1|e g1| |]; [| |exact (Ha eq_refl)|exact I];
        subst g1.
      - unfold modify, bind.
        rewrite (incr_ref_returns id _ (Context_new c));
          [|apply lookup_insert_eq|simpl; eauto|simpl; unfold INT_MAX; lia].
        unfold ret. unfold with_contexts at 1. simpl. rewrite insert_insert_eq.
        split.
        + apply (entries_ok_insert id _ g Hg); simpl; eauto. lia.
        + split; [reflexivity|]. split; [reflexivity|].
          intros j.
          unfold nconnections. simpl.
          destruct (decide (j = id)) as [->|Hne].
          * rewrite lookup_insert_eq, Hctx. reflexivity.
          * rewrite lookup_insert_ne by congruence. lia.
      - split; [exact Hg|reflexivity]. }
    destruct (decide (url = EmptyString)); apply Hnew;
      try (intros g0; apply constructor_state).
    + apply no_assert_new.
    + apply no_assert_new_url.
Qed.

Lemma copy_counts connection g :
  entries_ok g -> bound connection g ->
  match copy connection g with
  | Ret x g' =>
      x = connection /\ entries_ok g'
      /\ forall j, nconnections j g'
                   = (nconnections j g + Z.of_nat (counts_for j connection))%Z
  | Throw _ _ => False
  | AssertFail => False
  | Undefined => True
  end.
Proof.
  intros Hg Hb. unfold copy, bind.
  destruct (_is_open connection) eqn:Hopen.
  - pose proof (incr_ref_counts (_id connection) g Hg) as Hi.
    pose proof (incr_ref_asserts (_id connection) g Hg (Hb Hopen)) as Ha.
    destruct (incr_ref (_id connection) g) as [[] g1|e g1| |];
      [|destruct Hi|exact (Ha eq_refl)|exact I].
    destruct Hi as [Hg1 Hn1]. unfold ret.
    split; [reflexivity|]. split; [exact Hg1|].
    intros j. rewrite Hn1, (counts_for_open j _ Hopen). reflexivity.
  - unfold ret. split; [reflexivity|]. split; [exact Hg|].
    intros j. rewrite (counts_for_closed j _ Hopen). simpl. lia.
Qed.

Lemma close_outcome fr :
  match close fr with
  | Ret _ fr' => _is_open (this fr') = false
  | Throw _ _ => False
  | _ => True
  end.
Proof.
  unfold close, is_closed. unfold bind at 1. unfold get.
  destruct (_is_open (this fr)) eqn:Hopen; simpl; [|exact Hopen].
  unfold bind. rewrite static_outcome.
  pose proof (decr_ref_inv (_id (this fr)) (statics fr)) as Hd.
  destruct (decr_ref (_id (this fr)) (statics fr)) as [[] g'|e g'| |];
    try exact I; [reflexivity|exact Hd].
Qed.

(** An object that is open and bound to [id] is among those that
    [open_count id] counts. *)
Lemma open_count_pos (l : list (option t)) a x :
  l !! a = Some (Some x) -> _is_open x = true -> 0 < open_count (_id x) l.
Proof.
  revert a. induction l as [|o l IH]; intros [|a] H Ho; try discriminate;
    simpl in *.
  - injection H as ->. simpl. rewrite Ho. simpl.
    rewrite bool_decide_eq_true_2 by reflexivity. lia.
  - specialize (IH a H Ho). lia.
Qed.

Lemma open_bound p a x :
  registry_ok p -> objects p !! a = Some (Some x) -> bound x (process p).
Proof.
  intros [Hg Hp] Ha Ho. apply (entry_counted _ _ Hg). rewrite Hp.
  pose proof (open_count_pos _ _ _ Ha Ho). lia.
Qed.

Lemma member_preserves {A} P a (m : M frame A) p :
  accounted P m -> registry_ok p ->
  (forall x, objects p !! a = Some (Some x) ->
             P {| this := x; statics := process p |}) ->
  match member a m p with
  | Ret _ p' | Throw _ p' => registry_ok p'
  | AssertFail => False
  | Undefined => True
  end.
Proof.
  intros Hm [Hg Hp] HP. unfold member, zoom.
  destruct (objects p !! a) as [[x|]|] eqn:Ha; try exact I.
  specialize (Hm {| this := x; statics := process p |} Hg (HP x eq_refl)).
  destruct (m _) as [r fr'|e fr'| |]; try exact Hm;
    destruct Hm as [Hok Hcnt]; (split; [exact Hok|]); intros j;
    specialize (Hcnt j); specialize (Hp j);
    pose proof (open_count_insert j (objects p) a (Some x) (Some (this fr')) Ha)
      as Hins;
    unfold counts_for in Hcnt; simpl in *; lia.
Qed.

Lemma start_ok bundle : registry_ok (start bundle).
Proof.
  split.
  - intros id ctx H. simpl in H. rewrite lookup_empty in H. discriminate.
  - intros id. unfold nconnections. simpl. rewrite lookup_empty. reflexivity.
Qed.

(** Every operation keeps the counts right, whether it returns or throws,
    and no assertion fails in it. *)
Lemma step_preserves o p :
  registry_ok p ->
  match step o p with
  | Ret _ p' | Throw _ p' => registry_ok p'
  | AssertFail => False
  | Undefined => True
  end.
Proof.
  intros Hp.
  assert (Hbound : forall a x, objects p !! a = Some (Some x) ->
                     this_bound {| this := x; statics := process p |}).
  { intros a x Ha. exact (open_bound p a x Hp Ha). }
  destruct o as [url meth id|src|dst src|a|a|a url|a meth|a hs|a fs
                |a timeout|a rhd]; unfold step.
  - destruct Hp as [Hg Hp]. unfold bind, in_process, zoom. simpl.
    pose proof (new_counts url meth id (process p) Hg) as Hn.
    destruct (new_ url meth id (process p)) as [x g'|e g'| |]; try exact Hn.
    + destruct Hn as (Hok & Hopen & Hid & Hcnt). unfold modify. simpl.
      split; [exact Hok|]. intros j. simpl.
      rewrite open_count_app, Hcnt, Hp. unfold bound_to. rewrite Hopen, Hid.
      simpl. destruct (decide (j = id)) as [->|Hne].
      * rewrite bool_decide_eq_true_2 by reflexivity. lia.
      * rewrite bool_decide_eq_false_2 by congruence. lia.
    + destruct Hn as [Hok Hcnt]. split; [exact Hok|]. intros j. simpl.
      rewrite Hcnt. apply Hp.
  - unfold bind at 1. unfold object_at.
    destruct (objects p !! src) as [[connection|]|] eqn:Hs; try exact I.
    pose proof (open_bound p src connection Hp Hs) as Hb.
    destruct Hp as [Hg Hp].
    unfold bind, in_process, zoom. simpl.
    pose proof (copy_counts connection (process p) Hg Hb) as Hn.
    destruct (copy connection (process p)) as [x g'|e g'| |]; try exact Hn;
      [|destruct Hn].
    destruct Hn as (-> & Hok & Hcnt). unfold modify. simpl.
    split; [exact Hok|]. intros j. simpl.
    rewrite open_count_app, Hcnt, Hp. unfold counts_for. lia.
  - unfold bind at 1. unfold object_at.
    destruct (objects p !! src) as [[connection|]|] eqn:Hs; try exact I.
    apply (member_preserves _ _ _ _ (accounted_assign connection) Hp).
    intros x Hx. split; [exact (Hbound dst x Hx)|].
    exact (open_bound p src connection Hp Hs).
  - apply (member_preserves _ _ _ _ accounted_close Hp). apply Hbound.
  - unfold bind, member, zoom, destroy.
    destruct (objects p !! a) as [[x|]|] eqn:Ha; try exact I.
    specialize (Hbound a x Ha). destruct Hp as [Hg Hp].
    pose proof (accounted_close {| this := x; statics := process p |} Hg Hbound)
      as Hc.
    pose proof (close_outcome {| this := x; statics := process p |}) as Hclosed.
    destruct (close _) as [[] fr'|e fr'| |]; try exact Hc; [|destruct Hclosed].
    destruct Hc as [Hok Hcnt]. unfold modify. simpl.
    split; [exact Hok|]. intros j. simpl. rewrite list_insert_insert_eq.
    specialize (Hcnt j). specialize (Hp j).
    pose proof (open_count_insert j (objects p) a (Some x) None Ha) as Hins.
    rewrite (counts_for_closed j _ Hclosed) in Hcnt.
    unfold counts_for in Hcnt. simpl in *. lia.
  - apply (member_preserves _ _ _ _ (accounted_set_url this_bound url) Hp).
    apply Hbound.
  - apply (member_preserves this_bound); [|exact Hp|apply Hbound].
    apply accounted_modify_this. intros x. split; reflexivity.
  - apply (member_preserves this_bound); [|exact Hp|apply Hbound].
    apply accounted_modify_this. intros x. split; reflexivity.
  - apply (member_preserves this_bound); [|exact Hp|apply Hbound].
    apply accounted_modify_this. intros x. split; reflexivity.
  - apply (member_preserves this_bound); [|exact Hp|apply Hbound].
    apply accounted_modify_this. intros x. split; reflexivity.
  - unfold bind.
    pose proof (member_preserves this_bound a (execute rhd) p
                  (accounted_execute rhd) Hp (Hbound a)) as Hm.
    destruct (member a (execute rhd) p) as [r p'|e p'| |]; exact Hm.
Qed.

(** In a program that starts without front-ends no assertion of the
    registry ever fails. *)
Lemma assertions_hold o p : registry_ok p -> step o p <> AssertFail.
Proof.
  intros Hp E. pose proof (step_preserves o p Hp) as H. rewrite E in H.
  exact H.
Qed.

Lemma run_preserves ops : forall p p',
  registry_ok p -> run ops p = Some p' -> registry_ok p'.
Proof.
  induction ops as [|o ops IH]; intros p p' Hp Hrun; simpl in Hrun.
  - injection Hrun as <-. exact Hp.
  - pose proof (step_preserves o p Hp) as Hs.
    destruct (step o p) as [[] p1|e p1| |]; try discriminate;
      exact (IH p1 p' Hs Hrun).
Qed.

(** C1. Whatever front-ends a program constructs, copies, assigns, closes,
    destroys or uses, from a start without front-ends: after every run
    [nconnections id] is the number of objects that are open and bound to
    [id], for every id, and the registry has an entry for [id] exactly when
    that number is positive. *)
Theorem nconnections_counts_open_front_ends ops bundle p :
  run ops (start bundle) = Some p ->
  forall id,
    nconnections id (process p) = Z.of_nat (open_count id (objects p))
    /\ (is_Some (contexts (process p) !! id) <-> 0 < open_count id (objects p)).
Proof.
  intros Hrun id.
  destruct (run_preserves ops _ _ (start_ok bundle) Hrun) as [Hg Hp].
  split; [apply Hp|]. specialize (Hp id). unfold nconnections in Hp. split.
  - intros [ctx Hctx]. rewrite Hctx in Hp.
    destruct (Hg id ctx Hctx) as (Hn & _). lia.
  - intros Hpos. destruct (contexts (process p) !! id); [eauto|lia].
Qed.

End Counts.

Lemma nconnections_counts_open_front_ends_witness :
  run (curl := curl_online) example_ops (start EmptyString)
  = Some example_program
  /\ SharedHTTPConnection.nconnections 1 (process example_program) = 2%Z
  /\ open_count 1 (objects example_program) = 2
  /\ SharedHTTPConnection.contexts (process example_program) !! 2%Z = None
  /\ open_count 2 (objects example_program) = 0.
Proof.
  assert (E : run (curl := curl_online) example_ops (start EmptyString)
              = Some example_program) by compute_done.
  pose proof (nconnections_counts_open_front_ends (curl := curl_online)
                example_ops EmptyString example_program E) as H.
  assert (H1 : open_count 1 (objects example_program) = 2) by compute_done.
  assert (H2 : open_count 2 (objects example_program) = 0) by compute_done.
  split; [exact E|]. split.
  - rewrite (proj1 (H 1%Z)), H1. reflexivity.
  - split; [exact H1|]. split; [|exact H2].
    destruct (SharedHTTPConnection.contexts (process example_program) !! 2%Z)
      as [ctx|] eqn:Hctx; [|reflexivity].
    pose proof (proj1 (proj2 (H 2%Z)) ltac:(rewrite Hctx; eauto)) as Hpos.
    rewrite H2 in Hpos. lia.
Defined.

(* ================================================================= *)
(** ** Closed front-ends *)

Section Closed.
Context {curl : LibCurl}.

Import SharedHTTPConnection.

Lemma close_closed fr : _is_open (this fr) = false -> close fr = Ret tt fr.
Proof.
  intros Hc. unfold close, is_closed. unfold_cpp. rewrite Hc. reflexivity.
Qed.

Lemma close_open self g ctx :
  _is_open self = true ->
  contexts g !! _id self = Some ctx -> is_Some (conn ctx) -> (1 <= nref ctx)%Z ->
  close {| this := self; statics := g |}
  = Ret tt
      {| this := with_is_open false self;
         statics :=
           with_contexts
             (if decide (nref ctx = 1%Z) then delete (_id self) (contexts g)
              else <[_id self := with_nref (nref ctx - 1) ctx]> (contexts g))
             g |}.
Proof.
  intros Ho Hctx Hconn Hpos. unfold close, is_closed. unfold bind at 1.
  unfold get. cbn [this]. rewrite Ho. cbn [negb]. unfold bind.
  rewrite static_outcome. cbn [this statics].
  rewrite (decr_ref_returns _ g ctx Hctx Hconn Hpos). reflexivity.
Qed.

Lemma close_times_closed n fr :
  _is_open (this fr) = false -> close_times n fr = Ret tt fr.
Proof.
  intros Hc. induction n as [|n IH]; [reflexivity|].
  simpl. unfold bind. rewrite (close_closed fr Hc). exact IH.
Qed.

Lemma stays_closed_modify_this (f : t -> t) :
  (forall x, _is_open (f x) = _is_open x) -> stays_closed (modify_this f).
Proof.
  intros Hf fr Hc. unfold modify_this, modify. simpl. rewrite Hf. exact Hc.
Qed.

Lemma stays_closed_set_url url : stays_closed (set_url url).
Proof.
  intros fr Hc. unfold set_url.
  destruct (negb (regex_search_continuous url PROTO_RX)); [exact Hc|].
  apply stays_closed_modify_this; [reflexivity|exact Hc].
Qed.

Lemma stays_closed_close : stays_closed close.
Proof. intros fr Hc. rewrite (close_closed fr Hc). exact Hc. Qed.

Lemma stays_closed_execute rhd : stays_closed (execute rhd).
Proof. intros fr Hc. rewrite (execute_closed rhd fr Hc). exact Hc. Qed.

(** Assignment gives the object the value of its source, open or not. *)
Lemma assign_is_open connection fr :
  match assign connection fr with
  | Ret _ fr' => _is_open (this fr') = _is_open connection
  | Throw _ _ => False
  | _ => True
  end.
Proof.
  unfold assign. unfold bind at 1. unfold get.
  destruct (neq (this fr) connection) eqn:Hne.
  - unfold bind at 1. rewrite static_outcome.
    assert (Hs : forall (m : M globals unit),
      (forall g, match m g with Throw _ _ => False | _ => True end) ->
      match
        match
          match m (statics fr) with
          | Ret a g' => Ret a (with_statics g' fr)
          | Throw e g' => Throw e (with_statics g' fr)
          | AssertFail => AssertFail
          | Undefined => Undefined
          end
        with
        | Ret _ s' => modify_this (fun _ : t => connection) s'
        | Throw e s' => Throw e s'
        | AssertFail => AssertFail
        | Undefined => Undefined
        end
      with
      | Ret _ fr' => _is_open (this fr') = _is_open connection
      | Throw _ _ => False
      | _ => True
      end).
    { intros m Hm. specialize (Hm (statics fr)).
      destruct (m (statics fr)); try exact I; [reflexivity|exact Hm]. }
    apply Hs. intros g.
    assert (Hi : forall id, match incr_ref id g with
                            | Throw _ _ => False | _ => True end).
    { intros id. pose proof (incr_ref_inv id g) as H.
      destruct (incr_ref id g); try exact I. exact H. }
    assert (Hd : forall id g0, match decr_ref id g0 with
                               | Throw _ _ => False | _ => True end).
    { intros id g0. pose proof (decr_ref_inv id g0) as H.
      destruct (decr_ref id g0); try exact I. exact H. }
    destruct (negb (bool_decide (_is_open (this fr) = _is_open connection))).
    + destruct (_is_open connection); [apply Hi|apply Hd].
    + destruct (negb (bool_decide (_id (this fr) = _id connection))
                && _is_open (this fr)); [|exact I].
      unfold bind. specialize (Hd (_id (this fr)) g).
      destruct (decr_ref (_id (this fr)) g) as [[] g1| | |]; try exact I;
        [|exact Hd].
      pose proof (incr_ref_inv (_id connection) g1) as H.
      destruct (incr_ref (_id connection) g1); try exact I. exact H.
  - unfold ret. unfold neq in Hne. apply negb_false_iff, eq_true_iff in Hne.
    rewrite Hne. reflexivity.
Qed.

Lemma stays_closed_assign connection :
  _is_open connection = false -> stays_closed (assign connection).
Proof.
  intros Hc fr _. pose proof (assign_is_open connection fr) as H.
  destruct (assign connection fr); try exact I; [|destruct H].
  rewrite H. exact Hc.
Qed.

Lemma member_same {A} a (m : M frame A) p x :
  objects p !! a = Some (Some x) -> _is_open x = false -> stays_closed m ->
  match member a m p with
  | Ret _ p' | Throw _ p' => is_open_at a p' = false
  | _ => True
  end.
Proof.
  intros Ha Hc Hm. unfold member, zoom. rewrite Ha.
  specialize (Hm {| this := x; statics := process p |} Hc).
  apply lookup_lt_Some in Ha.
  destruct (m _) as [r fr'|e fr'| |]; try exact I;
    unfold is_open_at; simpl; rewrite list_lookup_insert_eq by exact Ha;
    exact Hm.
Qed.

Lemma member_other {A} a b (m : M frame A) p :
  a <> b ->
  match member b m p with
  | Ret _ p' | Throw _ p' => is_open_at a p' = is_open_at a p
  | _ => True
  end.
Proof.
  intros Hne. unfold member, zoom.
  destruct (objects p !! b) as [[y|]|]; try exact I.
  destruct (m _) as [r fr'|e fr'| |]; try exact I;
    unfold is_open_at; simpl; rewrite list_lookup_insert_ne by congruence;
    reflexivity.
Qed.

Lemma member_closed {A} a b (m : M frame A) p x :
  objects p !! a = Some (Some x) -> _is_open x = false -> stays_closed m ->
  match member b m p with
  | Ret _ p' | Throw _ p' => is_open_at a p' = false
  | _ => True
  end.
Proof.
  intros Ha Hc Hm. destruct (decide (a = b)) as [<-|Hne].
  - exact (member_same a m p x Ha Hc Hm).
  - pose proof (member_other a b m p Hne) as H.
    destruct (member b m p); try exact I; rewrite H; unfold is_open_at;
      rewrite Ha; exact Hc.
Qed.

(** A closed front-end is open after a step only when the step assigns to
    it from an open one. *)
Lemma step_closed o p a x :
  objects p !! a = Some (Some x) -> _is_open x = false ->
  (forall src y, o = op_assign a src -> objects p !! src = Some (Some y) ->
                 _is_open y = false) ->
  match step o p with
  | Ret _ p' | Throw _ p' => is_open_at a p' = false
  | _ => True
  end.
Proof.
  intros Ha Hc Hsrc.
  assert (Hat : is_open_at a p = false) by (unfold is_open_at; rewrite Ha; exact Hc).
  assert (Happ : forall y, is_open_at a (with_objects (objects p ++ [y]) p) = false).
  { intros y. unfold is_open_at. simpl.
    rewrite lookup_app_l by (apply lookup_lt_Some in Ha; exact Ha).
    rewrite Ha. exact Hc. }
  destruct o as [url meth id|src|dst src|b|b|b url|b meth|b hs|b fs
                |b timeout|b rhd]; unfold step.
  - unfold bind, in_process, zoom. simpl.
    destruct (new_ url meth id (process p)) as [y g'|e g'| |]; try exact I.
    + unfold modify. unfold is_open_at. simpl.
      rewrite lookup_app_l by (apply lookup_lt_Some in Ha; exact Ha).
      rewrite Ha. exact Hc.
    + unfold is_open_at. simpl. rewrite Ha. exact Hc.
  - unfold bind at 1. unfold object_at.
    destruct (objects p !! src) as [[connection|]|]; try exact I.
    unfold bind, in_process, zoom. simpl.
    destruct (copy connection (process p)) as [y g'|e g'| |]; try exact I.
    + unfold modify. unfold is_open_at. simpl.
      rewrite lookup_app_l by (apply lookup_lt_Some in Ha; exact Ha).
      rewrite Ha. exact Hc.
    + unfold is_open_at. simpl. rewrite Ha. exact Hc.
  - unfold bind at 1. unfold object_at.
    destruct (objects p !! src) as [[connection|]|] eqn:Hs; try exact I.
    destruct (decide (a = dst)) as [<-|Hne].
    + apply (member_same a _ p x Ha Hc). apply stays_closed_assign.
      exact (Hsrc src connection eq_refl Hs).
    + pose proof (member_other a dst (assign connection) p Hne) as H.
      destruct (member dst (assign connection) p); try exact I;
        rewrite H; exact Hat.
  - exact (member_closed a b _ p x Ha Hc stays_closed_close).
  - unfold bind.
    pose proof (member_closed a b _ p x Ha Hc stays_closed_close) as H.
    unfold destroy.
    destruct (member b close p) as [[] p1|e p1| |]; try exact I; [|exact H].
    unfold modify, is_open_at in *. simpl.
    destruct (decide (a = b)) as [<-|Hne].
    + destruct (objects p1 !! a) as [o|] eqn:Ho.
      * rewrite list_lookup_insert_eq by (apply lookup_lt_Some in Ho; exact Ho).
        reflexivity.
      * rewrite list_insert_ge by (apply lookup_ge_None_1; exact Ho).
        rewrite Ho. reflexivity.
    + rewrite list_lookup_insert_ne by congruence. exact H.
  - exact (member_closed a b _ p x Ha Hc (stays_closed_set_url url)).
  - apply (member_closed a b _ p x Ha Hc).
    apply stays_closed_modify_this. reflexivity.
  - apply (member_closed a b _ p x Ha Hc).
    apply stays_closed_modify_this. reflexivity.
  - apply (member_closed a b _ p x Ha Hc).
    apply stays_closed_modify_this. reflexivity.
  - apply (member_closed a b _ p x Ha Hc).
    apply stays_closed_modify_this. reflexivity.
  - unfold bind.
    pose proof (member_closed a b _ p x Ha Hc (stays_closed_execute rhd)) as H.
    destruct (member b (execute rhd) p); exact H.
Qed.

(** Assignment from an open front-end leaves its target open. *)
Lemma step_assign_opens p dst src y :
  objects p !! src = Some (Some y) -> _is_open y = true ->
  match step (op_assign dst src) p with
  | Ret _ p' => is_open_at dst p' = true
  | Throw _ _ => False
  | _ => True
  end.
Proof.
  intros Hs Ho. unfold step. unfold bind at 1. unfold object_at. rewrite Hs.
  unfold member, zoom.
  destruct (objects p !! dst) as [[x|]|] eqn:Hd; try exact I.
  pose proof (assign_is_open y {| this := x; statics := process p |}) as H.
  destruct (assign y _) as [[] fr'|e fr'| |]; try exact H.
  unfold is_open_at. simpl.
  rewrite list_lookup_insert_eq by (apply lookup_lt_Some in Hd; exact Hd).
  rewrite H. exact Ho.
Qed.

(** C7. [close] on a closed front-end changes nothing; on an open one it
    takes one reference from the entry of the id (the entry is erased with
    its last reference) and marks the front-end closed; any number of
    further calls change nothing; [execute] on a closed front-end throws
    [CurlException] and changes nothing; a closed front-end stays closed
    under every operation of a program but one: assignment from an open
    front-end, which opens it. *)
Theorem close_and_closed_front_ends :
  (forall fr, _is_open (this fr) = false -> close fr = Ret tt fr)
  /\ (forall self g ctx,
        _is_open self = true ->
        contexts g !! _id self = Some ctx -> is_Some (conn ctx) ->
        (1 <= nref ctx)%Z ->
        close {| this := self; statics := g |}
        = Ret tt
            {| this := with_is_open false self;
               statics :=
                 with_contexts
                   (if decide (nref ctx = 1%Z)
                    then delete (_id self) (contexts g)
                    else <[_id self := with_nref (nref ctx - 1) ctx]>
                           (contexts g))
                   g |})
  /\ (forall fr fr' n,
        close fr = Ret tt fr' ->
        _is_open (this fr') = false /\ close_times n fr' = Ret tt fr')
  /\ (forall rhd fr,
        _is_open (this fr) = false ->
        execute rhd fr
        = Throw (CurlException "connection has been closed") fr)
  /\ (forall o p a x,
        objects p !! a = Some (Some x) -> _is_open x = false ->
        (forall src y,
           o = op_assign a src -> objects p !! src = Some (Some y) ->
           _is_open y = false) ->
        match step o p with
        | Ret _ p' | Throw _ p' => is_open_at a p' = false
        | _ => True
        end)
  /\ (forall p dst src y,
        objects p !! src = Some (Some y) -> _is_open y = true ->
        match step (op_assign dst src) p with
        | Ret _ p' => is_open_at dst p' = true
        | Throw _ _ => False
        | _ => True
        end).
Proof.
  split; [exact close_closed|]. split; [exact close_open|]. split.
  - intros fr fr' n H. pose proof (close_outcome fr) as Hc. rewrite H in Hc.
    split; [exact Hc|]. exact (close_times_closed n fr' Hc).
  - split; [exact execute_closed|].
    split; [exact step_closed|exact step_assign_opens].
Qed.

End Closed.

Lemma close_and_closed_front_ends_witness :
  SharedHTTPConnection._is_open example_open = true
  /\ SharedHTTPConnection.nconnections 1 (process example_program) = 2%Z
  /\ (exists fr,
        SharedHTTPConnection.close
          {| SharedHTTPConnection.this := example_open;
             SharedHTTPConnection.statics := process example_program |}
        = Ret tt fr
        /\ SharedHTTPConnection._is_open (SharedHTTPConnection.this fr) = false
        /\ SharedHTTPConnection.nconnections 1 (SharedHTTPConnection.statics fr)
           = 1%Z
        /\ close_times 3 fr = Ret tt fr
        /\ SharedHTTPConnection.execute (curl := curl_online) true fr
           = Throw (CurlException "connection has been closed") fr)
  /\ is_open_at 0 example_program = false
  /\ match step (curl := curl_online) (op_execute 0 true) example_program with
     | Ret _ p' | Throw _ p' => is_open_at 0 p' = false
     | _ => True
     end.
Proof.
  destruct (close_and_closed_front_ends (curl := curl_online))
    as (_ & Hopen & Hagain & Hexec & Hstay & _).
  assert (Ho : SharedHTTPConnection._is_open example_open = true)
    by compute_done.
  assert (Hn : SharedHTTPConnection.nconnections 1 (process example_program)
               = 2%Z) by compute_done.
  split; [exact Ho|]. split; [exact Hn|]. split.
  - destruct (SharedHTTPConnection.contexts (process example_program)
                !! SharedHTTPConnection._id example_open) as [ctx|] eqn:Hctx;
      [|exfalso; revert Hctx; compute_done].
    assert (Hc : is_Some (SharedHTTPConnection.conn ctx)).
    { revert Hctx. vm_compute. intros [= <-]. eauto. }
    assert (Hr : SharedHTTPConnection.nref ctx = 2%Z).
    { revert Hctx. vm_compute. intros [= <-]. reflexivity. }
    pose proof (Hopen example_open (process example_program) ctx Ho Hctx Hc
                  ltac:(rewrite Hr; lia)) as Hclose.
    eexists. split; [exact Hclose|].
    destruct (Hagain _ _ 3 Hclose) as [Hclosed Htimes].
    split; [exact Hclosed|]. split.
    + unfold SharedHTTPConnection.nconnections. cbn [SharedHTTPConnection.statics].
      rewrite Hr. simpl.
      replace (SharedHTTPConnection._id example_open) with 1%Z by compute_done.
      rewrite lookup_insert_eq. reflexivity.
    + split; [exact Htimes|]. exact (Hexec true _ Hclosed).
  - assert (Hat : is_open_at 0 example_program = false) by compute_done.
    split; [exact Hat|].
    destruct (objects example_program !! 0) as [[x|]|] eqn:Hx;
      [|exfalso; revert Hx; compute_done|exfalso; revert Hx; compute_done].
    apply (Hstay (op_execute 0 true) example_program 0 x Hx).
    + unfold is_open_at in Hat. rewrite Hx in Hat. exact Hat.
    + intros src y [=].
Defined.

(** The first front-end of the example is closed; assigned from the second,
    which is open, it is open again. *)
Lemma assignment_reopens_closed_front_end :
  is_open_at 0 example_program = false
  /\ is_open_at 1 example_program = true
  /\ step (curl := curl_online) (op_assign 0 1) example_program
     = Ret tt example_reopened
  /\ is_open_at 0 example_reopened = true.
Proof.
  split; [compute_done|]. split; [compute_done|].
  split; [compute_done|compute_done].
Qed.

(* ================================================================= *)
(** ** Form fields in general *)

Section FieldsInGeneral.

Lemma contains_app c (a b : string) :
  contains c (a +:+ b) = contains c a || contains c b.
Proof.
  induction a as [|x a IH]; [reflexivity|].
  rewrite append_cons. simpl. rewrite IH, orb_assoc. reflexivity.
Qed.

Lemma c_str_plain s : contains zero s = false -> c_str s = s.
Proof.
  induction s as [|a s IH]; simpl; [reflexivity|].
  intros H. apply orb_false_iff in H as [Ha Hs]. rewrite Ha, (IH Hs).
  reflexivity.
Qed.

Lemma erase_last_app (a s : string) :
  s <> EmptyString -> erase_last (a +:+ s) = a +:+ erase_last s.
Proof.
  intros Hs. induction a as [|x a IH]; [reflexivity|].
  rewrite !append_cons. simpl. rewrite IH.
  destruct (a +:+ s) eqn:E; [|reflexivity].
  destruct a; [|discriminate]. contradiction.
Qed.

Lemma fields_stream_cons f rest :
  fields_stream (f :: rest)
  = (fst f +:+ String "=" (snd f)) +:+ String "&" (fields_stream rest).
Proof. simpl. rewrite append_assoc. reflexivity. Qed.

(** The string of a list that is not empty, once the last '&' is erased:
    the segments with one '&' between two of them. *)
Lemma erase_last_stream f rest :
  erase_last (fields_stream (f :: rest))
  = match rest with
    | [] => fst f +:+ String "=" (snd f)
    | _ => (fst f +:+ String "=" (snd f))
           +:+ String "&" (erase_last (fields_stream rest))
    end.
Proof.
  rewrite fields_stream_cons, erase_last_app by discriminate.
  destruct rest as [|g rest].
  - simpl. clear. induction (fst f +:+ String "=" (snd f)) as [|x a IH];
      [reflexivity|].
    rewrite append_cons, IH. reflexivity.
  - rewrite (fields_stream_cons g rest). simpl.
    destruct ((fst g +:+ String "=" (snd g))
              +:+ String "&" (fields_stream rest)) eqn:E; [|reflexivity].
    destruct (fst g +:+ String "=" (snd g)); discriminate.
Qed.

Lemma plain_field_parts f :
  plain_field f = true ->
  contains "&" (fst f) = false /\ contains zero (fst f) = false
  /\ contains "=" (fst f) = false
  /\ contains "&" (snd f) = false /\ contains zero (snd f) = false.
Proof.
  unfold plain_field, plain_key, plain_value.
  rewrite !andb_true_iff, !negb_true_iff. tauto.
Qed.

Lemma segment_free c f :
  contains c (fst f) = false -> contains c (snd f) = false ->
  Ascii.eqb "=" c = false ->
  contains c (fst f +:+ String "=" (snd f)) = false.
Proof.
  intros Hk Hv Hc. rewrite contains_app. cbn [contains].
  rewrite Hk, Hv, Hc. reflexivity.
Qed.

Lemma fields_str_to_map_segment f :
  plain_field f = true ->
  fields_str_to_map (fst f +:+ String "=" (snd f)) = [f].
Proof.
  intros H. apply plain_field_parts in H as (Hk & _ & Hke & Hv & _).
  unfold fields_str_to_map.
  rewrite fields_loop_last by (apply segment_free; auto).
  unfold emplace_segment.
  destruct (decide (fst f +:+ String "=" (snd f) = EmptyString)) as [E|_].
  - destruct (fst f); discriminate.
  - rewrite (find_char_first "=" _ _ Hke). destruct f; reflexivity.
Qed.

Lemma joined_round_trip rest : forall f,
  forallb plain_field (f :: rest) = true ->
  fields_str_to_map (erase_last (fields_stream (f :: rest))) = f :: rest
  /\ contains zero (erase_last (fields_stream (f :: rest))) = false.
Proof.
  induction rest as [|g rest IH]; intros f H;
    rewrite erase_last_stream; simpl in H;
    apply andb_true_iff in H as [Hf Hrest].
  - split; [exact (fields_str_to_map_segment f Hf)|].
    apply plain_field_parts in Hf as (_ & Hk & _ & _ & Hv).
    apply segment_free; auto.
  - destruct (IH g Hrest) as [Hmap Hnul].
    rewrite fields_str_to_map_amp, Hmap, (fields_str_to_map_segment f Hf).
    split; [reflexivity|].
    rewrite contains_app. cbn [contains]. rewrite Hnul.
    apply plain_field_parts in Hf as (_ & Hk & _ & _ & Hv).
    rewrite (segment_free zero f Hk Hv eq_refl). reflexivity.
Qed.

Lemma written_fields_read_back (fields : list (string * string)) :
  forallb plain_field fields = true ->
  fields_str_to_map (pairs_to_fields_str fields) = fields.
Proof.
  intros H. destruct fields as [|f rest]; [reflexivity|].
  destruct (joined_round_trip rest f H) as [Hmap Hnul].
  unfold pairs_to_fields_str.
  destruct (decide (fields_stream (f :: rest) = EmptyString)) as [E|_].
  - rewrite fields_stream_cons in E.
    destruct (fst f +:+ String "=" (snd f)); discriminate.
  - rewrite (c_str_plain _ Hnul). exact Hmap.
Qed.

(** X1. Writing a list of pairs as a fields string and reading the string
    back gives the list again, whenever no key holds '&', '=' or NUL and
    no value holds '&' or NUL. *)
Theorem fields_round_trip (fields : list (string * string)) :
  forallb plain_field fields = true ->
  fields_str_to_map (pairs_to_fields_str fields) = fields.
Proof. apply written_fields_read_back. Qed.

Lemma emplace_segment_plain seg res :
  contains "&" seg = false -> contains zero seg = false ->
  forallb plain_field res = true ->
  forallb plain_field (emplace_segment seg res) = true.
Proof.
  intros Hamp Hnul Hres. unfold emplace_segment.
  destruct (decide (seg = EmptyString)); [exact Hres|].
  destruct (find_char_split "=" seg) as [Hk Hsplit].
  destruct (find_char "=" seg) as [k [|x v]]; [exact Hres|].
  simpl in Hk, Hsplit. destruct Hsplit as [[E _]|(q & E & ->)]; [discriminate|].
  injection E as -> ->.
  rewrite contains_app in Hamp, Hnul. simpl in Hamp, Hnul.
  apply orb_false_iff in Hamp as [Hka Hva], Hnul as [Hkn Hvn].
  rewrite forallb_app, Hres. simpl.
  unfold plain_field, plain_key, plain_value. simpl.
  rewrite Hka, Hkn, Hk, Hva, Hvn. reflexivity.
Qed.

Lemma fields_loop_plain b res :
  contains zero b = false -> forallb plain_field res = true ->
  forallb plain_field (fields_loop b res) = true.
Proof.
  funelim (fields_loop b res); intros Hnul Hres;
    destruct (find_char_split "&" b) as [Hfree Hsplit];
    rewrite Heq in Hfree, Hsplit; simpl in Hfree, Hsplit.
  - destruct Hsplit as [[_ ->]|(q & Hq & _)]; [|discriminate].
    apply emplace_segment_plain; assumption.
  - destruct Hsplit as [[Hq _]|(q & Hq & ->)]; [discriminate|].
    injection Hq as -> ->.
    rewrite contains_app in Hnul. simpl in Hnul.
    apply orb_false_iff in Hnul as [Hs Hq].
    apply H; [exact Hq|]. apply emplace_segment_plain; assumption.
Qed.

(** X2. What [fields_str_to_map] reads from a string without NUL are
    pairs that the fields string carries unchanged; so writing them and
    reading again gives the same pairs: the first reading has dropped all
    that a second one would drop. *)
Theorem fields_str_to_map_normal (fstr : string) :
  contains zero fstr = false ->
  forallb plain_field (fields_str_to_map fstr) = true
  /\ fields_str_to_map (pairs_to_fields_str (fields_str_to_map fstr))
     = fields_str_to_map fstr.
Proof.
  intros H.
  assert (Hp : forallb plain_field (fields_str_to_map fstr) = true)
    by (apply fields_loop_plain; [exact H|reflexivity]).
  split; [exact Hp|]. apply written_fields_read_back, Hp.
Qed.

(** X3. Nothing is escaped: a value that holds '&' is written as it is,
    and the string is the one of the list in which that value is cut into
    a value and a further pair; read back, it gives that longer list. *)
Theorem fields_not_escaped k v1 k2 v2 rest :
  pairs_to_fields_str ((k, v1 +:+ "&" +:+ k2 +:+ "=" +:+ v2) :: rest)
  = pairs_to_fields_str ((k, v1) :: (k2, v2) :: rest)
  /\ (forallb plain_field ((k, v1) :: (k2, v2) :: rest) = true ->
      fields_str_to_map
        (pairs_to_fields_str ((k, v1 +:+ "&" +:+ k2 +:+ "=" +:+ v2) :: rest))
      = (k, v1) :: (k2, v2) :: rest).
Proof.
  assert (E : pairs_to_fields_str
                ((k, v1 +:+ "&" +:+ k2 +:+ "=" +:+ v2) :: rest)
              = pairs_to_fields_str ((k, v1) :: (k2, v2) :: rest)).
  { unfold pairs_to_fields_str. simpl. rewrite !append_assoc. reflexivity. }
  split; [exact E|]. intros H. rewrite E. apply written_fields_read_back, H.
Qed.

End FieldsInGeneral.

Lemma fields_round_trip_witness :
  forallb plain_field [("symbol", "A=B"); ("", ""); ("q", "1 2")]%string = true
  /\ fields_str_to_map
       (pairs_to_fields_str [("symbol", "A=B"); ("", ""); ("q", "1 2")]%string)
     = [("symbol", "A=B"); ("", ""); ("q", "1 2")]%string.
Proof.
  split; [reflexivity|]. apply fields_round_trip. reflexivity.
Defined.

Lemma fields_str_to_map_normal_witness :
  contains zero "a=1&&junk&=x&b=2=3&" = false
  /\ fields_str_to_map "a=1&&junk&=x&b=2=3&"
     = [("a", "1"); ("", "x"); ("b", "2=3")]%string
  /\ fields_str_to_map
       (pairs_to_fields_str (fields_str_to_map "a=1&&junk&=x&b=2=3&"))
     = fields_str_to_map "a=1&&junk&=x&b=2=3&".
Proof.
  split; [reflexivity|]. split.
  - unfold fields_str_to_map. repeat (rewrite fields_loop_turn; simpl).
    reflexivity.
  - apply (fields_str_to_map_normal "a=1&&junk&=x&b=2=3&"). reflexivity.
Defined.

Lemma fields_not_escaped_witness :
  forallb plain_field [("a", "1"); ("admin", "yes")]%string = true
  /\ fields_str_to_map (pairs_to_fields_str [("a", "1&admin=yes")]%string)
     = [("a", "1"); ("admin", "yes")]%string.
Proof.
  split; [reflexivity|].
  apply (proj2 (fields_not_escaped "a" "1" "admin" "yes" [])). reflexivity.
Defined.

(* ================================================================= *)
(** ** Headers: [ADD_headers], [GET_headers], [header_list_to_map] *)

Section Headers.
Context {curl : LibCurl}.

Import CurlConnectionImpl_.

Lemma length_app (a b : string) :
  String.length (a +:+ b) = String.length a + String.length b.
Proof. induction a as [|x a IH]; [reflexivity|]. rewrite append_cons. simpl. lia. Qed.

Lemma substring_all s : String.substring 0 (String.length s) s = s.
Proof. induction s as [|x s IH]; simpl; [reflexivity|]. rewrite IH. reflexivity. Qed.

Lemma substring_app_l (a b : string) :
  String.substring 0 (String.length a) (a +:+ b) = a.
Proof.
  induction a as [|x a IH]; [destruct b; reflexivity|].
  rewrite append_cons. simpl. rewrite IH. reflexivity.
Qed.

Lemma substring_app_r (a b : string) n m :
  String.substring (String.length a + n) m (a +:+ b) = String.substring n m b.
Proof. induction a as [|x a IH]; [reflexivity|]. rewrite append_cons. exact IH. Qed.

(** In a name followed by ": ", the first ": " is the one that follows
    the name, unless the name holds one. *)
Lemma find_str_after_name k v :
  find_str ": " k = None ->
  find_str ": " (k +:+ String ":" (String " " v)) = Some (String.length k).
Proof.
  induction k as [|a k IH]; intros H.
  - simpl. rewrite prefix_empty_l. reflexivity.
  - rewrite append_cons. cbn [find_str] in *.
    destruct (String.prefix ": " (String a k)) eqn:Hp; [discriminate|].
    destruct (find_str ": " k) eqn:Hk; [discriminate|].
    rewrite (IH eq_refl).
    assert (Hp' : String.prefix ": " (String a (k +:+ String ":" (String " " v)))
                  = false).
    { rewrite prefix_cons in *. destruct (Ascii.eqb a ":"); [|reflexivity].
      simpl in *. destruct k as [|b k]; [reflexivity|].
      rewrite append_cons. rewrite prefix_cons in *.
      destruct (Ascii.eqb b " "); [|reflexivity].
      rewrite prefix_empty_l in Hp. discriminate. }
    rewrite Hp'. reflexivity.
Qed.

Lemma header_line_plain h :
  plain_header h = true ->
  header_line h = fst h +:+ String ":" (String " " (snd h)).
Proof.
  unfold plain_header. rewrite !andb_true_iff, !negb_true_iff.
  intros [[Hk Hv] _]. unfold header_line. apply c_str_plain.
  rewrite contains_app. cbn [contains]. rewrite Hk, Hv. reflexivity.
Qed.

Lemma header_name_value_line h :
  plain_header h = true -> header_name_value (header_line h) = Some h.
Proof.
  intros H. pose proof (header_line_plain h H) as Hl.
  unfold header_name_value. cbv zeta. unfold header_line at 1 2 3.
  rewrite c_str_idempotent. fold (header_line h). rewrite Hl.
  unfold plain_header in H. rewrite !andb_true_iff in H.
  destruct H as [_ Hf]. apply bool_decide_eq_true_1 in Hf.
  rewrite (find_str_after_name _ _ Hf), substring_app_l.
  unfold string_from. rewrite length_app, substring_app_r. simpl.
  replace (String.length (fst h) + S (S (String.length (snd h)))
           - (String.length (fst h) + 2)) with (String.length (snd h)) by lia.
  rewrite substring_all. destruct h; reflexivity.
Qed.

Lemma headers_of_list_app l1 l2 r1 r2 :
  headers_of_list l1 = Some r1 -> headers_of_list l2 = Some r2 ->
  headers_of_list (l1 ++ l2) = Some (r1 ++ r2).
Proof.
  revert r1. induction l1 as [|d l1 IH]; intros r1 H1 H2; simpl in *.
  - injection H1 as <-. exact H2.
  - destruct (header_name_value d); [|discriminate].
    destruct (headers_of_list l1) as [r|]; [|discriminate].
    injection H1 as <-. rewrite (IH r eq_refl H2). reflexivity.
Qed.

Lemma headers_of_list_lines hs :
  forallb plain_header hs = true ->
  headers_of_list (map header_line hs) = Some hs.
Proof.
  induction hs as [|h hs IH]; intros H; simpl in *; [reflexivity|].
  apply andb_true_iff in H as [Hh Hhs].
  rewrite (header_name_value_line h Hh), (IH Hhs). reflexivity.
Qed.

Lemma headers_of_list_malformed l d :
  In d l -> header_name_value d = None -> headers_of_list l = None.
Proof.
  induction l as [|x l IH]; intros Hin Hd; [destruct Hin|].
  destruct Hin as [->|Hin]; simpl.
  - rewrite Hd. reflexivity.
  - rewrite (IH Hin Hd). destruct (header_name_value x); reflexivity.
Qed.

(** The list after [ADD_headers], when it returns and when libcurl refuses
    the list. *)
Lemma ADD_headers_header hs c :
  match ADD_headers hs c with
  | Ret _ c' => _header c' = _header c ++ map header_line hs
  | Throw e c' =>
      (_handle c = None /\ c' = c)
      \/ _header c' = _header c ++ map header_line hs
  | _ => True
  end.
Proof.
  unfold ADD_headers, bind, get.
  destruct (_handle c) as [h|] eqn:Hh; [|left; split; reflexivity].
  destruct hs as [|x hs]; [simpl; rewrite app_nil_r; reflexivity|].
  unfold modify, set_option. cbn [_handle with_header]. rewrite Hh.
  destruct (curl_easy_setopt h _ _); [reflexivity|right; reflexivity].
Qed.

Lemma GET_headers_of c :
  GET_headers c
  = match headers_of_list (_header c) with
    | Some headers => Ret headers c
    | None => Throw (CurlException "malformed header") c
    end.
Proof.
  unfold GET_headers, bind, get. destruct (headers_of_list (_header c));
    reflexivity.
Qed.

(** X4. Headers added with [ADD_headers] come back from [GET_headers] as
    they went in, after those that were there, whenever no name or value
    holds NUL and no name holds ": "; after [RESET_headers] there are
    none. *)
Theorem headers_round_trip c hs old c' :
  forallb plain_header hs = true ->
  GET_headers c = Ret old c ->
  ADD_headers hs c = Ret tt c' ->
  GET_headers c' = Ret (old ++ hs) c'
  /\ (forall c0 c1, RESET_headers c' = Ret tt c0 ->
                    GET_headers c0 = Ret [] c0
                    /\ (ADD_headers hs c0 = Ret tt c1 ->
                        GET_headers c1 = Ret hs c1)).
Proof.
  intros Hplain Hold Hadd.
  pose proof (ADD_headers_header hs c) as Hh. rewrite Hadd in Hh.
  rewrite GET_headers_of in Hold.
  destruct (headers_of_list (_header c)) as [r|] eqn:Hr; [|discriminate].
  injection Hold as <-. split.
  - rewrite GET_headers_of, Hh,
      (headers_of_list_app _ _ _ _ Hr (headers_of_list_lines hs Hplain)).
    reflexivity.
  - intros c0 c1 Hreset. unfold RESET_headers, modify in Hreset.
    injection Hreset as <-. split; [reflexivity|].
    intros Hadd1.
    pose proof (ADD_headers_header hs
                  (with_options (delete CURLOPT_HTTPHEADER (_options c'))
                     (with_header [] c'))) as Hh1.
    rewrite Hadd1 in Hh1. simpl in Hh1.
    rewrite GET_headers_of, Hh1, (headers_of_list_lines hs Hplain).
    reflexivity.
Qed.

(** X5. A header whose name holds NUL before any ": " is stored cut at
    the NUL, without its ": "; once such a header is in the list,
    [GET_headers] throws "malformed header". *)
Theorem header_cut_at_nul c hs k1 k2 v c' :
  contains zero k1 = false -> find_str ": " k1 = None ->
  In (k1 +:+ String zero k2, v) hs ->
  ADD_headers hs c = Ret tt c' ->
  header_line (k1 +:+ String zero k2, v) = k1
  /\ GET_headers c' = Throw (CurlException "malformed header") c'.
Proof.
  intros Hnul Hsep Hin Hadd.
  assert (Hline : header_line (k1 +:+ String zero k2, v) = k1).
  { unfold header_line. simpl fst. simpl snd. rewrite append_assoc.
    clear -Hnul. induction k1 as [|a k1 IH]; [reflexivity|].
    rewrite append_cons. simpl in *. apply orb_false_iff in Hnul as [Ha Hk].
    rewrite Ha, (IH Hk). reflexivity. }
  split; [exact Hline|].
  pose proof (ADD_headers_header hs c) as Hh. rewrite Hadd in Hh.
  rewrite GET_headers_of.
  rewrite (headers_of_list_malformed (_header c') k1); [reflexivity| |].
  - rewrite Hh. apply in_or_app. right. rewrite <- Hline.
    apply in_map, Hin.
  - unfold header_name_value. rewrite (c_str_plain _ Hnul), Hsep. reflexivity.
Qed.

Lemma header_list_to_map_app l1 l2 r1 r2 :
  header_list_to_map l1 = Some r1 -> header_list_to_map l2 = Some r2 ->
  header_list_to_map (l1 ++ l2) = Some (r1 ++ r2).
Proof.
  revert r1. induction l1 as [|d l1 IH]; intros r1 H1 H2; simpl in *.
  - injection H1 as <-. exact H2.
  - destruct (header_to_pair d); [|discriminate].
    destruct (header_list_to_map l1) as [r|]; [|discriminate].
    injection H1 as <-. rewrite (IH r eq_refl H2). reflexivity.
Qed.

(** X6. [header_list_to_map] cuts at the first ':' and nothing more: of
    the headers that [ADD_headers] added it gives the names, when they hold
    no ':', and each value with the space of ": " before it, which
    [GET_headers] leaves out. *)
Theorem header_list_to_map_keeps_space c hs old c' :
  forallb plain_header hs = true ->
  forallb (fun h => negb (contains ":" (fst h))) hs = true ->
  header_list_to_map (_header c) = Some old ->
  ADD_headers hs c = Ret tt c' ->
  header_list_to_map (_header c') = Some (old ++ map with_space hs).
Proof.
  intros Hplain Hcolon Hold Hadd.
  pose proof (ADD_headers_header hs c) as Hh. rewrite Hadd in Hh.
  rewrite Hh. apply (header_list_to_map_app _ _ _ _ Hold).
  clear -Hplain Hcolon. induction hs as [|h hs IH]; [reflexivity|].
  simpl in *. apply andb_true_iff in Hplain as [Hh Hhs], Hcolon as [Hc Hcs].
  rewrite (IH Hhs Hcs). unfold header_to_pair. unfold header_line at 1.
  rewrite c_str_idempotent. fold (header_line h).
  rewrite (header_line_plain h Hh).
  apply negb_true_iff in Hc. rewrite (find_char_first ":" _ _ Hc).
  reflexivity.
Qed.

End Headers.

Lemma headers_round_trip_witness :
  forallb plain_header example_headers = true
  /\ CurlConnectionImpl_.GET_headers example_impl = Ret [] example_impl
  /\ CurlConnectionImpl_.ADD_headers (curl := curl_online) example_headers
       example_impl = Ret tt example_with_headers
  /\ CurlConnectionImpl_.GET_headers example_with_headers
     = Ret example_headers example_with_headers.
Proof.
  assert (H1 : forallb plain_header example_headers = true) by reflexivity.
  assert (H2 : CurlConnectionImpl_.GET_headers example_impl = Ret [] example_impl)
    by reflexivity.
  assert (H3 : CurlConnectionImpl_.ADD_headers (curl := curl_online)
                 example_headers example_impl = Ret tt example_with_headers)
    by reflexivity.
  split; [exact H1|]. split; [exact H2|]. split; [exact H3|].
  exact (proj1 (headers_round_trip (curl := curl_online) example_impl
                  example_headers [] example_with_headers H1 H2 H3)).
Defined.

Lemma header_cut_at_nul_witness :
  CurlConnectionImpl_.ADD_headers (curl := curl_online) example_cut_header
    example_impl = Ret tt example_with_cut_header
  /\ CurlConnectionImpl_._header example_with_cut_header = ["X"%string]
  /\ CurlConnectionImpl_.GET_headers example_with_cut_header
     = Throw (CurlException "malformed header") example_with_cut_header.
Proof.
  assert (H : CurlConnectionImpl_.ADD_headers (curl := curl_online)
                example_cut_header example_impl
              = Ret tt example_with_cut_header) by reflexivity.
  split; [exact H|]. split; [reflexivity|].
  exact (proj2 (header_cut_at_nul (curl := curl_online) example_impl
                  example_cut_header "X" "-Id" "7" example_with_cut_header
                  eq_refl eq_refl (or_introl eq_refl) H)).
Defined.

Lemma header_list_to_map_keeps_space_witness :
  header_list_to_map (CurlConnectionImpl_._header example_with_headers)
  = Some [("Accept", " application/json");
          ("Authorization", " Bearer a:b: c")]%string.
Proof.
  exact (header_list_to_map_keeps_space (curl := curl_online) example_impl
           example_headers [] example_with_headers eq_refl eq_refl eq_refl
           eq_refl).
Defined.

(* ================================================================= *)
(** ** The timeout: [SET_timeout] and [GET_timeout] *)

Section Timeout.
Context {curl : LibCurl}.

Import CurlConnectionImpl_.

Lemma digits_value_step a s acc k :
  isdigit a = true -> (Z.of_nat (nat_of_ascii a) - 48)%Z = k ->
  digits_value (String a s) acc
  = digits_value s (Some (10 * default 0%Z acc + k)%Z).
Proof. intros H <-. simpl. rewrite H. reflexivity. Qed.

Ltac digit_step a k :=
  rewrite (digits_value_step a _ _ k eq_refl eq_refl);
  cbv beta iota delta [default from_option id].

Lemma digits_value_acc d : forall acc,
  digits_value (NilEmpty.string_of_uint d) (Some (Z.pos acc))
  = Some (Z.pos (Pos.of_uint_acc d acc)).
Proof.
  induction d; intros acc; cbn [NilEmpty.string_of_uint Pos.of_uint_acc];
    [reflexivity|..].
  - digit_step "0"%char 0%Z. rewrite <- IHd. do 2 f_equal; lia.
  - digit_step "1"%char 1%Z. rewrite <- IHd. do 2 f_equal; lia.
  - digit_step "2"%char 2%Z. rewrite <- IHd. do 2 f_equal; lia.
  - digit_step "3"%char 3%Z. rewrite <- IHd. do 2 f_equal; lia.
  - digit_step "4"%char 4%Z. rewrite <- IHd. do 2 f_equal; lia.
  - digit_step "5"%char 5%Z. rewrite <- IHd. do 2 f_equal; lia.
  - digit_step "6"%char 6%Z. rewrite <- IHd. do 2 f_equal; lia.
  - digit_step "7"%char 7%Z. rewrite <- IHd. do 2 f_equal; lia.
  - digit_step "8"%char 8%Z. rewrite <- IHd. do 2 f_equal; lia.
  - digit_step "9"%char 9%Z. rewrite <- IHd. do 2 f_equal; lia.
Qed.

Lemma digits_value_zero d :
  digits_value (NilEmpty.string_of_uint d) (Some 0%Z)
  = Some (Z.of_N (Pos.of_uint d)).
Proof.
  induction d; cbn [NilEmpty.string_of_uint Pos.of_uint]; [reflexivity|..].
  - digit_step "0"%char 0%Z. exact IHd.
  - digit_step "1"%char 1%Z. apply (digits_value_acc d 1).
  - digit_step "2"%char 2%Z. apply (digits_value_acc d 2).
  - digit_step "3"%char 3%Z. apply (digits_value_acc d 3).
  - digit_step "4"%char 4%Z. apply (digits_value_acc d 4).
  - digit_step "5"%char 5%Z. apply (digits_value_acc d 5).
  - digit_step "6"%char 6%Z. apply (digits_value_acc d 6).
  - digit_step "7"%char 7%Z. apply (digits_value_acc d 7).
  - digit_step "8"%char 8%Z. apply (digits_value_acc d 8).
  - digit_step "9"%char 9%Z. apply (digits_value_acc d 9).
Qed.

Lemma digits_value_none d :
  d <> Decimal.Nil ->
  digits_value (NilEmpty.string_of_uint d) None
  = Some (Z.of_N (Pos.of_uint d)).
Proof.
  intros Hd. rewrite <- digits_value_zero. destruct d; [contradiction|..];
    reflexivity.
Qed.

(** [std::stol] reads back what [std::to_string] wrote for a number that
    is not negative. *)
Lemma stol_to_string long_max z :
  (0 <= z <= long_max)%Z -> stol long_max (to_string z) = stol_value z.
Proof.
  intros Hz. unfold to_string.
  assert (Hd : exists d, d <> Decimal.Nil /\ Z.to_int z = Decimal.Pos d
                         /\ Z.of_N (Pos.of_uint d) = z).
  { destruct z as [|p|p]; [| |lia].
    - exists (Decimal.D0 Decimal.Nil). split; [discriminate|]. split; reflexivity.
    - exists (Pos.to_uint p). split; [apply DecimalPos.Unsigned.to_uint_nonnil|].
      split; [reflexivity|]. rewrite DecimalPos.Unsigned.of_to. reflexivity. }
  destruct Hd as (d & Hnil & -> & Hval). simpl.
  assert (Hs : NilZero.string_of_uint d = NilEmpty.string_of_uint d)
    by (destruct d; [contradiction|..]; reflexivity).
  rewrite Hs. pose proof (digits_value_none d Hnil) as Hv. rewrite Hval in Hv.
  unfold stol.
  assert (Hhead : forall s,
            s = NilEmpty.string_of_uint d ->
            skip_spaces s = s
            /\ match s with
               | String a s' =>
                   if Ascii.eqb a "-" then (true, s')
                   else if Ascii.eqb a "+" then (false, s') else (false, s)
               | EmptyString => (false, s)
               end = (false, s)).
  { intros s ->. destruct d; [contradiction|..]; split; reflexivity. }
  destruct (Hhead _ eq_refl) as [-> ->]. rewrite Hv.
  destruct (decide (- long_max - 1 <= z <= long_max)%Z); [reflexivity|lia].
Qed.

Lemma set_option_recorded o p c c' :
  set_option o p c = Ret tt c' -> _options c' = <[o := to_str p]> (_options c).
Proof.
  unfold set_option. destruct (_handle c) as [h|]; [|discriminate].
  destruct (curl_easy_setopt h o p); [|discriminate].
  intros H. injection H as <-. reflexivity.
Qed.

(** X7. After [SET_timeout t] has returned, [GET_timeout] gives [t] back
    when [t] is positive and 0 otherwise, for every [t] that is a [long]
    ([LONG_MAX] is any bound that is not negative). *)
Theorem timeout_round_trip long_max timeout c c' :
  (0 <= long_max)%Z -> (timeout <= long_max)%Z ->
  SET_timeout timeout c = Ret tt c' ->
  GET_timeout long_max c'
  = stol_value (if decide (0 < timeout)%Z then timeout else 0%Z).
Proof.
  intros Hmax Ht H. unfold SET_timeout in H.
  apply set_option_recorded in H. unfold GET_timeout.
  rewrite H, lookup_insert_eq. simpl. apply stol_to_string.
  destruct (decide (0 < timeout)%Z); lia.
Qed.

End Timeout.

Lemma timeout_round_trip_witness :
  CurlConnectionImpl_.GET_timeout 2147483647 example_impl = stol_value 0
  /\ CurlConnectionImpl_.GET_timeout 2147483647 (example_with_timeout 30000)
     = stol_value 30000
  /\ CurlConnectionImpl_.GET_timeout 2147483647 (example_with_timeout (-5))
     = stol_value 0.
Proof.
  split; [reflexivity|]. split.
  - apply (timeout_round_trip (curl := curl_online) 2147483647 30000
             example_impl); [lia|lia|reflexivity].
  - apply (timeout_round_trip (curl := curl_online) 2147483647 (-5)
             example_impl); [lia|lia|reflexivity].
Defined.

(* ================================================================= *)
(** ** A connection that has been closed *)

Section ClosedConnection.
Context {curl : LibCurl}.

Import HTTPConnection.

Lemma with_pimpl_same c : with_pimpl (_pimpl c) c = c.
Proof. destruct c; reflexivity. Qed.

Lemma on_pimpl_throws {A} (m : M CurlConnectionImpl_.t A) c e :
  m (_pimpl c) = Throw e (_pimpl c) -> on_pimpl m c = Throw e c.
Proof.
  intros H. unfold on_pimpl, zoom. rewrite H, with_pimpl_same. reflexivity.
Qed.

Lemma closed_set_option o p (i : CurlConnectionImpl_.t) :
  CurlConnectionImpl_._handle i = None ->
  CurlConnectionImpl_.set_option o p i
  = Throw (CurlException CurlConnectionImpl_.closed_msg) i.
Proof. intros H. unfold CurlConnectionImpl_.set_option. rewrite H. reflexivity. Qed.

Lemma is_closed_handle c :
  is_closed c = true -> CurlConnectionImpl_._handle (_pimpl c) = None.
Proof.
  unfold is_closed, CurlConnectionImpl_.is_closed.
  destruct (CurlConnectionImpl_._handle (_pimpl c)); [discriminate|reflexivity].
Qed.

(** X8. On a closed connection every call that would reach libcurl throws
    [CurlException] "connection/handle has been closed": [set_option],
    [execute], the setters, [add_headers] and [set_fields] also for an
    empty list, [_set_method] for the four methods, [set_url] for a URL
    with a valid scheme.  None of them changes the connection, except
    [set_url] with an http URL, which has set the protocol before it
    throws.  [close] itself returns, on any connection, and leaves it
    closed without options and headers; closing again changes nothing. *)
Theorem closed_connection_refuses c :
  is_closed c = true ->
  let closed := CurlException CurlConnectionImpl_.closed_msg in
  (forall o p, set_option o p c = Throw closed c)
  /\ (forall rhd, execute rhd c = Throw closed c)
  /\ (forall timeout, set_timeout timeout c = Throw closed c)
  /\ (forall enc, set_encoding enc c = Throw closed c)
  /\ (forall on, set_keepalive on c = Throw closed c)
  /\ (forall hs, add_headers hs c = Throw closed c)
  /\ (forall fs, set_fields fs c = Throw closed c)
  /\ (forall meth, (forall v, meth <> http_method_other v) ->
                   _set_method meth c = Throw closed c)
  /\ (forall bundle url,
        starts_with "https://" url = true ->
        set_url bundle url c = Throw closed c)
  /\ (forall bundle url,
        starts_with "https://" url = false ->
        starts_with "http://" url = true ->
        set_url bundle url c = Throw closed (with_proto http c))
  /\ (forall c0 c1, close c0 = Ret tt c1 ->
        is_closed c1 = true
        /\ _pimpl c1 = {| CurlConnectionImpl_._header := [];
                          CurlConnectionImpl_._handle := None;
                          CurlConnectionImpl_._options := ∅ |}
        /\ close c1 = Ret tt c1).
Proof.
  intros Hc closed. pose proof (is_closed_handle c Hc) as Hh.
  assert (Hset : forall o p, set_option o p c = Throw closed c).
  { intros o p. apply on_pimpl_throws, closed_set_option, Hh. }
  split; [exact Hset|].
  split.
  { intros rhd. apply on_pimpl_throws.
    unfold CurlConnectionImpl_.execute, bind, get. rewrite Hh. reflexivity. }
  split; [intros t; apply on_pimpl_throws, closed_set_option, Hh|].
  split; [intros t; apply on_pimpl_throws, closed_set_option, Hh|].
  split; [intros t; apply on_pimpl_throws, closed_set_option, Hh|].
  split.
  { intros hs. apply on_pimpl_throws.
    unfold CurlConnectionImpl_.ADD_headers, bind, get. rewrite Hh. reflexivity. }
  split.
  { intros fs. apply on_pimpl_throws.
    unfold CurlConnectionImpl_.SET_fields, CurlConnectionImpl_.SET_fields_str,
      bind, get, CurlConnectionImpl_.is_closed.
    rewrite Hh. reflexivity. }
  split.
  { intros meth Hm. unfold _set_method, bind.
    destruct meth as [| | | |v]; try (rewrite Hset; reflexivity).
    destruct (Hm v eq_refl). }
  assert (HSET : forall url (c2 : t),
            CurlConnectionImpl_._handle (_pimpl c2) = None ->
            on_pimpl (CurlConnectionImpl_.SET_url url) c2 = Throw closed c2).
  { intros url c2 H2. apply on_pimpl_throws.
    unfold CurlConnectionImpl_.SET_url, bind.
    rewrite (closed_set_option _ _ _ H2). reflexivity. }
  split.
  { intros bundle url Hs. unfold set_url. rewrite Hs. unfold bind at 1.
    unfold bind at 1. unfold get.
    destruct (decide (_proto c = https)).
    - unfold ret. apply HSET, Hh.
    - unfold bind. destruct (decide (bundle = EmptyString)).
      + rewrite (on_pimpl_throws (CurlConnectionImpl_.SET_ssl_verify true) c
                   closed); [reflexivity|].
        unfold CurlConnectionImpl_.SET_ssl_verify, bind.
        rewrite (closed_set_option _ _ _ Hh). reflexivity.
      + rewrite (on_pimpl_throws
                   (CurlConnectionImpl_.SET_ssl_verify_using_ca_bundle bundle)
                   c closed); [reflexivity|].
        unfold CurlConnectionImpl_.SET_ssl_verify_using_ca_bundle,
          CurlConnectionImpl_.SET_ssl_verify, bind.
        rewrite (closed_set_option _ _ _ Hh). reflexivity. }
  split.
  { intros bundle url Hs Hp. unfold set_url. rewrite Hs, Hp.
    unfold bind, modify. apply (HSET url (with_proto http c)). exact Hh. }
  intros c0 c1 H. unfold close, on_pimpl, zoom, CurlConnectionImpl_.close,
    modify in *. injection H as <-. repeat split.
Qed.

End ClosedConnection.

Lemma closed_connection_refuses_witness :
  HTTPConnection.is_closed example_http = false
  /\ HTTPConnection.is_closed example_closed = true
  /\ HTTPConnection.execute (curl := curl_online) true example_closed
     = Throw (CurlException "connection/handle has been closed") example_closed
  /\ HTTPConnection.add_headers (curl := curl_online) [] example_closed
     = Throw (CurlException "connection/handle has been closed") example_closed
  /\ HTTPConnection.set_url (curl := curl_online) EmptyString "http://h"
       example_closed
     = Throw (CurlException "connection/handle has been closed")
         (HTTPConnection.with_proto HTTPConnection.http example_closed).
Proof.
  assert (H : HTTPConnection.is_closed example_closed = true) by reflexivity.
  destruct (closed_connection_refuses (curl := curl_online) example_closed H)
    as (_ & Hexec & _ & _ & _ & Hadd & _ & _ & _ & Hhttp & _).
  split; [reflexivity|]. split; [exact H|]. split; [exact (Hexec true)|].
  split; [exact (Hadd [])|].
  exact (Hhttp EmptyString "http://h"%string eq_refl eq_refl).
Defined.

(* ================================================================= *)
(** ** Constructors of the front-end *)

Section Constructors.
Context {curl : LibCurl}.

Import SharedHTTPConnection.

Lemma lifts_on_conn {A} id (m : M HTTPConnection.t A) : lifts id (on_conn id m) m.
Proof.
  intros X cs bundle c Hc entry. unfold on_conn, zoom. simpl.
  rewrite lookup_insert_eq. simpl. rewrite Hc.
  destruct (m c); try reflexivity; subst entry; unfold with_contexts; simpl;
    rewrite alter_insert_eq; reflexivity.
Qed.

Lemma lifts_ret {A} id (a : A) : lifts id (ret a) (ret a).
Proof.
  intros X cs bundle c Hc entry. subst entry. unfold ret.
  destruct X as [cn mx nr]. simpl in Hc. subst cn. reflexivity.
Qed.

Lemma lifts_bind {A B} id gm (m : M HTTPConnection.t A) gk
  (k : A -> M HTTPConnection.t B) :
  lifts id gm m -> (forall a, lifts id (gk a) (k a)) ->
  lifts id (bind gm gk) (bind m k).
Proof.
  intros Hm Hk X cs bundle c Hc entry. unfold bind.
  rewrite (Hm X cs bundle c Hc). cbv zeta.
  destruct (m c) as [a c1|e c1| |]; try reflexivity.
  rewrite (Hk a (with_conn (Some c1) X) cs bundle c1 eq_refl). cbv zeta.
  destruct (k a c1); reflexivity.
Qed.

Lemma with_contexts_same g : with_contexts (contexts g) g = g.
Proof. destruct g; reflexivity. Qed.

(** Under the lock of the entry, such a computation is the computation on
    the connection, and the entry has its mutex free again afterwards. *)
Lemma lock_guard_lifts {A} id gbody (body : M HTTPConnection.t A) g ctx c0 :
  lifts id gbody body ->
  contexts g !! id = Some ctx -> conn ctx = Some c0 -> mtx ctx = Some false ->
  lock_guard (mutex_lock id) (mutex_unlock id) gbody g
  = match body c0 with
    | Ret a c' => Ret a (entry_with id (with_conn (Some c') ctx) g)
    | Throw e c' => Throw e (entry_with id (with_conn (Some c') ctx) g)
    | AssertFail => AssertFail
    | Undefined => Undefined
    end.
Proof.
  intros Hl Hctx Hc Hm. unfold lock_guard, mutex_lock. unfold_cpp.
  rewrite Hctx, Hm. unfold with_contexts at 1.
  rewrite (Hl (with_mtx (Some true) ctx) (contexts g)
              (certificate_bundle_path g) c0 Hc). cbv zeta.
  destruct (body c0) as [a c'|e c'| |]; try reflexivity;
    unfold mutex_unlock, entry_with, with_contexts; simpl;
    rewrite alter_insert_eq; unfold with_mtx, with_conn; simpl;
    rewrite Hm; reflexivity.
Qed.

(** The constructor on an id that is in use, as one equation. *)
Lemma new_on_id_in_use url meth id g ctx c0 :
  contexts g !! id = Some ctx -> conn ctx = Some c0 ->
  mtx ctx = Some false -> (0 < nref ctx)%Z -> nref ctx <> INT_MAX ->
  new_ url meth id g
  = match reconfigure (certificate_bundle_path g) url meth c0 with
    | Ret _ c1 =>
        Ret (front_end url meth id)
          (entry_with id (with_nref (nref ctx + 1) (with_conn (Some c1) ctx)) g)
    | Throw e c1 => Throw e (entry_with id (with_conn (Some c1) ctx) g)
    | AssertFail => AssertFail
    | Undefined => Undefined
    end.
Proof.
  intros Hctx Hc Hm Hpos Hmax. unfold new_. unfold bind at 1. unfold get.
  rewrite Hctx. unfold bind at 1. unfold bind at 1. unfold assert_.
  rewrite bool_decide_eq_true_2 by exact Hpos.
  rewrite (lock_guard_lifts id _ (reconfigure (certificate_bundle_path g) url meth)
             g ctx c0); try assumption.
  - destruct (reconfigure _ url meth c0) as [[] c1|e c1| |]; try reflexivity.
    unfold bind.
    rewrite (incr_ref_returns id _ (with_conn (Some c1) ctx));
      [|unfold entry_with; simpl; apply lookup_insert_eq|simpl; eauto
       |exact Hmax].
    unfold ret, entry_with, with_contexts. simpl. rewrite insert_insert_eq.
    reflexivity.
  - unfold reconfigure. apply lifts_bind; [apply lifts_on_conn|].
    intros _. destruct (decide (url = EmptyString));
      [apply lifts_ret|apply lifts_on_conn].
Qed.

(** X9. A front-end made for an id that is in use: the constructor sets
    its method, and its URL unless that is empty, on the connection that
    the front-ends of the id share, under the mutex of the entry, and then
    counts one reference more.  When one of the two calls throws, the
    exception leaves the constructor: no reference is added, and the shared
    connection stays as the failing call left it. *)
Theorem constructor_on_id_in_use url meth id g ctx c0 :
  contexts g !! id = Some ctx -> conn ctx = Some c0 ->
  mtx ctx = Some false -> (0 < nref ctx)%Z -> nref ctx <> INT_MAX ->
  new_ url meth id g
  = match reconfigure (certificate_bundle_path g) url meth c0 with
    | Ret _ c1 =>
        Ret (front_end url meth id)
          (entry_with id (with_nref (nref ctx + 1) (with_conn (Some c1) ctx)) g)
    | Throw e c1 => Throw e (entry_with id (with_conn (Some c1) ctx) g)
    | AssertFail => AssertFail
    | Undefined => Undefined
    end.
Proof. apply new_on_id_in_use. Qed.

(** The constructor on an id that is not in use, as one equation. *)
Lemma new_on_new_id url meth id g :
  contexts g !! id = None ->
  new_ url meth id g
  = match (if decide (url = EmptyString) then HTTPConnection.new_ meth
           else HTTPConnection.new_url (certificate_bundle_path g) url meth) g
    with
    | Ret c _ =>
        Ret (front_end url meth id)
          (entry_with id {| conn := Some c; mtx := Some false; nref := 1 |} g)
    | Throw e _ => Throw e g
    | AssertFail => AssertFail
    | Undefined => Undefined
    end.
Proof.
  intros Hctx. unfold new_. unfold bind at 1. unfold get. rewrite Hctx.
  unfold bind at 1. unfold bind at 1.
  set (mk := if decide (url = EmptyString) then HTTPConnection.new_ meth
             else HTTPConnection.new_url (certificate_bundle_path g) url meth).
  assert (Hmk : match mk g with
                | Ret _ g1 | Throw _ g1 => g1 = g
                | _ => True
                end).
  { subst mk. destruct (decide (url = EmptyString)); apply constructor_state. }
  destruct (mk g) as [c g1|e g1| |]; try reflexivity; subst g1;
    [|reflexivity].
  unfold modify, bind.
  rewrite (incr_ref_returns id _ (Context_new c));
    [|apply lookup_insert_eq|simpl; eauto|simpl; unfold INT_MAX; lia].
  unfold ret, entry_with, with_contexts. simpl. rewrite insert_insert_eq.
  reflexivity.
Qed.

(** X10. A front-end made for an id that is not in use: the constructor
    makes the connection, with the URL unless that is empty, enters it in
    the registry with a free mutex and counts the first reference.  When
    the connection cannot be made the exception leaves the constructor and
    the registry is as it was. *)
Theorem constructor_on_new_id url meth id g :
  contexts g !! id = None ->
  new_ url meth id g
  = match (if decide (url = EmptyString) then HTTPConnection.new_ meth
           else HTTPConnection.new_url (certificate_bundle_path g) url meth) g
    with
    | Ret c _ =>
        Ret (front_end url meth id)
          (entry_with id {| conn := Some c; mtx := Some false; nref := 1 |} g)
    | Throw e _ => Throw e g
    | AssertFail => AssertFail
    | Undefined => Undefined
    end.
Proof. apply new_on_new_id. Qed.

(** X11. A copy of an open front-end counts one reference more for its
    id, and closing the copy gives the registry back exactly as it was
    before the copy; a copy of a closed front-end leaves the registry
    alone. *)
Theorem copy_then_close connection g :
  (forall ctx,
     _is_open connection = true ->
     contexts g !! _id connection = Some ctx -> is_Some (conn ctx) ->
     (1 <= nref ctx)%Z -> nref ctx <> INT_MAX ->
     exists g1,
       copy connection g = Ret connection g1
       /\ nconnections (_id connection) g1 = (nref ctx + 1)%Z
       /\ close {| this := connection; statics := g1 |}
          = Ret tt {| this := with_is_open false connection; statics := g |})
  /\ (_is_open connection = false -> copy connection g = Ret connection g).
Proof.
  split.
  - intros ctx Ho Hctx Hc Hpos Hmax. unfold copy, bind. rewrite Ho.
    rewrite (incr_ref_returns _ g ctx Hctx Hc Hmax). unfold ret.
    eexists. split; [reflexivity|]. split.
    + unfold nconnections. simpl. rewrite lookup_insert_eq. reflexivity.
    + rewrite (close_open connection _ (with_nref (nref ctx + 1) ctx) Ho);
        [|simpl; apply lookup_insert_eq|exact Hc|simpl; lia].
      simpl. destruct (decide (nref ctx + 1 = 1)%Z); [lia|].
      rewrite insert_insert_eq.
      replace (with_nref (nref ctx + 1 - 1) (with_nref (nref ctx + 1) ctx))
        with ctx
        by (destruct ctx; unfold with_nref; simpl; f_equal; lia).
      rewrite (insert_id _ _ _ Hctx).
      unfold with_contexts. simpl. destruct g; reflexivity.
  - intros Hc. unfold copy, bind. rewrite Hc. reflexivity.
Qed.

End Constructors.

Lemma constructor_on_id_in_use_witness :
  SharedHTTPConnection.new_ (curl := curl_online) "ftp://x" http_delete 1
    (example_registry curl_online)
  = Throw (CurlException "invalid protocol in url: ftp://x")
      (entry_with 1
         (SharedHTTPConnection.with_conn (Some example_refused_conn)
            (example_entry curl_online))
         (example_registry curl_online))
  /\ CurlConnectionImpl_._options (HTTPConnection._pimpl example_refused_conn)
     !! CURLOPT_CUSTOMREQUEST = Some "DELETE"%string
  /\ CurlConnectionImpl_._options
       (HTTPConnection._pimpl (example_conn curl_online))
     !! CURLOPT_CUSTOMREQUEST = None.
Proof.
  assert (H1 : SharedHTTPConnection.contexts (example_registry curl_online)
               !! 1%Z = Some (example_entry curl_online)) by compute_done.
  assert (H2 : SharedHTTPConnection.conn (example_entry curl_online)
               = Some (example_conn curl_online)) by compute_done.
  assert (H3 : SharedHTTPConnection.mtx (example_entry curl_online)
               = Some false) by compute_done.
  assert (H4 : (0 < SharedHTTPConnection.nref (example_entry curl_online))%Z)
    by compute_done.
  assert (H5 : SharedHTTPConnection.nref (example_entry curl_online) <> INT_MAX)
    by compute_done.
  pose proof (constructor_on_id_in_use (curl := curl_online) "ftp://x"
                http_delete 1 _ _ _ H1 H2 H3 H4 H5) as E.
  assert (R : reconfigure (curl := curl_online)
                (SharedHTTPConnection.certificate_bundle_path
                   (example_registry curl_online))
                "ftp://x" http_delete (example_conn curl_online)
              = Throw (CurlException "invalid protocol in url: ftp://x")
                  example_refused_conn) by compute_done.
  rewrite R in E. split; [exact E|]. split; compute_done.
Defined.

Lemma constructor_on_new_id_witness :
  SharedHTTPConnection.new_ (curl := curl_online) "https://h/o" http_put 7
    no_contexts
  = Ret (front_end "https://h/o" http_put 7)
      (entry_with 7
         {| SharedHTTPConnection.conn := Some example_made_conn;
            SharedHTTPConnection.mtx := Some false;
            SharedHTTPConnection.nref := 1 |}
         no_contexts)
  /\ SharedHTTPConnection.new_ (curl := curl_online) "ftp://x" http_put 7
       no_contexts
     = Throw (CurlException "invalid protocol in url: ftp://x") no_contexts.
Proof.
  assert (H : SharedHTTPConnection.contexts no_contexts !! 7%Z = None)
    by compute_done.
  split.
  - rewrite (constructor_on_new_id (curl := curl_online) "https://h/o"
               http_put 7 no_contexts H).
    compute_done.
  - rewrite (constructor_on_new_id (curl := curl_online) "ftp://x"
               http_put 7 no_contexts H).
    compute_done.
Defined.

Lemma copy_then_close_witness :
  exists g1,
    SharedHTTPConnection.copy example_post
      (example_registry curl_online) = Ret example_post g1
    /\ SharedHTTPConnection.nconnections 1 g1 = 2%Z
    /\ SharedHTTPConnection.close
         {| SharedHTTPConnection.this := example_post;
            SharedHTTPConnection.statics := g1 |}
       = Ret tt {| SharedHTTPConnection.this :=
                     SharedHTTPConnection.with_is_open false example_post;
                   SharedHTTPConnection.statics :=
                     example_registry curl_online |}.
Proof.
  assert (H1 : SharedHTTPConnection.contexts (example_registry curl_online)
               !! SharedHTTPConnection._id example_post
               = Some (example_entry curl_online)) by compute_done.
  assert (H2 : is_Some (SharedHTTPConnection.conn (example_entry curl_online))).
  { exists (example_conn curl_online). compute_done. }
  assert (H4 : (1 <= SharedHTTPConnection.nref (example_entry curl_online))%Z)
    by compute_done.
  assert (H5 : SharedHTTPConnection.nref (example_entry curl_online) <> INT_MAX)
    by compute_done.
  destruct (proj1 (copy_then_close example_post
                     (example_registry curl_online))
              (example_entry curl_online) eq_refl H1 H2 H4 H5)
    as (g1 & Hcopy & Hn & Hclose).
  exists g1. split; [exact Hcopy|]. split; [|exact Hclose].
  change 1%Z with (SharedHTTPConnection._id example_post).
  rewrite Hn. compute_done.
Defined.

(* ================================================================= *)
(** ** The options of the method *)

Section MethodOptions.
Context {curl : LibCurl}.

Import HTTPConnection.

Lemma _set_method_returns meth c m c' :
  _set_method meth c = Ret m c' ->
  exists o v,
    method_option meth = Some (o, v)
    /\ CurlConnectionImpl_._options (_pimpl c')
       = <[o := v]> (CurlConnectionImpl_._options (_pimpl c))
    /\ _proto c' = _proto c /\ _meth c' = _meth c.
Proof.
  unfold _set_method. intros H. apply bind_returns in H as ([] & c1 & H & Hr).
  injection Hr as _ <-.
  destruct meth as [| | | |v]; [..|discriminate];
    apply on_pimpl_returns in H as (p' & H & ->);
    apply set_option_recorded in H; cbn [_pimpl with_pimpl _proto _meth];
    rewrite H; eexists _, _; (split; [reflexivity|]); repeat split.
Qed.

(** X12. No call of [_set_method] takes an option of the method back: over
    a sequence of calls that return, [CURLOPT_CUSTOMREQUEST] is that of the
    last DELETE or PUT of the sequence, also when a GET or POST comes
    after it, and [CURLOPT_HTTPGET] and [CURLOPT_POST] stay recorded once a
    GET or a POST has set them. *)
Theorem method_options_stay ms c c' :
  set_methods ms c = Ret tt c' ->
  let options x := CurlConnectionImpl_._options (_pimpl x) in
  options c' !! CURLOPT_CUSTOMREQUEST
  = last_custom ms (options c !! CURLOPT_CUSTOMREQUEST)
  /\ (In http_get ms \/ options c !! CURLOPT_HTTPGET = Some "1"%string ->
      options c' !! CURLOPT_HTTPGET = Some "1"%string)
  /\ (In http_post ms \/ options c !! CURLOPT_POST = Some "1"%string ->
      options c' !! CURLOPT_POST = Some "1"%string).
Proof.
  intros H options. subst options. revert c H.
  induction ms as [|meth ms IH]; intros c H.
  - injection H as <-. simpl. split; [reflexivity|].
    split; intros [[]|E]; exact E.
  - simpl in H. apply bind_returns in H as (m & c1 & H1 & H2).
    apply _set_method_returns in H1 as (o & v & Hmo & Hopts & _).
    destruct (IH c1 H2) as (Hc & Hg & Hp). rewrite Hopts in Hc, Hg, Hp.
    destruct meth as [| | | |x]; try discriminate;
      injection Hmo as <- <-; cbn [last_custom];
      rewrite ?lookup_insert_eq in *;
      rewrite ?lookup_insert_ne in * by discriminate;
      (split; [exact Hc|]); split.
    all: try (intros [[E|Hin]|E]; try discriminate; auto; fail).
    all: intros _; auto.
Qed.

End MethodOptions.

Lemma method_options_stay_witness :
  set_methods (curl := curl_online) [http_delete; http_get] example_http
  = Ret tt example_after_methods
  /\ CurlConnectionImpl_._options (HTTPConnection._pimpl example_after_methods)
     !! CURLOPT_CUSTOMREQUEST = Some "DELETE"%string
  /\ CurlConnectionImpl_._options (HTTPConnection._pimpl example_after_methods)
     !! CURLOPT_HTTPGET = Some "1"%string.
Proof.
  assert (H : set_methods (curl := curl_online) [http_delete; http_get]
                example_http = Ret tt example_after_methods) by compute_done.
  destruct (method_options_stay (curl := curl_online) _ _ _ H) as (Hc & Hg & _).
  split; [exact H|]. split.
  - rewrite Hc. reflexivity.
  - apply Hg. left. right. left. reflexivity.
Defined.

(* ================================================================= *)
(** ** The constructors of [HTTPConnection] *)

Section HttpConstructors.
Context {curl : LibCurl}.

Import HTTPConnection.

Lemma http_set_option_calls o p c c' :
  on_pimpl (CurlConnectionImpl_.set_option o p) c = Ret tt c' ->
  calls_on c' = calls_on c ++ [call_setopt o p]
  /\ is_closed c = false /\ _proto c' = _proto c /\ _meth c' = _meth c.
Proof.
  intros H. apply on_pimpl_returns in H as (p' & H & ->).
  apply set_option_returns in H as (h & Hh & Hh').
  unfold calls_on, is_closed, CurlConnectionImpl_.is_closed. simpl.
  rewrite Hh, Hh'. repeat split.
Qed.

Lemma _set_method_calls meth c m c' :
  _set_method meth c = Ret m c' ->
  m = meth
  /\ exists mc, method_call meth = Some mc
                /\ calls_on c' = calls_on c ++ [mc]
                /\ _proto c' = _proto c /\ _meth c' = _meth c.
Proof.
  unfold _set_method. intros H. apply bind_returns in H as ([] & c1 & H & Hr).
  injection Hr as <- <-. split; [reflexivity|].
  destruct meth as [| | | |v]; [..|discriminate];
    apply http_set_option_calls in H as (Hc & _ & Hp & Hm);
    eexists; (split; [reflexivity|]); repeat split; assumption.
Qed.

(** The part of both constructors before the URL. *)
Lemma constructor_prefix meth m c1 c2 c4 c5 :
  on_pimpl CurlConnectionImpl_.init (fresh meth) = Ret tt c1 ->
  _set_method meth c1 = Ret m c2 ->
  set_encoding DEFAULT_ENCODING (with_meth m c2) = Ret tt c4 ->
  set_keepalive true c4 = Ret tt c5 ->
  exists mc, method_call meth = Some mc
             /\ calls_on c5 = constructor_calls mc
             /\ _proto c5 = none /\ _meth c5 = meth.
Proof.
  intros H1 H2 H4 H5.
  apply on_pimpl_returns in H1 as (p1 & H1 & ->).
  unfold CurlConnectionImpl_.init in H1.
  apply bind_returns in H1 as ([] & p0 & H0 & H1).
  apply set_option_returns in H0 as (h0 & Hh0 & Hp0).
  apply set_option_returns in H1 as (h1 & Hh1 & Hp1).
  simpl in Hh0. injection Hh0 as <-. rewrite Hp0 in Hh1. injection Hh1 as <-.
  apply _set_method_calls in H2 as (-> & mc & Hmc & Hc2 & Hp2 & Hm2).
  apply http_set_option_calls in H4 as (Hc4 & _ & Hp4 & Hm4).
  apply http_set_option_calls in H5 as (Hc5 & _ & Hp5 & Hm5).
  exists mc. split; [exact Hmc|].
  rewrite Hc5, Hc4, Hp5, Hp4, Hm5, Hm4.
  change (calls_on (with_meth meth c2)) with (calls_on c2).
  rewrite Hc2. unfold calls_on at 1. simpl. rewrite Hp1.
  split; [reflexivity|]. split; [exact Hp2|reflexivity].
Qed.

Lemma set_url_scheme bundle url c c' :
  set_url bundle url c = Ret tt c' ->
  starts_with "https://" url || starts_with "http://" url = true.
Proof.
  unfold set_url. intros H. apply bind_returns in H as ([] & c1 & H & _).
  destruct (starts_with "https://" url); [reflexivity|].
  destruct (starts_with "http://" url); [reflexivity|discriminate].
Qed.

(** X13. A connection that a constructor of [HTTPConnection] returns has
    received exactly these calls, in this order: no signals, the error
    buffer, the option of the method, the encoding gzip, keep-alive; then,
    for the constructor with a URL, which has one of the two schemes, TLS
    verification if the scheme is https (with the certificate bundle if the
    path is not empty), the URL and the revocation option.  Its method is
    the one asked for, one of the four, and it is open; the state around
    it is untouched. *)
Theorem http_constructor_calls {S} bundle url meth (s s' : S) c :
  (new_url bundle url meth s = Ret c s' ->
   s' = s
   /\ starts_with "https://" url || starts_with "http://" url = true
   /\ exists mc, method_call meth = Some mc
        /\ calls_on c = constructor_calls mc ++ url_calls bundle url
        /\ _meth c = meth
        /\ _proto c = (if starts_with "https://" url then https else http)
        /\ is_closed c = false)
  /\ (new_ meth s = Ret c s' ->
      s' = s
      /\ exists mc, method_call meth = Some mc
           /\ calls_on c = constructor_calls mc
           /\ _meth c = meth /\ _proto c = none /\ is_closed c = false).
Proof.
  split.
  - unfold new_url, constructor. intros H.
    match type of H with
    | match ?b with _ => _ end = _ => destruct b as [[] c0| | |] eqn:E
    end; try discriminate.
    injection H as <- <-. split; [reflexivity|].
    apply bind_returns in E as ([] & c1 & H1 & E).
    apply bind_returns in E as (m & c2 & H2 & E).
    apply bind_returns in E as ([] & c3 & H3 & E).
    apply bind_returns in E as ([] & c4 & H4 & E).
    apply bind_returns in E as ([] & c5 & H5 & Hurl).
    unfold modify in H3. injection H3 as <-.
    destruct (constructor_prefix _ _ _ _ _ _ H1 H2 H4 H5)
      as (mc & Hmc & Hcalls & Hproto & Hmeth).
    split; [exact (set_url_scheme _ _ _ _ Hurl)|].
    destruct (set_url_returns _ _ _ _ Hurl) as [Hc Hp].
    exists mc. split; [exact Hmc|]. rewrite Hc, Hp, Hcalls, Hproto.
    split.
    { unfold url_calls. destruct (starts_with "https://" url); [|reflexivity].
      destruct (decide (none = https)); [discriminate|reflexivity]. }
    split.
    { unfold set_url in Hurl. apply bind_returns in Hurl as ([] & c6 & H6 & H7).
      apply on_pimpl_returns in H7 as (p' & _ & ->).
      change (_meth (with_pimpl p' c6)) with (_meth c6).
      destruct (starts_with "https://" url).
      - unfold bind at 1, get in H6.
        destruct (decide (_proto c5 = https)) as [Eh|_];
          [rewrite Hproto in Eh; discriminate|].
        apply bind_returns in H6 as ([] & c7 & H6 & H8).
        injection H8 as <-.
        change (_meth (with_proto https c7)) with (_meth c7).
        destruct (decide (bundle = EmptyString));
          apply on_pimpl_returns in H6 as (q & _ & ->); exact Hmeth.
      - destruct (starts_with "http://" url); [|discriminate].
        injection H6 as <-. exact Hmeth. }
    split; [reflexivity|].
    unfold is_closed, CurlConnectionImpl_.is_closed.
    unfold set_url in Hurl. apply bind_returns in Hurl as ([] & c6 & _ & H7).
    apply on_pimpl_returns in H7 as (p' & H7 & ->).
    apply SET_url_returns in H7 as (h1 & _ & Hp'). simpl. rewrite Hp'.
    reflexivity.
  - unfold new_, constructor. intros H.
    match type of H with
    | match ?b with _ => _ end = _ => destruct b as [[] c0| | |] eqn:E
    end; try discriminate.
    injection H as <- <-. split; [reflexivity|].
    apply bind_returns in E as ([] & c1 & H1 & E).
    apply bind_returns in E as (m & c2 & H2 & E).
    apply bind_returns in E as ([] & c3 & H3 & E).
    apply bind_returns in E as ([] & c4 & H4 & H5).
    unfold modify in H3. injection H3 as <-.
    destruct (constructor_prefix _ _ _ _ _ _ H1 H2 H4 H5)
      as (mc & Hmc & Hcalls & Hproto & Hmeth).
    exists mc. split; [exact Hmc|]. split; [exact Hcalls|].
    split; [exact Hmeth|]. split; [exact Hproto|].
    unfold is_closed, CurlConnectionImpl_.is_closed. unfold calls_on in Hcalls.
    destruct (CurlConnectionImpl_._handle (_pimpl c0)); [reflexivity|].
    discriminate.
Qed.

End HttpConstructors.

Lemma http_constructor_calls_witness :
  HTTPConnection.new_url (curl := curl_online) (S := unit) EmptyString
    "https://h/o" http_put tt = Ret example_made_conn tt
  /\ calls_on example_made_conn
     = [call_setopt CURLOPT_NOSIGNAL (PLong 1);
        call_setopt CURLOPT_ERRORBUFFER (PPointer ptr_error_buffer);
        call_setopt CURLOPT_CUSTOMREQUEST (PString "PUT");
        call_setopt CURLOPT_ACCEPT_ENCODING (PString "gzip");
        call_setopt CURLOPT_TCP_KEEPALIVE (PLong 1);
        call_setopt CURLOPT_SSL_VERIFYPEER (PLong 1);
        call_setopt CURLOPT_SSL_VERIFYHOST (PLong 2);
        call_setopt CURLOPT_URL (PString "https://h/o");
        call_setopt CURLOPT_SSL_OPTIONS (PLong 2)].
Proof.
  assert (H : HTTPConnection.new_url (curl := curl_online) (S := unit)
                EmptyString "https://h/o" http_put tt
              = Ret example_made_conn tt) by compute_done.
  split; [exact H|].
  destruct (proj1 (http_constructor_calls (curl := curl_online) EmptyString
                     "https://h/o" http_put tt tt example_made_conn) H)
    as (_ & _ & mc & Hmc & Hcalls & _).
  injection Hmc as <-. exact Hcalls.
Defined.

(* ================================================================= *)
(** ** What a request is made with *)

Section Request.
Context {curl : LibCurl}.

Import SharedHTTPConnection.

(** X14. When [execute] returns, the URL, the list of headers and the
    timeout of the shared connection are those of this front-end, and so
    is the body if the method is not GET and the fields give a string
    that is not empty, whatever the front-end that used the connection
    before had set. *)
Theorem execute_sets_own_parameters rhd self g ctx c0 r fr' :
  _is_open self = true ->
  contexts g !! _id self = Some ctx -> conn ctx = Some c0 ->
  mtx ctx = Some false ->
  execute rhd {| this := self; statics := g |} = Ret r fr' ->
  exists c',
    statics fr' = entry_with (_id self) (with_conn (Some c') ctx) g
    /\ holds_http (pushed self) c'
    /\ holds_http (timeout_pushed self) c'.
Proof.
  intros Hopen Hctx Hconn Hmtx H.
  rewrite (execute_open rhd self g ctx c0) in H by assumption.
  pose proof (push_parameters_spec (certificate_bundle_path g) self c0
                (conj I I)) as Hs.
  destruct (push_parameters _ self c0) as [[] c5|e1 c1| |] eqn:E1;
    try discriminate.
  pose proof (perform_request_pushed rhd self c5 (proj2 Hs)) as Hp.
  destruct (perform_request rhd self c5) as [r' c7|e2 c7| |] eqn:E2;
    try discriminate.
  injection H as -> <-. exists c7. split; [reflexivity|]. exact Hp.
Qed.

End Request.

Lemma execute_sets_own_parameters_witness :
  exists c',
    SharedHTTPConnection.statics (example_after curl_online)
    = entry_with 1 (SharedHTTPConnection.with_conn (Some c')
                      (example_entry curl_online))
        (example_registry curl_online)
    /\ holds_http (pushed example_post) c'
    /\ holds_http (timeout_pushed example_post) c'.
Proof.
  assert (E : SharedHTTPConnection.execute (curl := curl_online) true
                (example_frame curl_online)
              = Ret (example_result curl_online (example_frame curl_online))
                  (example_after curl_online)) by compute_done.
  assert (H1 : SharedHTTPConnection.contexts (example_registry curl_online)
               !! SharedHTTPConnection._id example_post
               = Some (example_entry curl_online)) by compute_done.
  assert (H2 : SharedHTTPConnection.conn (example_entry curl_online)
               = Some (example_conn curl_online)) by compute_done.
  assert (H3 : SharedHTTPConnection.mtx (example_entry curl_online) = Some false)
    by compute_done.
  exact (execute_sets_own_parameters (curl := curl_online) true example_post
           (example_registry curl_online) (example_entry curl_online)
           (example_conn curl_online) _ _ eq_refl H1 H2 H3 E).
Defined.

(* ================================================================= *)
(** ** Programs neither fail an assertion nor leave defined behaviour *)

Section KeepsOpen.

Lemma keeps_open_ret {S A} closed (a : A) : keeps_open (S := S) closed (ret a).
Proof. intros s H. exact H. Qed.

Lemma keeps_open_throw {S A} closed e :
  keeps_open (S := S) (A := A) closed (throw e).
Proof. intros s H. exact H. Qed.

Lemma keeps_open_modify {S} closed (f : S -> S) :
  (forall s, closed (f s) = closed s) -> keeps_open closed (modify f).
Proof. intros Hf s H. unfold modify. rewrite Hf. exact H. Qed.

Lemma keeps_open_bind {S A B} closed (m : M S A) (k : A -> M S B) :
  keeps_open closed m -> (forall a, keeps_open closed (k a)) ->
  keeps_open closed (bind m k).
Proof.
  intros Hm Hk s H. unfold bind. specialize (Hm s H).
  destruct (m s) as [a s'|e s'| |]; try exact Hm. apply Hk, Hm.
Qed.

Lemma keeps_open_get {S A} closed (k : S -> M S A) :
  (forall s, closed s = false -> keeps_open closed (k s)) ->
  keeps_open closed (bind get k).
Proof. intros Hk s H. unfold bind, get. apply (Hk s H s H). Qed.

End KeepsOpen.

Section Defined.
Context {curl : LibCurl}.

Abbreviation impl_open := (keeps_open CurlConnectionImpl_.is_closed).
Abbreviation http_open := (keeps_open HTTPConnection.is_closed).

Lemma impl_open_set_option o p : impl_open (CurlConnectionImpl_.set_option o p).
Proof.
  intros c H. unfold CurlConnectionImpl_.set_option, CurlConnectionImpl_.is_closed in *.
  destruct (CurlConnectionImpl_._handle c) as [h|]; [|discriminate].
  destruct (curl_easy_setopt h o p); reflexivity.
Qed.

Lemma impl_open_perform : impl_open CurlConnectionImpl_.perform.
Proof.
  intros c H. unfold CurlConnectionImpl_.perform, CurlConnectionImpl_.is_closed in *.
  destruct (CurlConnectionImpl_._handle c) as [h|]; [reflexivity|discriminate].
Qed.

Lemma impl_open_execute rhd : impl_open (CurlConnectionImpl_.execute rhd).
Proof.
  unfold CurlConnectionImpl_.execute. apply keeps_open_get. intros c Hc.
  destruct (CurlConnectionImpl_._handle c); [|apply keeps_open_throw].
  apply keeps_open_bind; [apply impl_open_set_option|intros _].
  apply keeps_open_bind; [apply impl_open_set_option|intros _].
  apply keeps_open_bind.
  { destruct rhd; [|apply keeps_open_ret].
    apply keeps_open_bind; [apply impl_open_set_option|intros _].
    apply impl_open_set_option. }
  intros _. apply keeps_open_bind; [apply impl_open_perform|intros r].
  destruct (decide (ccode r = CURLE_OK));
    [apply keeps_open_ret|apply keeps_open_throw].
Qed.

Lemma impl_open_ADD_headers hs : impl_open (CurlConnectionImpl_.ADD_headers hs).
Proof.
  unfold CurlConnectionImpl_.ADD_headers. apply keeps_open_get. intros c Hc.
  destruct (CurlConnectionImpl_._handle c); [|apply keeps_open_throw].
  destruct hs; [apply keeps_open_ret|].
  apply keeps_open_bind; [|intros _; apply impl_open_set_option].
  apply keeps_open_modify. reflexivity.
Qed.

Lemma impl_open_SET_fields fs : impl_open (CurlConnectionImpl_.SET_fields fs).
Proof.
  unfold CurlConnectionImpl_.SET_fields, CurlConnectionImpl_.SET_fields_str.
  apply keeps_open_get. intros c Hc.
  destruct (CurlConnectionImpl_.is_closed c); [apply keeps_open_throw|].
  destruct (decide (_ = EmptyString));
    [apply keeps_open_ret|apply impl_open_set_option].
Qed.

Lemma http_open_on_pimpl {A} (m : M CurlConnectionImpl_.t A) :
  impl_open m -> http_open (HTTPConnection.on_pimpl m).
Proof.
  intros Hm c H. unfold HTTPConnection.on_pimpl, zoom.
  specialize (Hm (HTTPConnection._pimpl c) H).
  destruct (m (HTTPConnection._pimpl c)); exact Hm.
Qed.

Lemma http_open__set_method meth : http_open (HTTPConnection._set_method meth).
Proof.
  unfold HTTPConnection._set_method.
  apply keeps_open_bind; [|intros _; apply keeps_open_ret].
  destruct meth; try apply keeps_open_throw;
    apply http_open_on_pimpl, impl_open_set_option.
Qed.

Lemma http_open_set_method meth : http_open (HTTPConnection.set_method meth).
Proof.
  unfold HTTPConnection.set_method.
  apply keeps_open_bind; [apply http_open__set_method|intros m].
  apply keeps_open_modify. reflexivity.
Qed.

Lemma http_open_set_url bundle url : http_open (HTTPConnection.set_url bundle url).
Proof.
  unfold HTTPConnection.set_url. apply keeps_open_bind.
  - destruct (starts_with "https://" url).
    + apply keeps_open_get. intros c Hc.
      destruct (decide (HTTPConnection._proto c = HTTPConnection.https));
        [apply keeps_open_ret|].
      apply keeps_open_bind; [|intros _; apply keeps_open_modify; reflexivity].
      destruct (decide (bundle = EmptyString)); apply http_open_on_pimpl.
      * apply keeps_open_bind; [|intros _]; apply impl_open_set_option.
      * apply keeps_open_bind; [|intros _; apply impl_open_set_option].
        apply keeps_open_bind; [|intros _]; apply impl_open_set_option.
    + destruct (starts_with "http://" url);
        [apply keeps_open_modify; reflexivity|apply keeps_open_throw].
  - intros _. apply http_open_on_pimpl.
    apply keeps_open_bind; [|intros _]; apply impl_open_set_option.
Qed.

Lemma http_open_push_parameters bundle self :
  http_open (push_parameters bundle self).
Proof.
  unfold push_parameters.
  apply keeps_open_bind; [apply http_open_set_url|intros _].
  apply keeps_open_bind.
  { apply http_open_on_pimpl, keeps_open_modify. reflexivity. }
  intros _. apply keeps_open_bind.
  { destruct (negb _); [|apply keeps_open_ret].
    apply http_open_on_pimpl, impl_open_ADD_headers. }
  intros _. apply keeps_open_bind; [apply http_open_set_method|intros _].
  destruct (_ && _); [|apply keeps_open_ret].
  apply http_open_on_pimpl, impl_open_SET_fields.
Qed.

Lemma http_open_perform_request rhd self :
  http_open (perform_request rhd self).
Proof.
  unfold perform_request. apply keeps_open_bind.
  - apply http_open_on_pimpl, impl_open_set_option.
  - intros _. apply http_open_on_pimpl, impl_open_execute.
Qed.

Lemma http_open_reconfigure bundle url meth :
  http_open (reconfigure bundle url meth).
Proof.
  unfold reconfigure. apply keeps_open_bind; [apply http_open_set_method|].
  intros _. destruct (decide (url = EmptyString));
    [apply keeps_open_ret|apply http_open_set_url].
Qed.

(** A constructor of [HTTPConnection] returns an open connection or
    throws. *)
Lemma http_constructor_defined {S} bundle url meth (s : S) :
  match (if decide (url = EmptyString) then HTTPConnection.new_ meth
         else HTTPConnection.new_url bundle url meth) s with
  | Ret c _ => HTTPConnection.is_closed c = false
  | Throw _ _ => True
  | _ => False
  end.
Proof.
  assert (Hpre : http_open
            (bind (HTTPConnection.on_pimpl CurlConnectionImpl_.init)
               (fun _ => bind (HTTPConnection._set_method meth)
                  (fun m => bind (modify (HTTPConnection.with_meth m))
                     (fun _ => bind (HTTPConnection.set_encoding
                                       HTTPConnection.DEFAULT_ENCODING)
                        (fun _ => HTTPConnection.set_keepalive true)))))).
  { apply keeps_open_bind.
    { apply http_open_on_pimpl.
      apply keeps_open_bind; [|intros _]; apply impl_open_set_option. }
    intros _. apply keeps_open_bind; [apply http_open__set_method|intros m].
    apply keeps_open_bind; [apply keeps_open_modify; reflexivity|intros _].
    apply keeps_open_bind; [|intros _];
      apply http_open_on_pimpl, impl_open_set_option. }
  destruct (decide (url = EmptyString)).
  - unfold HTTPConnection.new_, constructor.
    specialize (Hpre (HTTPConnection.fresh meth) eq_refl).
    destruct (bind _ _ (HTTPConnection.fresh meth)); try exact Hpre. exact I.
  - unfold HTTPConnection.new_url, constructor.
    assert (Hall : http_open
              (bind (HTTPConnection.on_pimpl CurlConnectionImpl_.init)
                 (fun _ => bind (HTTPConnection._set_method meth)
                    (fun m => bind (modify (HTTPConnection.with_meth m))
                       (fun _ => bind (HTTPConnection.set_encoding
                                         HTTPConnection.DEFAULT_ENCODING)
                          (fun _ => bind (HTTPConnection.set_keepalive true)
                             (fun _ => HTTPConnection.set_url bundle url))))))).
    { apply keeps_open_bind.
      { apply http_open_on_pimpl.
        apply keeps_open_bind; [|intros _]; apply impl_open_set_option. }
      intros _. apply keeps_open_bind; [apply http_open__set_method|intros m].
      apply keeps_open_bind; [apply keeps_open_modify; reflexivity|intros _].
      apply keeps_open_bind;
        [apply http_open_on_pimpl, impl_open_set_option|intros _].
      apply keeps_open_bind;
        [apply http_open_on_pimpl, impl_open_set_option|intros _].
      apply http_open_set_url. }
    specialize (Hall (HTTPConnection.fresh meth) eq_refl).
    destruct (bind _ _ (HTTPConnection.fresh meth)); try exact Hall. exact I.
Qed.

End Defined.

Section DefinedPrograms.
Context {curl : LibCurl}.

Import SharedHTTPConnection.

Lemma conns_within_refl g : conns_within g g.
Proof. intros id ctx H. exists ctx. split; [exact H|reflexivity]. Qed.

Lemma conns_within_trans g1 g2 g3 :
  conns_within g1 g2 -> conns_within g2 g3 -> conns_within g1 g3.
Proof.
  intros H12 H23 id ctx1 H1. destruct (H12 id ctx1 H1) as (ctx2 & H2 & E12).
  destruct (H23 id ctx2 H2) as (ctx3 & H3 & E23).
  exists ctx3. split; [exact H3|congruence].
Qed.

Lemma handles_within g' g :
  handles_open g -> conns_within g' g -> handles_open g'.
Proof.
  intros Hg Hw id ctx' c H' Hc. destruct (Hw id ctx' H') as (ctx & H & E).
  apply (Hg id ctx c H). congruence.
Qed.

Lemma conns_within_nref id n ctx g :
  contexts g !! id = Some ctx ->
  conns_within (with_contexts (<[id := with_nref n ctx]> (contexts g)) g) g.
Proof.
  intros Hctx j ctx'. simpl. destruct (decide (j = id)) as [->|Hne].
  - rewrite lookup_insert_eq. intros [= <-]. exists ctx. split; [exact Hctx|].
    reflexivity.
  - rewrite lookup_insert_ne by congruence. intros H. exists ctx'.
    split; [exact H|reflexivity].
Qed.

Lemma conns_within_delete id g :
  conns_within (with_contexts (delete id (contexts g)) g) g.
Proof.
  intros j ctx'. simpl. destruct (decide (j = id)) as [->|Hne].
  - rewrite lookup_delete_eq. discriminate.
  - rewrite lookup_delete_ne by congruence. intros H. exists ctx'.
    split; [exact H|reflexivity].
Qed.

Lemma handles_entry_with id c g :
  handles_open g -> HTTPConnection.is_closed c = false ->
  forall X, conn X = Some c -> handles_open (entry_with id X g).
Proof.
  intros Hg Hc X HX j ctx' c'. unfold entry_with. simpl.
  destruct (decide (j = id)) as [->|Hne].
  - rewrite lookup_insert_eq. intros [= <-] E. congruence.
  - rewrite lookup_insert_ne by congruence. apply Hg.
Qed.

Lemma incr_ref_defined id g :
  entries_ok g -> (nconnections id g < INT_MAX)%Z ->
  match incr_ref id g with
  | Ret _ g' => conns_within g' g
  | Throw _ _ => False
  | AssertFail => True
  | Undefined => False
  end.
Proof.
  intros Hg Hmax. unfold nconnections in Hmax.
  destruct (contexts g !! id) as [ctx|] eqn:Hctx.
  - destruct (Hg id ctx Hctx) as (_ & Hc & _).
    rewrite (incr_ref_returns id g ctx Hctx Hc) by lia.
    apply conns_within_nref, Hctx.
  - unfold incr_ref. unfold_cpp. rewrite Hctx. exact I.
Qed.

Lemma decr_ref_defined id g :
  entries_ok g ->
  match decr_ref id g with
  | Ret _ g' => conns_within g' g
  | Throw _ _ => False
  | AssertFail => True
  | Undefined => False
  end.
Proof.
  intros Hg. destruct (contexts g !! id) as [ctx|] eqn:Hctx.
  - destruct (Hg id ctx Hctx) as (Hn & Hc & _).
    rewrite (decr_ref_returns id g ctx Hctx Hc) by lia.
    destruct (decide (nref ctx = 1%Z));
      [apply conns_within_delete|apply conns_within_nref, Hctx].
  - unfold decr_ref. unfold_cpp. rewrite Hctx. exact I.
Qed.

Lemma defined_modify_this P (f : t -> t) : defined_member P (modify_this f).
Proof. intros fr _ Hh _. exact Hh. Qed.

Lemma defined_set_url P url : defined_member P (set_url url).
Proof.
  intros fr Hg Hh HP. unfold set_url.
  destruct (negb (regex_search_continuous url PROTO_RX)); exact Hh.
Qed.

Lemma defined_close : defined_member (fun _ => True) close.
Proof.
  intros fr Hg Hh _. unfold close, is_closed. unfold bind at 1. unfold get.
  destruct (_is_open (this fr)); simpl; [|exact Hh].
  unfold bind. rewrite static_outcome.
  pose proof (decr_ref_defined (_id (this fr)) (statics fr) Hg) as Hd.
  destruct (decr_ref (_id (this fr)) (statics fr)) as [[] g'|e g'| |];
    [|destruct Hd|exact I|exact Hd].
  exact (handles_within _ _ Hh Hd).
Qed.

Lemma defined_assign connection :
  defined_member
    (fun fr => forall id, (nconnections id (statics fr) < INT_MAX)%Z)
    (assign connection).
Proof.
  intros fr Hg Hh Hmax. unfold assign. unfold bind at 1. unfold get.
  destruct (neq (this fr) connection); [|exact Hh].
  unfold bind at 1. rewrite static_outcome.
  assert (Hend : forall (m : M globals unit),
    match m (statics fr) with
    | Ret _ g' => conns_within g' (statics fr)
    | Throw _ _ => False
    | AssertFail => True
    | Undefined => False
    end ->
    match
      match
        match m (statics fr) with
        | Ret a g' => Ret a (with_statics g' fr)
        | Throw e g' => Throw e (with_statics g' fr)
        | AssertFail => AssertFail
        | Undefined => Undefined
        end
      with
      | Ret _ s' => modify_this (fun _ : t => connection) s'
      | Throw e s' => Throw e s'
      | AssertFail => AssertFail
      | Undefined => Undefined
      end
    with
    | Ret _ fr' | Throw _ fr' => handles_open (statics fr')
    | AssertFail => True
    | Undefined => False
    end).
  { intros m Hm.
    destruct (m (statics fr)) as [[] g'|e g'| |];
      [|destruct Hm|exact I|exact Hm].
    exact (handles_within _ _ Hh Hm). }
  apply Hend.
  destruct (negb (bool_decide (_is_open (this fr) = _is_open connection))).
  - destruct (_is_open connection);
      [apply incr_ref_defined; [exact Hg|apply Hmax]
      |apply decr_ref_defined, Hg].
  - destruct (negb (bool_decide (_id (this fr) = _id connection))
              && _is_open (this fr)); [|apply conns_within_refl].
    unfold bind.
    pose proof (decr_ref_defined (_id (this fr)) (statics fr) Hg) as Hd.
    pose proof (decr_ref_counts (_id (this fr)) (statics fr) Hg) as Hc.
    destruct (decr_ref (_id (this fr)) (statics fr)) as [[] g1|e g1| |];
      [|destruct Hd|exact I|exact Hd].
    destruct Hc as [Hg1 Hn1].
    assert (Hmax1 : (nconnections (_id connection) g1 < INT_MAX)%Z).
    { rewrite Hn1. specialize (Hmax (_id connection)).
      destruct (decide (_id connection = _id (this fr))); lia. }
    pose proof (incr_ref_defined (_id connection) g1 Hg1 Hmax1) as Hi.
    destruct (incr_ref (_id connection) g1) as [[] g2|e g2| |];
      [|destruct Hi|exact I|exact Hi].
    exact (conns_within_trans _ _ _ Hi Hd).
Qed.

Lemma defined_execute rhd : defined_member this_bound (execute rhd).
Proof.
  intros [self g] Hg Hh Hb. unfold this_bound in Hb. cbn [this statics] in *.
  destruct (_is_open self) eqn:Hopen.
  - destruct (Hb Hopen) as [ctx Hctx].
    destruct (Hg _ _ Hctx) as (Hn & [c0 Hc0] & Hm).
    rewrite (execute_open rhd self g ctx c0) by assumption.
    pose proof (http_open_push_parameters (certificate_bundle_path g) self c0
                  (Hh _ _ _ Hctx Hc0)) as H5.
    destruct (push_parameters _ self c0) as [[] c5|e c5| |];
      [| |destruct H5|destruct H5].
    + pose proof (http_open_perform_request rhd self c5 H5) as H7.
      destruct (perform_request rhd self c5) as [r c7|e c7| |];
        [| |destruct H7|destruct H7];
        cbn [statics]; apply (handles_entry_with _ c7 g Hh H7); reflexivity.
    + cbn [statics]. apply (handles_entry_with _ c5 g Hh H5); reflexivity.
  - rewrite execute_closed by exact Hopen. exact Hh.
Qed.

Lemma new_defined url meth id g :
  entries_ok g -> handles_open g -> (nconnections id g < INT_MAX)%Z ->
  match new_ url meth id g with
  | Ret _ g' | Throw _ g' => handles_open g'
  | AssertFail => True
  | Undefined => False
  end.
Proof.
  intros Hg Hh Hmax. unfold nconnections in Hmax.
  destruct (contexts g !! id) as [ctx|] eqn:Hctx.
  - destruct (Hg id ctx Hctx) as (Hn & [c0 Hc0] & Hm).
    rewrite (new_on_id_in_use url meth id g ctx c0) by (assumption || lia).
    pose proof (http_open_reconfigure (certificate_bundle_path g) url meth c0
                  (Hh _ _ _ Hctx Hc0)) as H1.
    destruct (reconfigure _ url meth c0) as [[] c1|e c1| |];
      [| |destruct H1|destruct H1];
      apply (handles_entry_with _ c1 g Hh H1); reflexivity.
  - rewrite (new_on_new_id url meth id g Hctx).
    pose proof (http_constructor_defined (certificate_bundle_path g) url meth g)
      as H1.
    destruct ((if decide (url = EmptyString) then HTTPConnection.new_ meth
               else HTTPConnection.new_url (certificate_bundle_path g) url meth)
                g) as [c g1|e g1| |]; [|exact Hh|destruct H1|destruct H1].
    apply (handles_entry_with _ c g Hh H1); reflexivity.
Qed.

Lemma copy_defined connection g :
  entries_ok g -> handles_open g ->
  (nconnections (_id connection) g < INT_MAX)%Z ->
  match copy connection g with
  | Ret _ g' | Throw _ g' => handles_open g'
  | AssertFail => True
  | Undefined => False
  end.
Proof.
  intros Hg Hh Hmax. unfold copy, bind.
  destruct (_is_open connection); [|exact Hh].
  pose proof (incr_ref_defined (_id connection) g Hg Hmax) as Hi.
  destruct (incr_ref (_id connection) g) as [[] g1|e g1| |];
    [|destruct Hi|exact I|exact Hi].
  exact (handles_within _ _ Hh Hi).
Qed.

Lemma member_defined {A} P a (m : M frame A) p :
  defined_member P m ->
  entries_ok (process p) -> handles_open (process p) -> holds_object a p ->
  (forall x, objects p !! a = Some (Some x) ->
             P {| this := x; statics := process p |}) ->
  match member a m p with
  | Ret _ p' | Throw _ p' => handles_open (process p')
  | AssertFail => True
  | Undefined => False
  end.
Proof.
  intros Hm Hg Hh [x Hx] HP. unfold member, zoom. rewrite Hx.
  specialize (Hm {| this := x; statics := process p |} Hg Hh (HP x Hx)).
  destruct (m _) as [r fr'|e fr'| |]; exact Hm.
Qed.

Lemma step_handles o p :
  registry_ok p -> handles_open (process p) -> well_addressed o p ->
  (forall id, (nconnections id (process p) < INT_MAX)%Z) ->
  match step o p with
  | Ret _ p' | Throw _ p' => handles_open (process p')
  | AssertFail => True
  | Undefined => False
  end.
Proof.
  intros Hp Hh Ha Hmax. pose proof (proj1 Hp) as Hg.
  destruct o as [url meth id|src|dst src|a|a|a url|a meth|a hs|a fs
                |a timeout|a rhd]; unfold step; simpl in Ha.
  - unfold bind, in_process, zoom. simpl.
    pose proof (new_defined url meth id (process p) Hg Hh (Hmax id)) as Hn.
    destruct (new_ url meth id (process p)) as [x g'|e g'| |]; exact Hn.
  - destruct Ha as [connection Hs]. unfold bind at 1. unfold object_at.
    rewrite Hs. unfold bind, in_process, zoom. simpl.
    pose proof (copy_defined connection (process p) Hg Hh (Hmax _)) as Hn.
    destruct (copy connection (process p)) as [x g'|e g'| |]; exact Hn.
  - destruct Ha as [Hd [connection Hs]]. unfold bind at 1. unfold object_at.
    rewrite Hs.
    apply (member_defined _ _ _ _ (defined_assign connection) Hg Hh Hd).
    intros x _. exact Hmax.
  - apply (member_defined _ _ _ _ defined_close Hg Hh Ha). trivial.
  - unfold bind.
    pose proof (member_defined _ a destroy p defined_close Hg Hh Ha
                  (fun _ _ => I)) as Hm.
    destruct (member a destroy p) as [[] p1|e p1| |]; exact Hm.
  - apply (member_defined (fun _ => True) _ _ _ (defined_set_url _ url)
             Hg Hh Ha). trivial.
  - apply (member_defined (fun _ => True) _ _ _ (defined_modify_this _ _)
             Hg Hh Ha). trivial.
  - apply (member_defined (fun _ => True) _ _ _ (defined_modify_this _ _)
             Hg Hh Ha). trivial.
  - apply (member_defined (fun _ => True) _ _ _ (defined_modify_this _ _)
             Hg Hh Ha). trivial.
  - apply (member_defined (fun _ => True) _ _ _ (defined_modify_this _ _)
             Hg Hh Ha). trivial.
  - unfold bind.
    pose proof (member_defined _ a (execute rhd) p (defined_execute rhd)
                  Hg Hh Ha (fun x Hx => open_bound p a x Hp Hx)) as Hm.
    destruct (member a (execute rhd) p) as [r p1|e p1| |]; exact Hm.
Qed.


End DefinedPrograms.


(* ================================================================= *)
(** ** The URL: [set_url] and [GET_url] *)

Section Url.
Context {curl : LibCurl}.

(** X16. After [set_url] has returned, [GET_url] gives the URL back, up
    to its first NUL: the URL itself when it holds none. *)
Theorem url_round_trip bundle url c c' :
  HTTPConnection.set_url bundle url c = Ret tt c' ->
  CurlConnectionImpl_.GET_url (HTTPConnection._pimpl c') = c_str url
  /\ (contains zero url = false ->
      CurlConnectionImpl_.GET_url (HTTPConnection._pimpl c') = url).
Proof.
  intros H. unfold HTTPConnection.set_url in H.
  apply bind_returns in H as ([] & c1 & _ & H).
  apply on_pimpl_returns in H as (p' & H & ->).
  unfold CurlConnectionImpl_.SET_url in H.
  apply bind_returns in H as ([] & p1 & H1 & H2).
  apply set_option_recorded in H1, H2.
  assert (E : CurlConnectionImpl_.GET_url p' = c_str url).
  { unfold CurlConnectionImpl_.GET_url. rewrite H2, H1.
    rewrite lookup_insert_ne by discriminate. rewrite lookup_insert_eq.
    reflexivity. }
  split; [exact E|]. intros Hn. simpl. rewrite E. apply c_str_plain, Hn.
Qed.

End Url.

Lemma url_round_trip_witness :
  HTTPConnection.set_url (curl := curl_online) EmptyString "https://a"
    example_http = Ret tt (after_set_urls ["https://a"%string])
  /\ CurlConnectionImpl_.GET_url (HTTPConnection._pimpl example_http)
     = EmptyString
  /\ CurlConnectionImpl_.GET_url
       (HTTPConnection._pimpl (after_set_urls ["https://a"%string]))
     = "https://a"%string.
Proof.
  assert (H : HTTPConnection.set_url (curl := curl_online) EmptyString
                "https://a" example_http
              = Ret tt (after_set_urls ["https://a"%string])) by compute_done.
  split; [exact H|]. split; [compute_done|].
  exact (proj2 (url_round_trip (curl := curl_online) _ _ _ _ H) eq_refl).
Defined.
